(** * The ONNX exporter of pytorch-pfn-extras, embedded in Rocq

    This development follows [pytorch_pfn_extras/onnx/export/export.py].
    Python exceptions are results of type [Result]; the dictionaries of the
    exporter are finite maps; the torch IR (values, nodes, nested blocks)
    is an inductive graph on which [replaceAllUsesWith] and [uses] are
    defined. *)

From stdpp Require Import gmap strings list fin_maps.
From stdpp Require Import pretty.
From Stdlib Require Import ZArith Lia.

Set Warnings "-register-all".

Local Open Scope string_scope.
Local Open Scope list_scope.

(** ** Python exceptions as results *)

Inductive PyExn :=
| AssertionError (what : string)
| KeyError
| AttributeError
| ValueError
| TypeError
| IndexError
| RuntimeError
| RecursionError
| OSError
| OtherError (what : string).

Inductive Result (A : Type) :=
| OK (a : A)
| Raise (e : PyExn).
Arguments OK {A} a.
Arguments Raise {A} e.

#[global] Instance Result_ret : MRet Result := fun _ a => OK a.
#[global] Instance Result_bind : MBind Result := fun _ _ f m =>
  match m with OK a => f a | Raise e => Raise e end.

Definition is_OK {A} (r : Result A) : bool :=
  match r with OK _ => true | Raise _ => false end.

Definition py_assert (b : bool) (what : string) : Result unit :=
  if b then OK tt else Raise (AssertionError what).

(** [for x in xs: st = body st x], stopping at the first exception. *)
Fixpoint foldM {A S} (body : S -> A -> Result S) (xs : list A) (st : S) : Result S :=
  match xs with
  | [] => OK st
  | x :: xs' => st' ← body st x; foldM body xs' st'
  end.

(** ** ONNX protobuf messages (the fields the exporter fills) *)

(** [onnx.TensorProto.DataType] *)
Inductive DataType :=
| UNDEFINED | FLOAT | UINT8 | INT8 | UINT16 | INT16 | INT32 | INT64
| STRING | BOOL | FLOAT16 | DOUBLE | UINT32 | UINT64 | COMPLEX64
| COMPLEX128 | BFLOAT16.

Record Dimension := { dim_value : Z }.

(** A [TypeProto]: its denotation and the [value] oneof.  An unset
    [shape] field of a tensor type is [None]. *)
Inductive TypeProto :=
| mkTypeProto (denotation : string) (value : TypeValue)
with TypeValue :=
| value_not_set
| tensor_type (elem_type : DataType) (shape : option (list Dimension))
| sequence_type (elem_type : TypeProto).

Definition empty_TypeProto : TypeProto := mkTypeProto "" value_not_set.

Definition tp_value (p : TypeProto) : TypeValue :=
  match p with mkTypeProto _ v => v end.
Definition tp_denotation (p : TypeProto) : string :=
  match p with mkTypeProto d _ => d end.

(** ** JIT types *)

(** The kinds of [torch._C.Type] other than the four the exporter projects. *)
Inductive OtherKind :=
| FloatType | BoolType | StringType | TupleType | ClassType | OptionalType
| NumberType | DeviceObjType | AnyType.

Inductive JitType :=
| NoneType
| ListType (getElementType : JitType)
| IntType
| TensorType (scalarType : option string) (sizes : option (list Z))
| OtherType (k : OtherKind).

Definition kind_of_other (k : OtherKind) : string :=
  match k with
  | FloatType => "FloatType" | BoolType => "BoolType"
  | StringType => "StringType" | TupleType => "TupleType"
  | ClassType => "ClassType" | OptionalType => "OptionalType"
  | NumberType => "NumberType" | DeviceObjType => "DeviceObjType"
  | AnyType => "AnyType"
  end.

Definition type_kind (t : JitType) : string :=
  match t with
  | NoneType => "NoneType"
  | ListType _ => "ListType"
  | IntType => "IntType"
  | TensorType _ _ => "TensorType"
  | OtherType k => kind_of_other k
  end.

Module TypeProjector.
Section WithTorch.
(** [repr(t)] and torch's table [sym_hel.cast_pytorch_to_onnx] are not
    part of the repository. *)
Variable repr : JitType -> string.
Variable cast_pytorch_to_onnx : string -> option DataType.

Definition dims_of (sizes : option (list Z)) : list Dimension :=
  match sizes with
  | None => []
  | Some ss => map (fun s => {| dim_value := s |}) ss
  end.

Fixpoint _type_to_proto (t : JitType) : Result TypeProto :=
  match t with
  | NoneType => OK empty_TypeProto
  | ListType e =>
      p ← _type_to_proto e;
      OK (mkTypeProto (repr t) (sequence_type p))
  | IntType => OK (mkTypeProto (repr t) (tensor_type INT64 (Some [])))
  | TensorType st sz =>
      et ← match st with
           | None => OK UNDEFINED
           | Some s => match cast_pytorch_to_onnx s with
                       | Some d => OK d
                       | None => Raise KeyError
                       end
           end;
      OK (mkTypeProto (repr t) (tensor_type et (Some (dims_of sz))))
  | OtherType k =>
      Raise (AssertionError ("Not Tensor type(actual: " ++ kind_of_other k ++ ")"))
  end.
End WithTorch.
End TypeProjector.

(** torch's scalar-type table, as [torch.onnx.symbolic_helper] has it. *)
Definition torch_cast_table (s : string) : option DataType :=
  if String.eqb s "Byte" then Some UINT8
  else if String.eqb s "Char" then Some INT8
  else if String.eqb s "Double" then Some DOUBLE
  else if String.eqb s "Float" then Some FLOAT
  else if String.eqb s "Half" then Some FLOAT16
  else if String.eqb s "Int" then Some INT32
  else if String.eqb s "Long" then Some INT64
  else if String.eqb s "Short" then Some INT16
  else if String.eqb s "Bool" then Some BOOL
  else if String.eqb s "ComplexFloat" then Some COMPLEX64
  else if String.eqb s "ComplexDouble" then Some COMPLEX128
  else if String.eqb s "Undefined" then Some UNDEFINED
  else None.

(** ** The torch IR: values, nodes and nested blocks *)

(** A [torch._C.Value] is identified by [v.unique()]. *)
Definition Value := N.
Definition TorchValueID := N.
Definition ONNXValueID := string.

Definition _unique_id (v : Value) : TorchValueID := v.

Inductive TorchDType :=
| float32 | uint8 | int8 | int16 | int32 | int64 | bool_ | float64 | float16
| bfloat16 | complex64 | complex128.

Record Tensor := { t_dtype : TorchDType; t_shape : list Z; t_data : list Z }.

Record TensorProto := { tp_name : option ONNXValueID; tp_tensor : Tensor }.

Definition _tensor_to_proto (t : Tensor) (name : option ONNXValueID) : TensorProto :=
  {| tp_name := name; tp_tensor := t |}.

Definition torch_dtype_to_onnx_data_type (d : TorchDType) : option DataType :=
  match d with
  | float32 => Some FLOAT
  | uint8 => Some UINT8
  | int8 => Some INT8
  | int16 => Some INT16
  | int32 => Some INT32
  | int64 => Some INT64
  | bool_ => Some BOOL
  | float64 => Some DOUBLE
  | float16 => Some FLOAT16
  | _ => None
  end.

(** Python values of constants ([toIValue]) and of scalar arguments. *)
Inductive IValue :=
| IVNone
| IVInt (i : Z)
| IVFloat (bits : Z)
| IVStr (s : string)
| IVTensor (t : Tensor)
| IVList (xs : list IValue).

(** Node attributes, tagged as [n.kindOf(name)] reports them. *)
Inductive AttrValue :=
| attr_i (i : Z)
| attr_f (bits : Z)
| attr_s (s : string)
| attr_t (t : Tensor)
| attr_is (xs : list Z)
| attr_ival (v : IValue).

Definition kindOf (a : AttrValue) : string :=
  match a with
  | attr_i _ => "i" | attr_f _ => "f" | attr_s _ => "s" | attr_t _ => "t"
  | attr_is _ => "is" | attr_ival _ => "ival"
  end.

Record NodeInfo := {
  nid : N;                                (* identity of the node object *)
  kind : string;
  inputs : list Value;
  outputs : list Value;
  attributes : list (string * AttrValue); (* in attributeNames() order *)
  scopeName : string;
  scalar_args : list IValue;              (* prim::PythonOp only *)
  pyobj : string                          (* prim::PythonOp only *)
}.

(** A block owns a Param node, whose outputs are the block's inputs, and
    a Return node, whose inputs are the block's outputs. *)
Inductive Node :=
| mkNode (info : NodeInfo) (blocks : list Block)
with Block :=
| mkBlock (b_param : NodeInfo) (b_nodes : list Node) (b_return : NodeInfo).

Definition info (n : Node) : NodeInfo := match n with mkNode i _ => i end.
Definition blocks (n : Node) : list Block := match n with mkNode _ bs => bs end.
Definition b_param (b : Block) : NodeInfo := match b with mkBlock p _ _ => p end.
Definition b_nodes (b : Block) : list Node := match b with mkBlock _ ns _ => ns end.
Definition b_return (b : Block) : NodeInfo := match b with mkBlock _ _ r => r end.
Definition b_inputs (b : Block) : list Value := outputs (b_param b).
Definition b_outputs (b : Block) : list Value := inputs (b_return b).

Definition outputsSize (n : Node) : nat := length (outputs (info n)).

Definition set_inputs (i : NodeInfo) (ins : list Value) : NodeInfo :=
  {| nid := nid i; kind := kind i; inputs := ins; outputs := outputs i;
     attributes := attributes i; scopeName := scopeName i;
     scalar_args := scalar_args i; pyobj := pyobj i |}.

Definition set_outputs (i : NodeInfo) (outs : list Value) : NodeInfo :=
  {| nid := nid i; kind := kind i; inputs := inputs i; outputs := outs;
     attributes := attributes i; scopeName := scopeName i;
     scalar_args := scalar_args i; pyobj := pyobj i |}.

Definition set_attributes (i : NodeInfo) (a : list (string * AttrValue)) : NodeInfo :=
  {| nid := nid i; kind := kind i; inputs := inputs i; outputs := outputs i;
     attributes := a; scopeName := scopeName i;
     scalar_args := scalar_args i; pyobj := pyobj i |}.

Definition new_node (id : N) (k : string) (ins outs : list Value)
    (a : list (string * AttrValue)) : Node :=
  mkNode {| nid := id; kind := k; inputs := ins; outputs := outs;
            attributes := a; scopeName := ""; scalar_args := []; pyobj := "" |} [].

(** A use of a value: the consuming node and the input offset. *)
Record Use := { user : N; offset : nat }.

(** The block a lowering function is asked to extend: the graph itself or
    a block of a [prim::If] node. *)
Inductive BlockRef :=
| root_block
| block_of (owner : N) (index : nat).

(** A [torch._C.Graph]: its top-level block, the explicit debug names and
    the types of its values, and the next free unique number (for values
    and for node identities). *)
Record Graph := {
  g_block : Block;
  g_names : gmap N string;
  g_types : gmap N JitType;
  g_next : N
}.

Definition with_block (g : Graph) (b : Block) : Graph :=
  {| g_block := b; g_names := g_names g; g_types := g_types g; g_next := g_next g |}.

(** The operations of torch's graph API that the exporter calls, on this
    representation of the graph. *)
Module Torch.

(** *** Uses *)

Fixpoint offsets_from (k : nat) (v : Value) (vs : list Value) : list nat :=
  match vs with
  | [] => []
  | w :: vs' =>
      (if N.eqb w v then [k] else []) ++ offsets_from (S k) v vs'
  end.

Definition uses_in (v : Value) (i : NodeInfo) : list Use :=
  map (fun k => {| user := nid i; offset := k |}) (offsets_from 0 v (inputs i)).

Fixpoint node_uses (v : Value) (n : Node) : list Use :=
  match n with
  | mkNode i bs => uses_in v i ++ flat_map (block_uses v) bs
  end
with block_uses (v : Value) (b : Block) : list Use :=
  match b with
  | mkBlock _ ns r => flat_map (node_uses v) ns ++ uses_in v r
  end.

Definition uses (g : Graph) (v : Value) : list Use := block_uses v (g_block g).

(** *** [old.replaceAllUsesWith(new)] *)

Definition subst_value (old new v : Value) : Value :=
  if N.eqb v old then new else v.

Definition rauw_info (old new : Value) (i : NodeInfo) : NodeInfo :=
  set_inputs i (map (subst_value old new) (inputs i)).

Fixpoint rauw_node (old new : Value) (n : Node) : Node :=
  match n with
  | mkNode i bs => mkNode (rauw_info old new i) (map (rauw_block old new) bs)
  end
with rauw_block (old new : Value) (b : Block) : Block :=
  match b with
  | mkBlock p ns r =>
      mkBlock p (map (rauw_node old new) ns) (rauw_info old new r)
  end.

Definition replaceAllUsesWith (old new : Value) (g : Graph) : Graph :=
  with_block g (rauw_block old new (g_block g)).

(** *** Finding nodes *)

Fixpoint find_in_node (id : N) (n : Node) : option Node :=
  match n with
  | mkNode i bs =>
      if N.eqb (nid i) id then Some n
      else (fix go (bs : list Block) : option Node :=
              match bs with
              | [] => None
              | b :: bs' =>
                  match find_in_block id b with
                  | Some m => Some m
                  | None => go bs'
                  end
              end) bs
  end
with find_in_block (id : N) (b : Block) : option Node :=
  match b with
  | mkBlock _ ns _ =>
      (fix go (ns : list Node) : option Node :=
         match ns with
         | [] => None
         | n :: ns' =>
             match find_in_node id n with
             | Some m => Some m
             | None => go ns'
             end
         end) ns
  end.

Definition find_node (g : Graph) (id : N) : option Node :=
  find_in_block id (g_block g).

(** [v.node()]: the Param node of the block that declares [v] as an
    input, or the node that has [v] among its outputs. *)
Definition has_output (v : Value) (i : NodeInfo) : bool :=
  existsb (N.eqb v) (outputs i).

Fixpoint producer_in_node (v : Value) (n : Node) : option NodeInfo :=
  match n with
  | mkNode i bs =>
      if has_output v i then Some i
      else (fix go (bs : list Block) : option NodeInfo :=
              match bs with
              | [] => None
              | b :: bs' =>
                  match producer_in_block v b with
                  | Some m => Some m
                  | None => go bs'
                  end
              end) bs
  end
with producer_in_block (v : Value) (b : Block) : option NodeInfo :=
  match b with
  | mkBlock p ns _ =>
      if has_output v p then Some p
      else (fix go (ns : list Node) : option NodeInfo :=
              match ns with
              | [] => None
              | n :: ns' =>
                  match producer_in_node v n with
                  | Some m => Some m
                  | None => go ns'
                  end
              end) ns
  end.

(** Every value of a torch graph has a producing node.  A value the
    graph does not define is attributed to the graph's Param node. *)
Definition value_node (root : Block) (v : Value) : NodeInfo :=
  match producer_in_block v root with
  | Some i => i
  | None => b_param root
  end.

(** *** Editing blocks *)

Fixpoint update_in_node (owner : N) (index : nat) (f : Block -> Block) (n : Node) : Node :=
  match n with
  | mkNode i bs =>
      if N.eqb (nid i) owner then
        mkNode i (imap (fun k b => if Nat.eqb k index then f b else b) bs)
      else mkNode i (map (update_in_block owner index f) bs)
  end
with update_in_block (owner : N) (index : nat) (f : Block -> Block) (b : Block) : Block :=
  match b with
  | mkBlock p ns r => mkBlock p (map (update_in_node owner index f) ns) r
  end.

Definition update_block (ref : BlockRef) (f : Block -> Block) (root : Block) : Block :=
  match ref with
  | root_block => f root
  | block_of owner index => update_in_block owner index f root
  end.

Definition append_to (n : Node) (b : Block) : Block :=
  match b with mkBlock p ns r => mkBlock p (ns ++ [n]) r end.

Definition prepend_to (n : Node) (b : Block) : Block :=
  match b with mkBlock p ns r => mkBlock p (n :: ns) r end.

Fixpoint remove_from_node (id : N) (n : Node) : Node :=
  match n with
  | mkNode i bs => mkNode i (map (remove_from_block id) bs)
  end
with remove_from_block (id : N) (b : Block) : Block :=
  match b with
  | mkBlock p ns r =>
      mkBlock p
        ((fix go (ns : list Node) : list Node :=
            match ns with
            | [] => []
            | n :: ns' =>
                if N.eqb (nid (info n)) id then go ns'
                else remove_from_node id n :: go ns'
            end) ns) r
  end.

(** [n.moveBefore(g.return_node())] *)
Definition move_to_end (ref : BlockRef) (id : N) (g : Graph) : Graph :=
  match find_node g id with
  | None => g
  | Some n =>
      with_block g
        (update_block ref (append_to n) (remove_from_block id (g_block g)))
  end.

Definition seqN_values (start : N) (len : nat) : list Value :=
  map N.of_nat (seq (N.to_nat start) len).

(** [g.create(kind, n_outputs)]: a detached node with fresh outputs. *)
Definition create (k : string) (ins : list Value) (a : list (string * AttrValue))
    (n_outputs : nat) (g : Graph) : Graph * Node :=
  let id := g_next g in
  let outs := seqN_values (N.succ id) n_outputs in
  ({| g_block := g_block g; g_names := g_names g; g_types := g_types g;
      g_next := (N.succ id + N.of_nat n_outputs)%N |},
   new_node id k ins outs a).

(** [g.op(kind, *inputs, outputs=n, **attrs)] of [torch.onnx]: the new
    node is appended to the block it is asked for. *)
Definition op (ref : BlockRef) (k : string) (ins : list Value)
    (a : list (string * AttrValue)) (n_outputs : nat) (g : Graph)
    : Graph * list Value :=
  let '(g1, n) := create k ins a n_outputs g in
  (with_block g1 (update_block ref (append_to n) (g_block g1)),
   outputs (info n)).

(** [g.op] with its default of one output, which it returns as a value. *)
Definition op1 (ref : BlockRef) (k : string) (ins : list Value)
    (a : list (string * AttrValue)) (g : Graph) : Graph * Value :=
  let '(g1, outs) := op ref k ins a 1 g in (g1, hd 0%N outs).

(** Changing the node that has a given identity. *)
Fixpoint update_info_node (id : N) (f : NodeInfo -> NodeInfo) (n : Node) : Node :=
  match n with
  | mkNode i bs =>
      mkNode (if N.eqb (nid i) id then f i else i)
             (map (update_info_block id f) bs)
  end
with update_info_block (id : N) (f : NodeInfo -> NodeInfo) (b : Block) : Block :=
  match b with
  | mkBlock p ns r => mkBlock p (map (update_info_node id f) ns) r
  end.

Definition update_info (id : N) (f : NodeInfo -> NodeInfo) (g : Graph) : Graph :=
  with_block g (update_info_block id f (g_block g)).

Fixpoint set_attr (name : string) (v : AttrValue) (a : list (string * AttrValue))
    : list (string * AttrValue) :=
  match a with
  | [] => [(name, v)]
  | (k, w) :: a' =>
      if String.eqb k name then (k, v) :: a' else (k, w) :: set_attr name v a'
  end.

Definition prependNode (n : Node) (g : Graph) : Graph :=
  with_block g (prepend_to n (g_block g)).

Definition graph_inputs (g : Graph) : list Value := b_inputs (g_block g).
Definition graph_outputs (g : Graph) : list Value := b_outputs (g_block g).
Definition graph_nodes (g : Graph) : list Node := b_nodes (g_block g).

(** [g.eraseInput(i)]: torch refuses an index out of range and an input
    that still has uses. *)
Definition eraseInput (i : nat) (g : Graph) : Result Graph :=
  match graph_inputs g !! i with
  | None => Raise RuntimeError
  | Some v =>
      match uses g v with
      | [] =>
          match g_block g with
          | mkBlock p ns r =>
              OK (with_block g
                    (mkBlock (set_outputs p (delete i (outputs p))) ns r))
          end
      | _ :: _ => Raise RuntimeError
      end
  end.

(** *** Debug names and types *)

Definition debugName (g : Graph) (v : Value) : string :=
  default (pretty v) (g_names g !! v).

Definition type_of (g : Graph) (v : Value) : JitType :=
  default (TensorType None None) (g_types g !! v).

End Torch.

(** ** The emitted messages *)

Record ValueInfoProto := {
  vi_name : string;
  vi_type : option TypeProto;
  vi_doc_string : string
}.

Inductive NodeProto :=
| mkNodeProto (np_name np_op_type np_doc_string : string)
              (np_attribute : list (string * AttributeValue))
              (np_input np_output : list string)
with AttributeValue :=
| av_tensor (t : TensorProto)
| av_graph (sub : GraphProto)
| av_plain (a : AttrValue)
with GraphProto :=
| mkGraphProto (gp_name : string) (gp_node : list NodeProto)
               (gp_input gp_output : list ValueInfoProto)
               (gp_initializer : list TensorProto) (gp_doc_string : string).

Definition np_name (n : NodeProto) : string :=
  match n with mkNodeProto x _ _ _ _ _ => x end.
Definition np_op_type (n : NodeProto) : string :=
  match n with mkNodeProto _ x _ _ _ _ => x end.
Definition np_doc_string (n : NodeProto) : string :=
  match n with mkNodeProto _ _ x _ _ _ => x end.
Definition np_attribute (n : NodeProto) : list (string * AttributeValue) :=
  match n with mkNodeProto _ _ _ x _ _ => x end.
Definition np_input (n : NodeProto) : list string :=
  match n with mkNodeProto _ _ _ _ x _ => x end.
Definition np_output (n : NodeProto) : list string :=
  match n with mkNodeProto _ _ _ _ _ x => x end.

Definition gp_name (gp : GraphProto) : string :=
  match gp with mkGraphProto x _ _ _ _ _ => x end.
Definition gp_node (gp : GraphProto) : list NodeProto :=
  match gp with mkGraphProto _ x _ _ _ _ => x end.
Definition gp_input (gp : GraphProto) : list ValueInfoProto :=
  match gp with mkGraphProto _ _ x _ _ _ => x end.
Definition gp_output (gp : GraphProto) : list ValueInfoProto :=
  match gp with mkGraphProto _ _ _ x _ _ => x end.
Definition gp_initializer (gp : GraphProto) : list TensorProto :=
  match gp with mkGraphProto _ _ _ _ x _ => x end.
Definition gp_doc_string (gp : GraphProto) : string :=
  match gp with mkGraphProto _ _ _ _ _ x => x end.

Record ModelProto := {
  mp_graph : GraphProto;
  mp_opset_import : list (string * Z)
}.

(** ** Python string helpers *)

Definition nl : string := String (Ascii.ascii_of_nat 10) "".

Fixpoint string_drop (k : nat) (s : string) : string :=
  match k, s with
  | S k', String _ s' => string_drop k' s'
  | _, _ => s
  end.

Fixpoint string_rev_onto (s acc : string) : string :=
  match s with
  | "" => acc
  | String c s' => string_rev_onto s' (String c acc)
  end.

Definition string_rev (s : string) : string := string_rev_onto s "".

Definition startswith (text pre : string) : bool := String.prefix pre text.

Definition endswith (text suf : string) : bool :=
  String.prefix (string_rev suf) (string_rev text).

(** [text[:-1]] *)
Definition drop_last_char (s : string) : string :=
  string_rev (string_drop 1 (string_rev s)).

(** [s.split(sep)] for a non-empty separator: [cur] is the piece being
    read, [skip] the number of separator characters still to pass. *)
Fixpoint split_go (sep : string) (skip : nat) (s cur : string) : list string :=
  match s with
  | "" => [string_rev cur]
  | String c s' =>
      match skip with
      | S k => split_go sep k s' cur
      | O =>
          if String.prefix sep s
          then string_rev cur :: split_go sep (String.length sep - 1) s' ""
          else split_go sep 0 s' (String c cur)
      end
  end.

Definition py_split (s sep : string) : list string := split_go sep 0 s "".

(** [xs[-1]] of a list of strings known to be non-empty. *)
Definition last_piece (xs : list string) : string := List.last xs "".

Definition _remove_prefix (text pre : string) : string :=
  if startswith text pre then string_drop (String.length pre) text else text.

(** ** Exporter options and state *)

Inductive OperatorExportTypes :=
| ONNX | ONNX_ATEN | ONNX_ATEN_FALLBACK | ONNX_FALLTHROUGH | RAW.

Definition OperatorExportTypes_eqb (a b : OperatorExportTypes) : bool :=
  match a, b with
  | ONNX, ONNX | ONNX_ATEN, ONNX_ATEN | ONNX_ATEN_FALLBACK, ONNX_ATEN_FALLBACK
  | ONNX_FALLTHROUGH, ONNX_FALLTHROUGH | RAW, RAW => true
  | _, _ => false
  end.

Inductive TrainingMode := EVAL | PRESERVE | TRAINING.

Record _ExporterOptions := {
  opset_version : Z;
  check_trace : bool;
  strict_trace : bool;
  force_outplace_trace : bool;
  verbose : bool;
  strip_doc_string : bool;
  torch_constant_prop : bool;
  enable_onnx_checker : bool;
  onnx_shape_inference : bool;
  onnx_strict_mode : bool;
  onnx_check_type : bool;
  onnx_data_prop : bool;
  input_names : option (list string);
  output_names : option (list string);
  do_constant_folding : bool;
  operator_export_type : OperatorExportTypes;
  training : option TrainingMode;
  dynamic_axes : list (string * list Z)
}.

Definition default_options : _ExporterOptions :=
  {| opset_version := 12; check_trace := false; strict_trace := true;
     force_outplace_trace := false; verbose := false;
     strip_doc_string := false; torch_constant_prop := true;
     enable_onnx_checker := true; onnx_shape_inference := true;
     onnx_strict_mode := false; onnx_check_type := false;
     onnx_data_prop := true; input_names := None; output_names := None;
     do_constant_folding := true; operator_export_type := ONNX;
     training := None; dynamic_axes := [] |}.

(** The fields of an [_Exporter] instance. *)
Record Exporter := {
  opts : _ExporterOptions;
  ex_inputs : list Tensor;                 (* self.inputs *)
  ex_outputs : list Tensor;                (* self.outputs *)
  original_name : string;                  (* self.traced.original_name *)
  g : Graph;
  vars : gmap string Tensor;               (* the state dict *)
  self_id : option TorchValueID;
  attrs : gmap TorchValueID ONNXValueID;
  node_doc_string : gmap N string;         (* keyed by node identity *)
  node_scope : gmap N string;
  graph_doc_string : string
}.

Definition with_g (ex : Exporter) (g' : Graph) : Exporter :=
  {| opts := opts ex; ex_inputs := ex_inputs ex; ex_outputs := ex_outputs ex;
     original_name := original_name ex; g := g'; vars := vars ex;
     self_id := self_id ex; attrs := attrs ex;
     node_doc_string := node_doc_string ex; node_scope := node_scope ex;
     graph_doc_string := graph_doc_string ex |}.

Definition with_attrs (ex : Exporter) (a : gmap TorchValueID ONNXValueID) : Exporter :=
  {| opts := opts ex; ex_inputs := ex_inputs ex; ex_outputs := ex_outputs ex;
     original_name := original_name ex; g := g ex; vars := vars ex;
     self_id := self_id ex; attrs := a;
     node_doc_string := node_doc_string ex; node_scope := node_scope ex;
     graph_doc_string := graph_doc_string ex |}.

Definition with_node_doc_string (ex : Exporter) (d : gmap N string) : Exporter :=
  {| opts := opts ex; ex_inputs := ex_inputs ex; ex_outputs := ex_outputs ex;
     original_name := original_name ex; g := g ex; vars := vars ex;
     self_id := self_id ex; attrs := attrs ex;
     node_doc_string := d; node_scope := node_scope ex;
     graph_doc_string := graph_doc_string ex |}.

Definition with_node_scope (ex : Exporter) (d : gmap N string) : Exporter :=
  {| opts := opts ex; ex_inputs := ex_inputs ex; ex_outputs := ex_outputs ex;
     original_name := original_name ex; g := g ex; vars := vars ex;
     self_id := self_id ex; attrs := attrs ex;
     node_doc_string := node_doc_string ex; node_scope := d;
     graph_doc_string := graph_doc_string ex |}.

Definition with_graph_doc_string (ex : Exporter) (s : string) : Exporter :=
  {| opts := opts ex; ex_inputs := ex_inputs ex; ex_outputs := ex_outputs ex;
     original_name := original_name ex; g := g ex; vars := vars ex;
     self_id := self_id ex; attrs := attrs ex;
     node_doc_string := node_doc_string ex; node_scope := node_scope ex;
     graph_doc_string := s |}.

(** ** Lowering functions *)

(** What a lowering function receives positionally: the node's input
    values and, for [prim::PythonOp], its scalar arguments. *)
Inductive SymArg :=
| arg_value (v : Value)
| arg_scalar (x : IValue).

(** What it returns: one value, or a list or tuple of values. *)
Inductive SymOuts :=
| sym_one (v : Value)
| sym_many (vs : list Value).

(** [sym_func(g, *node_inputs, **attrs)]: it may extend the graph. *)
Definition SymFunc : Type :=
  BlockRef -> list SymArg -> list (string * AttrValue) -> Graph ->
  Result (Graph * SymOuts).

(** The graph passes of [torch._C] that the exporter runs. *)
Inductive JitPass :=
| inline_fork_wait
| constant_propagation
| dce
| canonicalize_graph_fuser_ops
| peephole
| fuse_addmm
| lower_all_tuples
| onnx_preprocess
| prepare_division_for_onnx
| onnx_remove_print
| onnx_preprocess_caffe2
| onnx_unpack_quantized_weights
| onnx_quantization_insert_permutes
| custom_pattern_based_rewrite_graph
| erase_number_types
| onnx_set_dynamic_input_shape (axes : list (string * list Z)) (names : list string)
| dce_allow_deleting_nodes_with_side_effects.

(** The process-wide state of [torch.onnx] that [_convert] touches.
    [mangled_in_onnx_export] is the attribute the assignments to
    [to_utils.__IN_ONNX_EXPORT] inside the class body reach. *)
Record Globals := {
  in_onnx_export : bool;
  mangled_in_onnx_export : bool;
  _export_onnx_opset_version : Z;
  _operator_export_type : option OperatorExportTypes;
  _onnx_shape_inference : bool;
  _params_dict : gmap string Tensor
}.

Definition Callable := N.

(** What tracing a model gives. *)
Record Traced := {
  tr_original_name : string;
  tr_outputs : list Tensor;
  tr_inlined_graph : Graph;
  tr_graph_str : string;                   (* str(traced.graph) *)
  tr_state_dict : gmap string Tensor
}.

(** What the exporter takes from torch and Python without defining it. *)
Record TorchEnv := {
  jit_trace : Callable -> list Tensor -> _ExporterOptions -> Globals ->
              Globals * Result Traced;
  jit_pass : JitPass -> Graph -> Result Graph;
  jit_pass_lint : Graph -> Result unit;
  jit_pass_onnx_constant_fold :
    Graph -> gmap string Tensor -> Z -> Graph * list (string * IValue);
  constant_folding_opset_versions : list Z;
  select_model_mode_for_export : Callable -> option TrainingMode -> Result unit;
  supported_opset : Z -> bool;
  register_version : Z -> Result unit;
  infer_shapes : ModelProto -> bool -> bool -> bool -> Result ModelProto;
  checker_check_model : ModelProto -> Result unit;
  SerializeToString : ModelProto -> Result (list N);
  str_graph : Graph -> string;
  printable_graph : GraphProto -> string;
  str_state_dict : gmap string Tensor -> string;
  (* sym_reg.is_registered_op / get_registered_op, domain "" *)
  registered_op : string -> Z -> option SymFunc;
  (* n.pyobj(): None when it is no autograd Function, Some None when the
     Function has no [symbolic] *)
  py_function : string -> option (option SymFunc);
  (* str(node) and node.sourceRange() of the node with that identity *)
  str_node : N -> Graph -> string;
  sourceRange : N -> Graph -> string;
  repr_value : Value -> Graph -> string;
  repr_type : JitType -> string;
  cast_pytorch_to_onnx : string -> option DataType;
  (* the name torch gives the value that loses its debug name *)
  replacement_name : gmap N string -> string -> string;
  (* sym_hel._unsqueeze_helper(g, i, axes_i=[0]) *)
  unsqueeze_helper : BlockRef -> Value -> Graph -> Result (Graph * Value);
  (* torch.tensor(ival) *)
  tensor_of_ivalue : IValue -> Result Tensor;
  (* open(f, "wb") *)
  open_wb : string -> Result unit;
  (* bound on the steps of the worklist of list_added_nodes *)
  worklist_budget : nat;
  (* how many nested calls of generate_onnx_node the Python stack takes
     below the one generate_onnx makes *)
  nesting_limit : nat
}.

(** ** Symbolic lowering *)

Module Lowering.
Section WithEnv.
Variable env : TorchEnv.

Definition is_self (ex : Exporter) (v : Value) : bool :=
  match self_id ex with
  | Some s => N.eqb (_unique_id v) s
  | None => false
  end.

Definition log (title body : string) (debug : bool) (ex : Exporter) : Exporter :=
  if negb (verbose (opts ex) || debug) then ex
  else
    let s := nl +:+ "## " +:+ title +:+ nl +:+ body +:+ nl in
    if strip_doc_string (opts ex) then ex
    else with_graph_doc_string ex (graph_doc_string ex +:+ s).

Definition onnx_node_doc_string (onnx_node torch_node : N) (gr : Graph)
    (torch_scope : string) : string :=
  "## Symbolic node" +:+ nl +:+ str_node env onnx_node gr +:+ nl +:+
  "## Original node" +:+ nl +:+ str_node env torch_node gr +:+ nl +:+
  "## Scope" +:+ nl +:+ torch_scope +:+ nl +:+
  "## Source Range" +:+ nl +:+ "```" +:+ nl +:+
  sourceRange env torch_node gr +:+ nl +:+ "```" +:+ nl.

(** A node the exporter holds a reference to but the graph no longer
    contains cannot be read. *)
Definition get_node (gr : Graph) (id : N) : Result Node :=
  match Torch.find_node gr id with
  | Some n => OK n
  | None => Raise RuntimeError
  end.

(** [n.output()] and [n.input()] demand exactly one. *)
Definition the_output (n : Node) : Result Value :=
  match outputs (info n) with
  | [v] => OK v
  | _ => Raise RuntimeError
  end.

Definition the_input (n : Node) : Result Value :=
  match inputs (info n) with
  | [v] => OK v
  | _ => Raise RuntimeError
  end.

Fixpoint lookup_attr (name : string) (a : list (string * AttrValue)) : option AttrValue :=
  match a with
  | [] => None
  | (k, v) :: a' => if String.eqb k name then Some v else lookup_attr name a'
  end.

Definition hasAttribute (n : Node) (name : string) : bool :=
  match lookup_attr name (attributes (info n)) with
  | Some _ => true
  | None => false
  end.

(** The keyword arguments built from the node's attributes; reading
    [n.output()] for an ival-valued [value] needs a single output. *)
Fixpoint collect_attrs (n : Node) (a : list (string * AttrValue))
    : Result (list (string * AttrValue)) :=
  match a with
  | [] => OK []
  | (k, v) :: a' =>
      _ ← (if String.eqb k "value" && String.eqb (kindOf v) "ival"
           then the_output n else OK 0%N);
      rest ← collect_attrs n a';
      OK ((k, v) :: rest)
  end.

Definition del_inplace (a : list (string * AttrValue)) : list (string * AttrValue) :=
  List.filter (fun kv => negb (String.eqb (fst kv) "inplace")) a.

Definition list_of_outs (o : SymOuts) : list Value :=
  match o with
  | sym_one v => [v]
  | sym_many vs => vs
  end.

(** [target_vals.pop()] takes the last element. *)
Definition pop_last (l : list Value) : option (Value * list Value) :=
  match rev l with
  | [] => None
  | x :: r => Some (x, rev r)
  end.

Definition NonTermination : PyExn := OtherError "worklist budget exhausted".

Fixpoint worklist (fuel : nat) (root : Block) (start_vals : gset Value)
    (target_vals : list Value) (ret : gset N) : Result (gset N) :=
  match fuel with
  | O => Raise NonTermination
  | S fuel' =>
      match pop_last target_vals with
      | None => OK ret
      | Some (i, rest) =>
          if decide (i ∈ start_vals) then worklist fuel' root start_vals rest ret
          else
            let nd := Torch.value_node root i in
            worklist fuel' root start_vals (rest ++ inputs nd) ({[ nid nd ]} ∪ ret)
      end
  end.

Fixpoint first_pass (root : Block) (start_vals : gset Value) (outs : list Value)
    (target_vals : list Value) (ret : gset N) : list Value * gset N :=
  match outs with
  | [] => (target_vals, ret)
  | i :: outs' =>
      if decide (i ∈ start_vals) then first_pass root start_vals outs' target_vals ret
      else
        let nd := Torch.value_node root i in
        first_pass root start_vals outs' (target_vals ++ inputs nd) ({[ nid nd ]} ∪ ret)
  end.

Definition list_added_nodes (gr : Graph) (n : Node) (sym_outs : list Value)
    : Result (list N) :=
  let start_vals : gset Value := list_to_set (inputs (info n)) in
  let '(target_vals, ret) :=
    first_pass (g_block gr) start_vals sym_outs sym_outs ∅ in
  ret' ← worklist (worklist_budget env) (g_block gr) start_vals target_vals ret;
  OK (elements ret').

(** [v.setDebugName(name)] on the table of explicit names. *)
Definition holder (names : gmap N string) (name : string) : option N :=
  fst <$> List.find (fun kv => String.eqb (snd kv) name) (map_to_list names).

Definition setDebugName (v : Value) (name : string) (gr : Graph) : Graph :=
  let names1 := delete v (g_names gr) in
  let names2 :=
    if String.eqb name "" then names1
    else
      let names' :=
        match holder names1 name with
        | Some w => <[ w := replacement_name env names1 name ]> names1
        | None => names1
        end in
      <[ v := name ]> names' in
  {| g_block := g_block gr; g_names := names2; g_types := g_types gr;
     g_next := g_next gr |}.

(** [new.copyMetadata(old)]: the type and, when there is one, the
    debug name. *)
Definition copyMetadata (new old : Value) (gr : Graph) : Graph :=
  let gr1 :=
    {| g_block := g_block gr; g_names := g_names gr;
       g_types := <[ new := Torch.type_of gr old ]> (g_types gr);
       g_next := g_next gr |} in
  match g_names gr !! old with
  | Some nm => setDebugName new nm gr1
  | None => gr1
  end.

(** One turn of the loop that replaces the uses of the old outputs. *)
Definition replace_output (gr : Graph) (p : Value * Value) : Result Graph :=
  let '(old_out, new_out) := p in
  let gr1 := Torch.replaceAllUsesWith old_out new_out gr in
  _ ← py_assert (Nat.eqb (length (Torch.uses gr1 old_out)) 0) "uses";
  OK (copyMetadata new_out old_out gr1).

Definition tag_node (n_scope : string) (torch_node : N) (ex : Exporter) (sym_nd : N)
    : Result Exporter :=
  let ex1 :=
    if negb (strip_doc_string (opts ex))
    then with_node_doc_string ex
           (<[ sym_nd := onnx_node_doc_string sym_nd torch_node (g ex) n_scope ]>
              (node_doc_string ex))
    else ex in
  OK (with_node_scope ex1 (<[ sym_nd := n_scope ]> (node_scope ex1))).

(** The call [sym_func(g, *node_inputs, **attrs)] with the arguments
    [run_symbolic_function] builds for it. *)
Definition call_sym_func (ref : BlockRef) (id : N) (sym_func : SymFunc)
    (ex : Exporter) : Result (Graph * SymOuts) :=
  n ← get_node (g ex) id;
  attrs0 ← collect_attrs n (attributes (info n));
  let attrs1 := del_inplace attrs0 in
  let node_inputs :=
    map arg_value (inputs (info n)) ++
    (if String.eqb (kind (info n)) "prim::PythonOp"
     then map arg_scalar (scalar_args (info n)) else []) in
  sym_func ref node_inputs attrs1 (g ex).

(** What follows the call: the arity check, the bookkeeping of the
    added nodes and the replacement of the old outputs. *)
Definition splice_outputs (id : N) (g1 : Graph) (sym_outs : list Value)
    (ex : Exporter) : Result Exporter :=
  n1 ← get_node g1 id;
  _ ← py_assert (Nat.eqb (length sym_outs) (outputsSize n1)) "arity";
  sym_nodes ← list_added_nodes g1 n1 sym_outs;
  let ex1 := log ("Converting node " +:+ kind (info n1)) (str_node env id g1) false
                 (with_g ex g1) in
  let ex2 :=
    if Nat.ltb 0 (length sym_nodes)
    then log ("Converted node " +:+ kind (info n1))
             (String.concat nl (map (fun i => str_node env i g1) sym_nodes)) false ex1
    else ex1 in
  ex3 ← foldM (tag_node (scopeName (info n1)) id) sym_nodes ex2;
  g2 ← foldM replace_output (zip (outputs (info n1)) sym_outs) (g ex3);
  OK (with_g ex3 g2).

Definition run_symbolic_function (ref : BlockRef) (id : N) (sym_func : SymFunc)
    (ex : Exporter) : Result Exporter :=
  '(g1, outs) ← call_sym_func ref id sym_func ex;
  splice_outputs id g1 (list_of_outs outs) ex.

(** *** Special handlers *)

Definition node_of_value (gr : Graph) (v : Value) : N :=
  nid (Torch.value_node (g_block gr) v).

(** [const_if_tensor] of [g.op]: an argument that is no value becomes
    the output of a new Constant node. *)
Fixpoint const_if_tensor (ref : BlockRef) (args : list SymArg) (gr : Graph)
    : Graph * list Value :=
  match args with
  | [] => (gr, [])
  | arg_value v :: args' =>
      let '(gr1, vs) := const_if_tensor ref args' gr in (gr1, v :: vs)
  | arg_scalar x :: args' =>
      let '(gr0, c) := Torch.op1 ref "Constant" [] [("value", attr_ival x)] gr in
      let '(gr1, vs) := const_if_tensor ref args' gr0 in
      (gr1, c :: vs)
  end.

(** What [g.op] returns: the value when there is one output, else the
    tuple of the outputs. *)
Definition outs_of (vs : list Value) : SymOuts :=
  match vs with
  | [v] => sym_one v
  | _ => sym_many vs
  end.

Definition is_int_or_float (x : IValue) : bool :=
  match x with
  | IVInt _ | IVFloat _ => true
  | _ => false
  end.

(** The elements of a list constant, one Constant node each. *)
Fixpoint gen_const_elems (ref : BlockRef) (xs : list IValue) (gr : Graph)
    : Graph * list Value :=
  match xs with
  | [] => (gr, [])
  | x :: xs' =>
      let '(gr1, v) :=
        match x with
        | IVTensor t => Torch.op1 ref "Constant" [] [("value", attr_t t)] gr
        | _ => Torch.op1 ref "Constant" [] [] gr
        end in
      let '(gr2, vs) := gen_const_elems ref xs' gr1 in
      (gr2, v :: vs)
  end.

Definition addInput (v : Value) (i : NodeInfo) : NodeInfo :=
  set_inputs i (inputs i ++ [v]).

(** [c.node().t_(name, t)] and [c.node().copyAttributes(n)] *)
Definition set_tensor_attr (c : Value) (name : string) (t : Tensor) (gr : Graph) : Graph :=
  Torch.update_info (node_of_value gr c)
    (fun i => set_attributes i (Torch.set_attr name (attr_t t) (attributes i))) gr.

Definition copyAttributes (c : Value) (n : Node) (gr : Graph) : Graph :=
  Torch.update_info (node_of_value gr c)
    (fun i => set_attributes i (attributes (info n))) gr.

(** [gen_const(g, value=None)], closed over the node [n]. *)
Definition gen_const (n : Node) : SymFunc := fun ref args kwargs gr =>
  _ ← match args, kwargs with
      | [], [] | [_], [] => OK tt
      | [], [(k, _)] => if String.eqb k "value" then OK tt else Raise TypeError
      | _, _ => Raise TypeError
      end;
  let '(gr1, c) := Torch.op1 ref "Constant" [] [] gr in
  match lookup_attr "value" (attributes (info n)) with
  | None => Raise RuntimeError
  | Some (attr_ival ival) =>
      _ ← the_output n;
      let as_tensor :=
        t ← tensor_of_ivalue env ival;
        OK (set_tensor_attr c "value" t gr1, sym_one c) in
      match ival with
      | IVList [] => Raise IndexError
      | IVList (x0 :: xs) =>
          if negb (is_int_or_float x0) then
            let '(gr2, vals) := gen_const_elems ref (x0 :: xs) gr1 in
            let '(gr3, c') := Torch.op1 ref "prim::ListConstruct" [] [] gr2 in
            OK (fold_left
                  (fun gr' v => Torch.update_info (node_of_value gr' c') (addInput v) gr')
                  vals gr3,
                sym_one c')
          else as_tensor
      | _ => as_tensor
      end
  | Some _ => OK (copyAttributes c n gr1, sym_one c)
  end.

Definition handle_constant (ref : BlockRef) (id : N) (ex : Exporter) : Result Exporter :=
  n ← get_node (g ex) id;
  if negb (hasAttribute n "value") then OK ex
  else run_symbolic_function ref id (gen_const n) ex.

Definition scalar_type_name (d : TorchDType) : string :=
  match d with
  | float32 => "Float" | uint8 => "Byte" | int8 => "Char" | int16 => "Short"
  | int32 => "Int" | int64 => "Long" | bool_ => "Bool" | float64 => "Double"
  | float16 => "Half" | bfloat16 => "BFloat16"
  | complex64 => "ComplexFloat" | complex128 => "ComplexDouble"
  end.

Definition inferTypeFrom (v : Value) (t : Tensor) (gr : Graph) : Graph :=
  {| g_block := g_block gr; g_names := g_names gr;
     g_types := <[ v := TensorType (Some (scalar_type_name (t_dtype t)))
                                   (Some (t_shape t)) ]> (g_types gr);
     g_next := g_next gr |}.

(** [n.s(name)] *)
Definition attr_s_of (n : Node) (name : string) : Result string :=
  match lookup_attr name (attributes (info n)) with
  | Some (attr_s s) => OK s
  | _ => Raise RuntimeError
  end.

Definition handle_getattr (ref : BlockRef) (id : N) (ex : Exporter) : Result Exporter :=
  n ← get_node (g ex) id;
  i ← the_input n;
  var_name ←
    (if is_self ex i then attr_s_of n "name"
     else
       match attrs ex !! _unique_id i with
       | None => Raise KeyError
       | Some base => nm ← attr_s_of n "name"; OK (base +:+ "." +:+ nm)
       end);
  o ← the_output n;
  let ex1 := with_attrs ex (<[ _unique_id o := var_name ]> (attrs ex)) in
  match vars ex1 !! var_name with
  | Some t => OK (with_g ex1 (inferTypeFrom o t (g ex1)))
  | None => OK ex1
  end.

Definition no_kwargs (kwargs : list (string * AttrValue)) : Result unit :=
  match kwargs with
  | [] => OK tt
  | _ => Raise TypeError
  end.

Fixpoint gen_concat_seq (ref : BlockRef) (args : list SymArg) (gr : Graph)
    : Result (Graph * list Value) :=
  match args with
  | [] => OK (gr, [])
  | arg_scalar _ :: _ => Raise AttributeError
  | arg_value i :: args' =>
      '(gr1, v) ←
        match Torch.type_of gr i with
        | IntType => unsqueeze_helper env ref i gr
        | TensorType _ (Some []) => unsqueeze_helper env ref i gr
        | TensorType _ (Some (_ :: _)) => OK (gr, i)
        | TensorType _ None => Raise TypeError
        | _ => Raise AttributeError
        end;
      '(gr2, vs) ← gen_concat_seq ref args' gr1;
      OK (gr2, v :: vs)
  end.

Definition gen_concat : SymFunc := fun ref args kwargs gr =>
  _ ← no_kwargs kwargs;
  '(gr1, seq_) ← gen_concat_seq ref args gr;
  let '(gr2, c) := Torch.op1 ref "Concat" seq_ [("axis", attr_i 0)] gr1 in
  OK (gr2, sym_one c).

Definition gen_seq : SymFunc := fun ref args kwargs gr =>
  _ ← no_kwargs kwargs;
  match args with
  | [] =>
      let '(gr1, c) := Torch.op1 ref "SequenceEmpty" [] [] gr in
      OK (gr1, sym_one c)
  | _ =>
      let '(gr0, vs) := const_if_tensor ref args gr in
      let '(gr1, c) := Torch.op1 ref "SequenceConstruct" vs [] gr0 in
      OK (gr1, sym_one c)
  end.

Definition handle_list_construct (ref : BlockRef) (id : N) (ex : Exporter)
    : Result Exporter :=
  n ← get_node (g ex) id;
  o ← the_output n;
  elem ← match Torch.type_of (g ex) o with
         | ListType e => OK e
         | _ => Raise AttributeError
         end;
  let is_integer_output := String.eqb (type_kind elem) "IntType" in
  if Nat.ltb 0 (length (inputs (info n))) && is_integer_output
  then run_symbolic_function ref id gen_concat ex
  else run_symbolic_function ref id gen_seq ex.

Definition if_doc_str (id : N) (n : Node) (gr : Graph) : string :=
  nl +:+ "## Original node" +:+ nl +:+ str_node env id gr +:+ nl +:+
  "## Scope" +:+ nl +:+ scopeName (info n) +:+ nl +:+
  "## Source Range" +:+ nl +:+ "```" +:+ nl +:+
  sourceRange env id gr +:+ nl +:+ "```" +:+ nl.

(** [rec] is [generate_onnx_node] one call deeper. *)
Definition handle_if (rec : BlockRef -> N -> Exporter -> Result Exporter)
    (ref : BlockRef) (id : N) (ex : Exporter) : Result Exporter :=
  n ← get_node (g ex) id;
  let doc_str := if_doc_str id n (g ex) in
  ex1 ← foldM
          (fun ex' k =>
             n' ← get_node (g ex') id;
             match blocks n' !! k with
             | None => Raise RuntimeError
             | Some b =>
                 let block_nodes := map (fun m => nid (info m)) (b_nodes b) in
                 foldM (fun ex'' b_n => rec (block_of id k) b_n ex'') block_nodes ex'
             end)
          (seq 0 (length (blocks n))) ex;
  let ex2 :=
    if negb (strip_doc_string (opts ex1))
    then with_node_doc_string ex1 (<[ id := doc_str ]> (node_doc_string ex1))
    else ex1 in
  OK (with_g ex2 (Torch.move_to_end ref id (g ex2))).

(** *** Dispatch *)

Definition symbolic_function (ex : Exporter) (n : Node) : Result (option SymFunc) :=
  match py_split (kind (info n)) "::" with
  | [ns; op0] =>
      let op1 := if endswith op0 "_" then drop_last_char op0 else op0 in
      if String.eqb ns "prim" && String.eqb op1 "PythonOp" then
        match py_function env (pyobj (info n)) with
        | None => Raise (AssertionError "issubclass")
        | Some None => Raise (AssertionError "symbolic method not supported")
        | Some (Some f) => OK (Some f)
        end
      else
        let op2 := if String.eqb ns "prim" then "prim_" +:+ op1 else op1 in
        OK (registered_op env op2 (opset_version (opts ex)))
  | _ => Raise ValueError
  end.

Definition gen_aten_node (n : Node) : SymFunc := fun ref args kwargs gr =>
  _ ← no_kwargs kwargs;
  let '(gr0, ins) := const_if_tensor ref args gr in
  let '(gr1, ret) := Torch.op ref "ATen" ins [] (length (outputs (info n))) gr0 in
  v ← (if Nat.eqb (outputsSize n) 1
       then match ret with [v] => OK v | _ => Raise RuntimeError end
       else match rev ret with v :: _ => OK v | [] => Raise IndexError end);
  let gr2 := copyAttributes v n gr1 in
  let gr3 := Torch.update_info (node_of_value gr2 v)
               (fun i => set_attributes i
                  (Torch.set_attr "operator"
                     (attr_s (last_piece (py_split (kind (info n)) "::")))
                     (attributes i))) gr2 in
  OK (gr3, outs_of ret).

Definition not_found_message (k : string) : string :=
  "Symbolic function for " +:+ k +:+ " not found".

(** [depth] bounds the nesting of calls, as Python's recursion limit. *)
Fixpoint generate_onnx_node (depth : nat) (ref : BlockRef) (id : N) (ex : Exporter)
    : Result Exporter :=
  match depth with
  | O => Raise RecursionError
  | S depth' =>
      n ← get_node (g ex) id;
      let node_kind := kind (info n) in
      if String.eqb node_kind "prim::Constant" then handle_constant ref id ex
      else if String.eqb node_kind "prim::GetAttr" then handle_getattr ref id ex
      else if String.eqb node_kind "prim::ListConstruct"
      then handle_list_construct ref id ex
      else if String.eqb node_kind "prim::If"
      then handle_if (generate_onnx_node depth') ref id ex
      else
        f ← symbolic_function ex n;
        let t := operator_export_type (opts ex) in
        let f' :=
          if OperatorExportTypes_eqb t ONNX_ATEN
             || OperatorExportTypes_eqb t ONNX_FALLTHROUGH
             || (OperatorExportTypes_eqb t ONNX_ATEN_FALLBACK
                 && match f with None => true | Some _ => false end)
          then Some (gen_aten_node n) else f in
        match f' with
        | None => Raise (AssertionError (not_found_message node_kind))
        | Some sym => run_symbolic_function ref id sym ex
        end
  end.

End WithEnv.
End Lowering.

(** ** Emission of the proto nodes *)

Module Emission.
Section WithEnv.
Variable env : TorchEnv.
(** The exporter after lowering; emission only reads it. *)
Variable ex : Exporter.

Definition value_name (v : Value) : ONNXValueID :=
  match attrs ex !! _unique_id v with
  | Some a => a
  | None =>
      let n := Torch.value_node (g_block (g ex)) v in
      let scope0 := default (scopeName n) (node_scope ex !! nid n) in
      let scope1 := _remove_prefix (last_piece (py_split scope0 "/")) "__module." in
      let scope2 := if Nat.ltb 0 (String.length scope1) then scope1 +:+ "." else scope1 in
      scope2 +:+ Torch.debugName (g ex) v
  end.

(** The two dictionaries [generate_proto_nodes] and its recursive calls
    share; [onnx_vars] keeps its insertion order. *)
Record Tables := {
  onnx_vars : list (TorchValueID * TensorProto);
  val_tab : gmap TorchValueID ONNXValueID
}.

Definition in_vars (id : TorchValueID) (vs : list (TorchValueID * TensorProto)) : bool :=
  existsb (fun kv => N.eqb (fst kv) id) vs.

Definition set_tab (t : Tables) (tab : gmap TorchValueID ONNXValueID) : Tables :=
  {| onnx_vars := onnx_vars t; val_tab := tab |}.

Definition name_if_absent (v : Value) (t : Tables) : Tables :=
  let k := value_name v in
  match val_tab t !! _unique_id v with
  | Some _ => t
  | None => set_tab t (<[ _unique_id v := k ]> (val_tab t))
  end.

(** The loop over [n.inputs()] that fills the constant pool and the
    name table. *)
Definition name_input (t : Tables) (i : Value) : Result Tables :=
  if Lowering.is_self ex i then OK t
  else
    t1 ← match attrs ex !! _unique_id i with
         | Some k =>
             if in_vars (_unique_id i) (onnx_vars t) then OK t
             else
               match vars ex !! k with
               | None => Raise KeyError
               | Some tens =>
                   OK {| onnx_vars :=
                           onnx_vars t ++ [(_unique_id i, _tensor_to_proto tens (Some k))];
                         val_tab := val_tab t |}
               end
         | None => OK t
         end;
    OK (name_if_absent i t1).

Definition name_output (t : Tables) (o : Value) : Result Tables :=
  OK (name_if_absent o t).

(** One turn of the loop of [assign_onnx_values]. *)
Definition assign_onnx_value (acc : list string * gmap TorchValueID ONNXValueID)
    (v : Value) : Result (list string * gmap TorchValueID ONNXValueID) :=
  let '(onnx_values, tab) := acc in
  let k := default (value_name v) (tab !! _unique_id v) in
  _ ← match tab !! _unique_id v with
      | Some k' => py_assert (String.eqb k' k) "val_tab"
      | None => OK tt
      end;
  OK (onnx_values ++ [k], <[ _unique_id v := k ]> tab).

Definition assign_onnx_values (torch_values : list Value)
    (tab : gmap TorchValueID ONNXValueID)
    : Result (list string * gmap TorchValueID ONNXValueID) :=
  foldM assign_onnx_value torch_values ([], tab).

Definition node_name (n : NodeInfo) (node_name_counter : nat) : string :=
  last_piece (py_split (kind n) "::") +:+ "_" +:+ pretty node_name_counter.

Definition branch_value (tab : gmap TorchValueID ONNXValueID) (i : Value)
    : Result ValueInfoProto :=
  match tab !! _unique_id i with
  | None => Raise KeyError
  | Some nm =>
      OK {| vi_name := nm; vi_type := None;
            vi_doc_string :=
              if negb (strip_doc_string (opts ex)) then repr_value env i (g ex) else "" |}
  end.

Fixpoint mapM {A B} (f : A -> Result B) (xs : list A) : Result (list B) :=
  match xs with
  | [] => OK []
  | x :: xs' => y ← f x; ys ← mapM f xs'; OK (y :: ys)
  end.

Definition proto_attribute (kv : string * AttrValue) : string * AttributeValue :=
  match snd kv with
  | attr_t t => (fst kv, av_tensor (_tensor_to_proto t None))
  | a => (fst kv, av_plain a)
  end.

Definition is_dead_constant (n : NodeInfo) : Result bool :=
  if String.eqb (kind n) "onnx::Constant" then
    match outputs n with
    | [o] => OK (Nat.eqb (length (Torch.uses (g ex) o)) 0)
    | _ => Raise RuntimeError
    end
  else OK false.

(** The state of one call of [generate_proto_nodes]: its own counter
    and node list, and the shared tables. *)
Record EmitState := {
  node_name_counter : nat;
  onnx_nodes : list NodeProto;
  tables : Tables
}.

Definition if_doc_string (n : NodeInfo) : string :=
  match node_doc_string ex !! nid n with
  | Some d => "## Symbolic node" +:+ nl +:+ str_node env (nid n) (g ex) +:+ nl +:+ d
  | None => ""
  end.

(** [emit_node] is the body of the loop over [g.nodes()], [emit_block]
    the loop itself for a block's nodes, and the inner [branches] the
    loop over [zip(["then_branch", "else_branch"], blocks)] with
    [block2subgraph] as its body. *)
Fixpoint emit_node (n : Node) (st : EmitState) {struct n} : Result EmitState :=
  match n with
  | mkNode i bs =>
      if String.eqb (kind i) "prim::GetAttr" then OK st
      else
        dead ← is_dead_constant i;
        if (dead : bool) then OK st
        else
          t1 ← foldM name_input (inputs i) (tables st);
          t2 ← foldM name_output (outputs i) t1;
          let counter := S (node_name_counter st) in
          let name := node_name i counter in
          let op_type := last_piece (py_split (kind i) "::") in
          '(doc, attribute, t3) ←
            (if String.eqb (kind i) "prim::If" then
               let doc := if_doc_string i in
               _ ← py_assert (Nat.eqb (length bs) 2) "blocks";
               '(attribute, t') ←
                 (fix branches (names : list string) (bs : list Block) (t : Tables)
                      {struct bs}
                      : Result (list (string * AttributeValue) * Tables) :=
                    match names, bs with
                    | attr_name :: names', block :: bs' =>
                        '(branch_nodes, tb) ← emit_block block t;
                        branch_inputs ← mapM (branch_value (val_tab tb)) (b_inputs block);
                        branch_outputs ← mapM (branch_value (val_tab tb)) (b_outputs block);
                        let sub_g :=
                          mkGraphProto (name +:+ "_" +:+ attr_name) branch_nodes
                                       branch_inputs branch_outputs [] doc in
                        '(rest, t'') ← branches names' bs' tb;
                        OK ((attr_name, av_graph sub_g) :: rest, t'')
                    | _, _ => OK ([], t)
                    end) ["then_branch"; "else_branch"] bs t2;
               OK (doc, attribute, t')
             else
               _ ← py_assert (Nat.eqb (length bs) 0) "Node with block needs to be handled separately";
               OK (default "" (node_doc_string ex !! nid i),
                   map proto_attribute (attributes i), t2));
          '(input, tab4) ← assign_onnx_values (inputs i) (val_tab t3);
          '(output, tab5) ← assign_onnx_values (outputs i) tab4;
          OK {| node_name_counter := counter;
                onnx_nodes :=
                  onnx_nodes st ++ [mkNodeProto name op_type doc attribute input output];
                tables := set_tab t3 tab5 |}
  end
with emit_block (b : Block) (t : Tables) {struct b} : Result (list NodeProto * Tables) :=
  match b with
  | mkBlock _ ns _ =>
      st ← (fix loop (ns : list Node) (st : EmitState) {struct ns} : Result EmitState :=
              match ns with
              | [] => OK st
              | n :: ns' => st' ← emit_node n st; loop ns' st'
              end) ns {| node_name_counter := 0; onnx_nodes := []; tables := t |};
      OK (onnx_nodes st, tables st)
  end.

(** *** The name overrides of the root graph *)

Fixpoint override_inputs (names : list string) (ins : list Value) (idx self_count : nat)
    (tab : gmap TorchValueID ONNXValueID)
    : Result (nat * gmap TorchValueID ONNXValueID) :=
  match ins with
  | [] => OK (self_count, tab)
  | v :: ins' =>
      if Lowering.is_self ex v
      then override_inputs names ins' (S idx) (S self_count) tab
      else
        match names !! (idx - self_count) with
        | None => Raise IndexError
        | Some nm =>
            override_inputs names ins' (S idx) self_count (<[ _unique_id v := nm ]> tab)
        end
  end.

Fixpoint override_outputs (names : list string) (outs : list Value) (idx : nat)
    (tab : gmap TorchValueID ONNXValueID) : gmap TorchValueID ONNXValueID :=
  match outs with
  | [] => tab
  | v :: outs' =>
      if Nat.leb (length names) idx then tab
      else
        match names !! idx with
        | Some nm => override_outputs names outs' (S idx) (<[ _unique_id v := nm ]> tab)
        | None => tab
        end
  end.

Definition output_names_warning : string :=
  "Specified output_names count and graph outputs count differ".

Definition apply_input_names (names : list string) (b : Block)
    (tab : gmap TorchValueID ONNXValueID) : Result (gmap TorchValueID ONNXValueID) :=
  '(self_count, tab') ← override_inputs names (b_inputs b) 0 0 tab;
  _ ← py_assert (Nat.eqb (length (b_inputs b) - self_count) (length names))
        "input_names";
  OK tab'.

(** The second component lists the warnings issued. *)
Definition apply_output_names (names : list string) (b : Block)
    (tab : gmap TorchValueID ONNXValueID)
    : gmap TorchValueID ONNXValueID * list string :=
  let warned :=
    if negb (Nat.eqb (length names) (length (b_outputs b)))
    then [output_names_warning] else [] in
  (override_outputs names (b_outputs b) 0 tab, warned).

(** The part of [generate_proto_nodes] that runs only in the root
    graph. *)
Definition apply_name_overrides (b : Block) (tab : gmap TorchValueID ONNXValueID)
    : Result (gmap TorchValueID ONNXValueID * list string) :=
  tab1 ← match input_names (opts ex) with
         | Some names => apply_input_names names b tab
         | None => OK tab
         end;
  match output_names (opts ex) with
  | Some names => OK (apply_output_names names b tab1)
  | None => OK (tab1, [])
  end.

(** [generate_proto_nodes(g, onnx_vars, val_tab)]; [is_root] is the
    test [self.g == g]. *)
Definition generate_proto_nodes (is_root : bool) (b : Block) (t : Tables)
    : Result (list NodeProto * Tables * list string) :=
  '(tab, warned) ←
    (if is_root then apply_name_overrides b (val_tab t) else OK (val_tab t, []));
  '(nodes, t') ← emit_block b (set_tab t tab);
  OK (nodes, t', warned).

End WithEnv.
End Emission.

(** ** The exporter: tracing, optimizing, building the model, writing it *)

(** Where [export] writes: a path or an open stream. *)
Inductive OutputFile :=
| to_path (f : string)
| to_stream (id : N).

(** The state outside the exporter: torch's globals and what has been
    written. *)
Record World := {
  globals : Globals;
  files : gmap string (list N);
  streams : gmap N (list N)
}.

Module Convert.
Section WithEnv.
Variable env : TorchEnv.

Definition run_jit_pass (p : JitPass) (gr : Graph) : Result Graph :=
  gr' ← jit_pass env p gr;
  _ ← jit_pass_lint env gr';
  OK gr'.

(** [self.input_names.copy()] *)
Definition copy_names (names : option (list string)) : Result (option (list string)) :=
  match names with
  | None => Raise AttributeError
  | Some l => OK (Some l)
  end.

Definition is_self_id (self_id : option TorchValueID) (v : Value) : bool :=
  match self_id with
  | Some s => N.eqb (_unique_id v) s
  | None => false
  end.

Fixpoint rename_inputs (self_id : option TorchValueID) (ins : list Value)
    (names : list string) (idx self_count : nat) (gr : Graph) : Result (nat * Graph) :=
  match names with
  | [] => OK (self_count, gr)
  | n :: names' =>
      match ins !! (idx + self_count) with
      | None => Raise IndexError
      | Some v =>
          if is_self_id self_id v
          then rename_inputs self_id ins names' (S idx) (S self_count) gr
          else rename_inputs self_id ins names' (S idx) self_count
                 (Lowering.setDebugName env v n gr)
      end
  end.

(** Lines 261 to 275 of [optimize]: the renaming of the graph inputs. *)
Definition rename_graph_inputs (o : _ExporterOptions) (self_id : option TorchValueID)
    (graph : Graph) : Result Graph :=
  input_names ← copy_names (input_names o);
  '(input_names', graph1) ←
    match input_names with
    | Some names =>
        _ ← py_assert
              (Nat.eqb (length (Torch.graph_inputs graph))
                       (length names + match self_id with None => 0 | Some _ => 1 end))
              "input_names";
        let ins := Torch.graph_inputs graph in
        '(self_count, graph') ← rename_inputs self_id ins names 0 0 graph;
        if Nat.ltb 0 self_count then
          match ins with
          | v0 :: _ => OK (Some (Torch.debugName graph' v0 :: names), graph')
          | [] => Raise IndexError
          end
        else OK (Some names, graph')
    | None => OK (None, graph)
    end;
  jit_pass env
    (onnx_set_dynamic_input_shape (dynamic_axes o) (default [] input_names')) graph1.

(** Lines 203 to 259 of [optimize]: the passes before the renaming. *)
Definition optimize_passes (o : _ExporterOptions) (graph : Graph) : Result Graph :=
  g1 ← run_jit_pass inline_fork_wait graph;
  g2 ← (if torch_constant_prop o then run_jit_pass constant_propagation g1 else OK g1);
  g3 ← run_jit_pass dce g2;
  g4 ← run_jit_pass canonicalize_graph_fuser_ops g3;
  g5 ← jit_pass env peephole g4;
  g6 ← run_jit_pass fuse_addmm g5;
  g7 ← jit_pass env peephole g6;
  g8 ← jit_pass env lower_all_tuples g7;
  g9 ← jit_pass env onnx_preprocess g8;
  _ ← jit_pass_lint env g9;
  g10 ← jit_pass env prepare_division_for_onnx g9;
  g11 ← jit_pass env onnx_remove_print g10;
  g12 ← jit_pass env onnx_preprocess_caffe2 g11;
  g13 ← (if OperatorExportTypes_eqb (operator_export_type o) ONNX_ATEN_FALLBACK then
           a ← jit_pass env onnx_unpack_quantized_weights g12;
           b ← jit_pass env onnx_quantization_insert_permutes a;
           jit_pass env custom_pattern_based_rewrite_graph b
         else OK g12);
  jit_pass env erase_number_types g13.

Definition optimize (o : _ExporterOptions) (self_id : option TorchValueID)
    (graph : Graph) : Result Graph :=
  g14 ← optimize_passes o graph;
  rename_graph_inputs o self_id g14.

Definition model_doc_string (name : string) : string :=
  nl +:+ "# Model: " +:+ name +:+ nl.

Definition set_params_dict (gl : Globals) (d : gmap string Tensor) : Globals :=
  {| in_onnx_export := in_onnx_export gl;
     mangled_in_onnx_export := mangled_in_onnx_export gl;
     _export_onnx_opset_version := _export_onnx_opset_version gl;
     _operator_export_type := _operator_export_type gl;
     _onnx_shape_inference := _onnx_shape_inference gl;
     _params_dict := d |}.

(** [self.self_id]: the first graph input when it is the module. *)
Definition self_id_of (gr : Graph) : Result (option TorchValueID) :=
  match Torch.graph_inputs gr with
  | [] => Raise IndexError
  | first_arg :: _ =>
      OK (if String.eqb (type_kind (Torch.type_of gr first_arg)) "ClassType"
          then Some (_unique_id first_arg) else None)
  end.

Definition _run_trace (o : _ExporterOptions) (model : Callable) (inputs_ : list Tensor)
    (gl : Globals) : Globals * Result Exporter :=
  let '(gl1, tr) := jit_trace env model inputs_ o gl in
  match tr with
  | Raise e => (gl1, Raise e)
  | OK traced =>
      let gr := tr_inlined_graph traced in
      match self_id_of gr with
      | Raise e => (gl1, Raise e)
      | OK sid =>
          let ex0 :=
            {| opts := o; ex_inputs := inputs_; ex_outputs := tr_outputs traced;
               original_name := tr_original_name traced; g := gr;
               vars := tr_state_dict traced; self_id := sid; attrs := ∅;
               node_doc_string := ∅; node_scope := ∅;
               graph_doc_string := model_doc_string (tr_original_name traced) |} in
          let ex1 := Lowering.log "Inlined graph" (str_graph env gr) false ex0 in
          let gl2 := set_params_dict gl1 (vars ex1) in
          (gl2,
           gr' ← optimize o sid gr;
           let ex2 := Lowering.log "Optimized graph" (str_graph env gr') false
                        (with_g ex1 gr') in
           let ex3 := Lowering.log "Original traced graph" (tr_graph_str traced) false ex2 in
           OK (Lowering.log "State dict" (str_state_dict env (vars ex3)) false ex3))
      end
  end.

(** *** [generate_onnx] *)

Definition input_table_of (gr : Graph) : gmap string Value :=
  fold_left (fun m i => <[ Torch.debugName gr i := i ]> m) (Torch.graph_inputs gr) ∅.

(** One turn of the loop over [folded.items()]. *)
Definition fold_constant (acc : Exporter * gmap string Value) (kt : string * IValue)
    : Result (Exporter * gmap string Value) :=
  let '(ex, input_table) := acc in
  let '(k, t) := kt in
  let '(g1, cn) := Torch.create "onnx::Constant" [] [] 1 (g ex) in
  c ← Lowering.the_output cn;
  tens ← match t with
         | IVTensor x => OK x
         | _ => Raise (AssertionError "isinstance")
         end;
  let cn' := mkNode (set_attributes (info cn) [("value", attr_t tens)]) (blocks cn) in
  let g2 := Torch.prependNode cn' g1 in
  v ← match input_table !! k with
      | Some v => OK v
      | None => Raise KeyError
      end;
  let ex1 :=
    with_node_doc_string ex
      (<[ nid (info cn) := "Constant folded node: " +:+ repr_value env v g2 ]>
         (node_doc_string ex)) in
  let g3 := Torch.replaceAllUsesWith v c g2 in
  let g4 := Lowering.copyMetadata env c v g3 in
  OK (with_g ex1 g4, delete k input_table).

(** The constant-folding step of [generate_onnx], up to the pruning of
    the graph inputs. *)
Definition fold_inputs (folded : list (string * IValue)) (ex : Exporter)
    : Result Exporter :=
  '(ex1, input_table) ← foldM fold_constant folded (ex, input_table_of (g ex));
  g' ← foldM (fun gr _ => Torch.eraseInput (size input_table) gr)
             (seq 0 (length (Torch.graph_inputs (g ex1)) - size input_table))
             (g ex1);
  OK (with_g ex1 g').

Definition constant_folding (ex : Exporter) : Result Exporter :=
  if do_constant_folding (opts ex)
     && existsb (Z.eqb (opset_version (opts ex))) (constant_folding_opset_versions env)
  then
    let '(g1, folded) :=
      jit_pass_onnx_constant_fold env (g ex) (vars ex) (opset_version (opts ex)) in
    ex1 ← fold_inputs folded (with_g ex g1);
    g2 ← jit_pass env dce_allow_deleting_nodes_with_side_effects (g ex1);
    OK (with_g ex1 g2)
  else OK ex.

Definition onnx_value (ex : Exporter) (v : Value) (name : ONNXValueID)
    : Result ValueInfoProto :=
  ty ← TypeProjector._type_to_proto (repr_type env) (cast_pytorch_to_onnx env)
         (Torch.type_of (g ex) v);
  OK {| vi_name := name; vi_type := Some ty;
        vi_doc_string :=
          if strip_doc_string (opts ex) then "" else repr_value env v (g ex) |}.

Definition _apply_tensor_info_to_value_info (v : ValueInfoProto) (t : Tensor)
    : Result ValueInfoProto :=
  match torch_dtype_to_onnx_data_type (t_dtype t) with
  | None => Raise KeyError
  | Some et =>
      let den := match vi_type v with Some p => tp_denotation p | None => "" end in
      OK {| vi_name := vi_name v;
            vi_type :=
              Some (mkTypeProto den
                      (tensor_type et
                         (Some (map (fun i => {| dim_value := i |}) (t_shape t)))));
            vi_doc_string := vi_doc_string v |}
  end.

Fixpoint onnx_inputs_of (ex : Exporter) (tab : gmap TorchValueID ONNXValueID)
    (ins : list Value) (idx self_count : nat) : Result (list ValueInfoProto) :=
  match ins with
  | [] => OK []
  | v :: ins' =>
      if Lowering.is_self ex v then onnx_inputs_of ex tab ins' (S idx) (S self_count)
      else
        _ ← py_assert (Nat.ltb 0 (length (Torch.uses (g ex) v))) "uses";
        k ← match tab !! _unique_id v with Some k => OK k | None => Raise KeyError end;
        vi ← onnx_value ex v k;
        t ← match ex_inputs ex !! (idx - self_count) with
            | Some t => OK t
            | None => Raise IndexError
            end;
        vi' ← _apply_tensor_info_to_value_info vi t;
        rest ← onnx_inputs_of ex tab ins' (S idx) self_count;
        OK (vi' :: rest)
  end.

Fixpoint onnx_outputs_of (ex : Exporter) (tab : gmap TorchValueID ONNXValueID)
    (outs : list Value) (idx : nat) : Result (list ValueInfoProto) :=
  match outs with
  | [] => OK []
  | v :: outs' =>
      k ← match tab !! _unique_id v with Some k => OK k | None => Raise KeyError end;
      vi ← onnx_value ex v k;
      t ← match ex_outputs ex !! idx with
          | Some t => OK t
          | None => Raise IndexError
          end;
      vi' ← _apply_tensor_info_to_value_info vi t;
      rest ← onnx_outputs_of ex tab outs' (S idx);
      OK (vi' :: rest)
  end.

Definition check_model (o : _ExporterOptions) (model : ModelProto) : Result ModelProto :=
  model1 ← (if onnx_shape_inference o
            then infer_shapes env model (onnx_check_type o) (onnx_strict_mode o)
                   (onnx_data_prop o)
            else OK model);
  _ ← (if enable_onnx_checker o then checker_check_model env model1 else OK tt);
  OK model1.

(** The lowering loop of [generate_onnx] over the snapshot of the
    graph's nodes. *)
Definition lower_nodes (target_nodes : list N) (ex : Exporter) : Result Exporter :=
  foldM (fun ex' n =>
           Lowering.generate_onnx_node env (S (nesting_limit env)) root_block n ex')
        target_nodes ex.

(** The result carries the exporter, the model and the warnings. *)
Definition generate_onnx (ex : Exporter) : Result (Exporter * ModelProto * list string) :=
  let target_nodes := map (fun n => nid (info n)) (Torch.graph_nodes (g ex)) in
  ex1 ← lower_nodes target_nodes ex;
  g1 ← run_jit_pass dce_allow_deleting_nodes_with_side_effects (g ex1);
  ex2 ← constant_folding (with_g ex1 g1);
  let ex3 := Lowering.log "ONNX graph" (str_graph env (g ex2)) false ex2 in
  '(onnx_nodes, tables, warned) ←
    Emission.generate_proto_nodes env ex3 true (g_block (g ex3))
      {| Emission.onnx_vars := []; Emission.val_tab := ∅ |};
  let val_tab := Emission.val_tab tables in
  onnx_inputs ← onnx_inputs_of ex3 val_tab (Torch.graph_inputs (g ex3)) 0 0;
  onnx_outputs ← onnx_outputs_of ex3 val_tab (Torch.graph_outputs (g ex3)) 0;
  let graph :=
    mkGraphProto (original_name ex3) onnx_nodes onnx_inputs onnx_outputs
      (map snd (Emission.onnx_vars tables))
      (if strip_doc_string (opts ex3) then "" else graph_doc_string ex3) in
  let ex4 := Lowering.log "ONNX printable graph" (printable_graph env graph) false ex3 in
  let model :=
    {| mp_graph := graph; mp_opset_import := [("", opset_version (opts ex4))] |} in
  model' ← check_model (opts ex4) model;
  OK (ex4, model', warned).

(** *** [_convert]: the export-mode flags around the conversion *)

(** The three locals of [_convert]; [None] is Python's [None], for a
    flag not saved yet (or, for the export type, a saved [None]). *)
Record Saved := {
  prev_opset_version : option Z;
  prev_export_type : option OperatorExportTypes;
  prev_shape_inference : option bool
}.

Definition set_mangled_flag (b : bool) (gl : Globals) : Globals :=
  {| in_onnx_export := in_onnx_export gl;
     mangled_in_onnx_export := b;
     _export_onnx_opset_version := _export_onnx_opset_version gl;
     _operator_export_type := _operator_export_type gl;
     _onnx_shape_inference := _onnx_shape_inference gl;
     _params_dict := _params_dict gl |}.

(** torch's setter refuses an opset version it does not support and
    then leaves the flag as it is. *)
Definition _set_opset_version (v : Z) (gl : Globals) : Result Globals :=
  if supported_opset env v then
    OK {| in_onnx_export := in_onnx_export gl;
          mangled_in_onnx_export := mangled_in_onnx_export gl;
          _export_onnx_opset_version := v;
          _operator_export_type := _operator_export_type gl;
          _onnx_shape_inference := _onnx_shape_inference gl;
          _params_dict := _params_dict gl |}
  else Raise ValueError.

Definition _set_operator_export_type (t : option OperatorExportTypes) (gl : Globals)
    : Globals :=
  {| in_onnx_export := in_onnx_export gl;
     mangled_in_onnx_export := mangled_in_onnx_export gl;
     _export_onnx_opset_version := _export_onnx_opset_version gl;
     _operator_export_type := t;
     _onnx_shape_inference := _onnx_shape_inference gl;
     _params_dict := _params_dict gl |}.

Definition _set_onnx_shape_inference (b : bool) (gl : Globals) : Globals :=
  {| in_onnx_export := in_onnx_export gl;
     mangled_in_onnx_export := mangled_in_onnx_export gl;
     _export_onnx_opset_version := _export_onnx_opset_version gl;
     _operator_export_type := _operator_export_type gl;
     _onnx_shape_inference := b;
     _params_dict := _params_dict gl |}.

Definition Converted : Type := Exporter * ModelProto * list string.

(** The [try] block: the locals and globals it leaves, and its outcome. *)
Definition try_block (o : _ExporterOptions) (model : Callable) (inputs_ : list Tensor)
    (gl : Globals) : Saved * Globals * Result Converted :=
  let s0 := {| prev_opset_version := None; prev_export_type := None;
               prev_shape_inference := None |} in
  if in_onnx_export gl then (s0, gl, Raise (AssertionError "is_in_onnx_export"))
  else
    match select_model_mode_for_export env model (training o) with
    | Raise e => (s0, gl, Raise e)
    | OK _ =>
        let gl1 := set_mangled_flag true gl in
        let s1 := {| prev_opset_version := Some (_export_onnx_opset_version gl1);
                     prev_export_type := None; prev_shape_inference := None |} in
        match _set_opset_version (opset_version o) gl1 with
        | Raise e => (s1, gl1, Raise e)
        | OK gl2 =>
            let s2 := {| prev_opset_version := prev_opset_version s1;
                         prev_export_type := _operator_export_type gl2;
                         prev_shape_inference := None |} in
            let gl3 := _set_operator_export_type (Some (operator_export_type o)) gl2 in
            let s3 := {| prev_opset_version := prev_opset_version s2;
                         prev_export_type := prev_export_type s2;
                         prev_shape_inference := Some (_onnx_shape_inference gl3) |} in
            let gl4 := _set_onnx_shape_inference false gl3 in
            let '(gl5, r) := _run_trace o model inputs_ gl4 in
            (s3, gl5, ex ← r; generate_onnx ex)
        end
    end.

(** The [finally] block; an exception of its own leaves the later
    restores undone. *)
Definition finally_block (s : Saved) (gl : Globals) : Globals * Result unit :=
  let gl1 := set_mangled_flag false gl in
  match (match prev_opset_version s with
         | Some v => _set_opset_version v gl1
         | None => OK gl1
         end) with
  | Raise e => (gl1, Raise e)
  | OK gl2 =>
      let gl3 :=
        match prev_shape_inference s with
        | Some _ => _set_operator_export_type (prev_export_type s) gl2
        | None => gl2
        end in
      let gl4 :=
        match prev_shape_inference s with
        | Some b => _set_onnx_shape_inference b gl3
        | None => gl3
        end in
      (gl4, OK tt)
  end.

Definition _convert (o : _ExporterOptions) (model : Callable) (inputs_ : list Tensor)
    (gl : Globals) : Globals * Result Converted :=
  let '(s, gl1, r) := try_block o model inputs_ gl in
  let '(gl2, fin) := finally_block s gl1 in
  (gl2, match fin with Raise e => Raise e | OK _ => r end).

Definition set_globals (w : World) (gl : Globals) : World :=
  {| globals := gl; files := files w; streams := streams w |}.

(** [_Exporter.__init__] *)
Definition _Exporter_init (o : _ExporterOptions) (model : Callable)
    (inputs_ : list Tensor) (w : World) : World * Result Converted :=
  match register_version env (opset_version o) with
  | Raise e => (w, Raise e)
  | OK _ =>
      let '(gl, r) := _convert o model inputs_ (globals w) in
      (set_globals w gl, r)
  end.

(** [generate(f)]: opening a path for writing empties the file before
    the model is serialized. *)
Definition generate (model : ModelProto) (f : OutputFile) (w : World)
    : World * Result unit :=
  match f with
  | to_path p =>
      match open_wb env p with
      | Raise e => (w, Raise e)
      | OK _ =>
          let w1 := {| globals := globals w; files := <[ p := [] ]> (files w);
                       streams := streams w |} in
          match SerializeToString env model with
          | Raise e => (w1, Raise e)
          | OK bytes =>
              ({| globals := globals w; files := <[ p := bytes ]> (files w);
                  streams := streams w |}, OK tt)
          end
      end
  | to_stream id =>
      match SerializeToString env model with
      | Raise e => (w, Raise e)
      | OK bytes =>
          ({| globals := globals w; files := files w;
              streams := <[ id := default [] (streams w !! id) ++ bytes ]> (streams w) |},
           OK tt)
      end
  end.

Definition export (model : Callable) (args : list Tensor) (f : OutputFile)
    (kwargs : _ExporterOptions) (w : World) : World * Result (list Tensor) :=
  let '(w1, r) := _Exporter_init kwargs model args w in
  match r with
  | Raise e => (w1, Raise e)
  | OK (ex, model_, _) =>
      let '(w2, r2) := generate model_ f w1 in
      (w2, _ ← r2; OK (ex_outputs ex))
  end.

End WithEnv.
End Convert.

(** ** Sample inputs

    A small registry of lowering functions, a dead-code elimination to
    stand for torch's, and an environment built from them; the examples
    and witnesses below run the exporter on these. *)

Module Sample.

Definition relu_symbolic : SymFunc := fun ref args kwargs gr =>
  match args with
  | [arg_value x] =>
      let '(g1, out) := Torch.op1 ref "onnx::Relu" [x] [] gr in OK (g1, sym_one out)
  | _ => Raise TypeError
  end.

Definition add_symbolic : SymFunc := fun ref args kwargs gr =>
  match args with
  | [arg_value x; arg_value y] =>
      let '(g1, out) := Torch.op1 ref "onnx::Add" [x; y] [] gr in OK (g1, sym_one out)
  | _ => Raise TypeError
  end.

(** A lowering function that returns two values whatever the node. *)
Definition two_outputs_symbolic : SymFunc := fun ref args kwargs gr =>
  let '(g1, outs) := Torch.op ref "onnx::Split" [] [] 2 gr in
  OK (g1, sym_many outs).

Definition sample_registry (op : string) (opset : Z) : option SymFunc :=
  if String.eqb op "relu" then Some relu_symbolic
  else if String.eqb op "add" then Some add_symbolic
  else None.

(** Dead-code elimination: a node none of whose outputs is used goes. *)
Definition node_is_live (gr : Graph) (n : Node) : bool :=
  existsb (fun o => negb (Nat.eqb (length (Torch.uses gr o)) 0)) (outputs (info n)).

Fixpoint sweep_node (gr : Graph) (n : Node) : Node :=
  match n with
  | mkNode i bs => mkNode i (map (sweep_block gr) bs)
  end
with sweep_block (gr : Graph) (b : Block) : Block :=
  match b with
  | mkBlock p ns r =>
      mkBlock p
        ((fix go (ns : list Node) : list Node :=
            match ns with
            | [] => []
            | n :: ns' =>
                if node_is_live gr n then sweep_node gr n :: go ns' else go ns'
            end) ns) r
  end.

Definition sweep (gr : Graph) : Graph := with_block gr (sweep_block gr (g_block gr)).

Definition sample_dce (gr : Graph) : Graph := Nat.iter 8 sweep gr.

Definition param (id : N) (outs : list Value) : NodeInfo :=
  {| nid := id; kind := "prim::Param"; inputs := []; outputs := outs;
     attributes := []; scopeName := ""; scalar_args := []; pyobj := "" |}.

Definition ret (id : N) (ins : list Value) : NodeInfo :=
  {| nid := id; kind := "prim::Return"; inputs := ins; outputs := [];
     attributes := []; scopeName := ""; scalar_args := []; pyobj := "" |}.

Definition node_info (id : N) (k : string) (ins outs : list Value) (sc : string)
    : NodeInfo :=
  {| nid := id; kind := k; inputs := ins; outputs := outs;
     attributes := []; scopeName := sc; scalar_args := []; pyobj := "" |}.

Definition node (id : N) (k : string) (ins outs : list Value) (sc : string) : Node :=
  mkNode (node_info id k ins outs sc) [].

Definition float_tensor (sh : list Z) : Tensor :=
  {| t_dtype := float32; t_shape := sh; t_data := [] |}.

Definition graph_of (b : Block) (names : gmap N string) : Graph :=
  {| g_block := b; g_names := names; g_types := ∅; g_next := 200 |}.

(** [graph(%x, %w): %3 = aten::add(%x, %w); return (%3)] *)
Definition add_graph : Graph :=
  graph_of (mkBlock (param 100 [1; 2]%N)
                    [node 101 "aten::add" [1; 2]%N [3%N] "M/__module.fc"]
                    (ret 102 [3%N]))
           {[ 1%N := "x"; 2%N := "w" ]}.

(** [graph(%x): %2 = aten::relu(%x); return (%2, %x)] *)
Definition relu_graph : Graph :=
  graph_of (mkBlock (param 100 [1%N])
                    [node 101 "aten::relu" [1%N] [2%N] ""]
                    (ret 102 [2; 1]%N))
           {[ 1%N := "x" ]}.

(** [graph(%x): %2 = aten::frobnicate(%x); return (%2)] *)
Definition unknown_op_graph : Graph :=
  graph_of (mkBlock (param 100 [1%N])
                    [node 101 "aten::frobnicate" [1%N] [2%N] ""]
                    (ret 102 [2%N]))
           {[ 1%N := "x" ]}.

(** [graph(%c, %x): %5 = prim::If(%c) block0(): %3 = aten::relu(%x) -> (%3)
    block1(): %4 = aten::add(%x, %x) -> (%4); return (%5)] *)
Definition if_node : Node :=
  mkNode (node_info 101 "prim::If" [1%N] [5%N] "")
         [mkBlock (param 110 []) [node 111 "aten::relu" [2%N] [3%N] ""] (ret 112 [3%N]);
          mkBlock (param 120 []) [node 121 "aten::add" [2; 2]%N [4%N] ""] (ret 122 [4%N])].

Definition if_graph : Graph :=
  graph_of (mkBlock (param 100 [1; 2]%N) [if_node] (ret 102 [5%N]))
           {[ 1%N := "c"; 2%N := "x" ]}.

Definition sample_traced (m : Callable) : Result Traced :=
  let traced gr outs :=
    OK {| tr_original_name := "M"; tr_outputs := outs; tr_inlined_graph := gr;
          tr_graph_str := ""; tr_state_dict := ∅ |} in
  if N.eqb m 0 then traced add_graph [float_tensor [2; 3]%Z]
  else if N.eqb m 1 then traced relu_graph [float_tensor [2; 3]%Z; float_tensor [2; 3]%Z]
  else if N.eqb m 2 then traced unknown_op_graph [float_tensor [2; 3]%Z]
  else if N.eqb m 3 then traced if_graph [float_tensor [2; 3]%Z]
  else Raise RuntimeError.

(** An environment in which the passes other than dead-code elimination
    leave the graph as it is and constant folding returns [folded]. *)
Definition sample_env (folded : list (string * IValue)) : TorchEnv :=
  {| jit_trace := fun m _ _ gl => (gl, sample_traced m);
     jit_pass := fun p gr =>
       match p with
       | dce_allow_deleting_nodes_with_side_effects => OK (sample_dce gr)
       | _ => OK gr
       end;
     jit_pass_lint := fun _ => OK tt;
     jit_pass_onnx_constant_fold := fun gr _ _ => (gr, folded);
     constant_folding_opset_versions := [9; 10; 11; 12; 13]%Z;
     select_model_mode_for_export := fun _ _ => OK tt;
     supported_opset := fun v => (7 <=? v)%Z && (v <=? 13)%Z;
     register_version := fun _ => OK tt;
     infer_shapes := fun m _ _ _ => OK m;
     checker_check_model := fun _ => OK tt;
     SerializeToString := fun m => OK [N.of_nat (length (gp_node (mp_graph m)))];
     str_graph := fun _ => "";
     printable_graph := fun _ => "";
     str_state_dict := fun _ => "";
     registered_op := sample_registry;
     py_function := fun _ => None;
     str_node := fun _ _ => "";
     sourceRange := fun _ _ => "";
     repr_value := fun v _ => pretty v;
     repr_type := type_kind;
     cast_pytorch_to_onnx := torch_cast_table;
     replacement_name := fun _ nm => nm +:+ ".1";
     unsqueeze_helper := fun ref v gr =>
       OK (Torch.op1 ref "onnx::Unsqueeze" [v] [("axes", attr_is [0%Z])] gr);
     tensor_of_ivalue := fun x =>
       match x with
       | IVTensor t => OK t
       | IVInt i => OK {| t_dtype := int64; t_shape := []; t_data := [i] |}
       | _ => Raise TypeError
       end;
     open_wb := fun _ => OK tt;
     worklist_budget := 1000;
     nesting_limit := 100 |}.

Definition globals0 : Globals :=
  {| in_onnx_export := false; mangled_in_onnx_export := false;
     _export_onnx_opset_version := 9; _operator_export_type := None;
     _onnx_shape_inference := false; _params_dict := ∅ |}.

Definition world0 : World :=
  {| globals := globals0; files := ∅; streams := ∅ |}.

Definition options (ins outs : option (list string)) (t : OperatorExportTypes)
    : _ExporterOptions :=
  {| opset_version := 12; check_trace := false; strict_trace := true;
     force_outplace_trace := false; verbose := false;
     strip_doc_string := true; torch_constant_prop := true;
     enable_onnx_checker := true; onnx_shape_inference := true;
     onnx_strict_mode := false; onnx_check_type := false;
     onnx_data_prop := true; input_names := ins; output_names := outs;
     do_constant_folding := true; operator_export_type := t;
     training := None; dynamic_axes := [] |}.

Definition one_input : list Tensor := [float_tensor [2; 3]%Z].
Definition two_inputs : list Tensor := [float_tensor [2; 3]%Z; float_tensor [2; 3]%Z].

(** An exporter as [__init__] and the trace leave it, on a given graph. *)
Definition exporter_on (o : _ExporterOptions) (gr : Graph) (ins outs : list Tensor)
    : Exporter :=
  {| opts := o; ex_inputs := ins; ex_outputs := outs; original_name := "M";
     g := gr; vars := ∅; self_id := None; attrs := ∅; node_doc_string := ∅;
     node_scope := ∅; graph_doc_string := "" |}.

(** The exporter [_run_trace] returns for a sample model. *)
Definition traced_exporter (m : Callable) (ins : list Tensor) (o : _ExporterOptions)
    : Exporter :=
  match snd (Convert._run_trace (sample_env []) o m ins globals0) with
  | OK ex => ex
  | Raise _ => exporter_on o add_graph [] []
  end.

(** The exporter at the end of [generate_onnx] for a sample model. *)
Definition converted_exporter (m : Callable) (ins : list Tensor) (o : _ExporterOptions)
    : Exporter :=
  match snd (Convert._Exporter_init (sample_env []) o m ins world0) with
  | OK (ex, _, _) => ex
  | Raise _ => exporter_on o add_graph [] []
  end.

(** The relu sample exported with one input name and two output names. *)
Definition relu_options : _ExporterOptions :=
  options (Some ["x"]) (Some ["out"; "y"]) ONNX.

Definition relu_converted : Exporter := converted_exporter 1%N one_input relu_options.

(** Constant folding that reports the input [w] of the add sample. *)
Definition folded_w : list (string * IValue) :=
  [("w", IVTensor (float_tensor [2; 3]%Z))].

Definition folding_exporter : Exporter :=
  exporter_on (options (Some ["x"]) (Some ["y"]) ONNX) add_graph one_input one_input.

Definition no_tables : Emission.Tables :=
  {| Emission.onnx_vars := []; Emission.val_tab := ∅ |}.

End Sample.

(** ** Vocabulary of the statements *)

(** Two states of torch's globals with the same export-mode flags. *)
Definition same_flags (a b : Globals) : Prop :=
  _export_onnx_opset_version a = _export_onnx_opset_version b
  /\ _operator_export_type a = _operator_export_type b
  /\ _onnx_shape_inference a = _onnx_shape_inference b.

(** The environment with another registry of lowering functions. *)
Definition with_lowerings (env : TorchEnv)
    (reg : string -> Z -> option SymFunc) (pyf : string -> option (option SymFunc))
    : TorchEnv :=
  {| jit_trace := jit_trace env; jit_pass := jit_pass env;
     jit_pass_lint := jit_pass_lint env;
     jit_pass_onnx_constant_fold := jit_pass_onnx_constant_fold env;
     constant_folding_opset_versions := constant_folding_opset_versions env;
     select_model_mode_for_export := select_model_mode_for_export env;
     supported_opset := supported_opset env;
     register_version := register_version env;
     infer_shapes := infer_shapes env;
     checker_check_model := checker_check_model env;
     SerializeToString := SerializeToString env;
     str_graph := str_graph env; printable_graph := printable_graph env;
     str_state_dict := str_state_dict env;
     registered_op := reg; py_function := pyf;
     str_node := str_node env; sourceRange := sourceRange env;
     repr_value := repr_value env; repr_type := repr_type env;
     cast_pytorch_to_onnx := cast_pytorch_to_onnx env;
     replacement_name := replacement_name env;
     unsqueeze_helper := unsqueeze_helper env;
     tensor_of_ivalue := tensor_of_ivalue env;
     open_wb := open_wb env;
     worklist_budget := worklist_budget env;
     nesting_limit := nesting_limit env |}.

(** The name table read as append-only over a whole emission of the root
    graph: a name that the input overrides give a value is the name the
    finished table has for it. *)
Definition names_never_change (env : TorchEnv) (ex : Exporter) : Prop :=
  forall names b t tab1 nodes t' ws id nm,
    input_names (opts ex) = Some names ->
    Emission.apply_input_names ex names b (Emission.val_tab t) = OK tab1 ->
    tab1 !! id = Some nm ->
    Emission.generate_proto_nodes env ex true b t = OK (nodes, t', ws) ->
    Emission.val_tab t' !! id = Some nm.

(** A pool entry made from the state dict for a value with an attribute
    alias, as [generate_proto_nodes] makes them. *)
Definition from_state_dict (ex : Exporter) (p : TorchValueID * TensorProto) : Prop :=
  exists k tens,
    attrs ex !! fst p = Some k /\ vars ex !! k = Some tens
    /\ snd p = _tensor_to_proto tens (Some k).

(** Among the nodes there is an [onnx::Constant] that carries the tensor. *)
Definition has_constant (t : Tensor) (ns : list Node) : Prop :=
  exists n, n ∈ ns /\ kind (info n) = "onnx::Constant"
            /\ attributes (info n) = [("value", attr_t t)].

(** Constant folding read as filling the initializers: every folded
    tensor is an initializer of the model, under the name of its input. *)
Definition folded_literals_are_initializers (env : TorchEnv) (ex : Exporter) : Prop :=
  forall ex' m ws gr key t,
    Convert.generate_onnx env ex = OK (ex', m, ws) ->
    (key, IVTensor t)
      ∈ snd (jit_pass_onnx_constant_fold env gr (vars ex) (opset_version (opts ex))) ->
    exists tp, tp ∈ gp_initializer (mp_graph m)
               /\ tp_name tp = Some key /\ tp_tensor tp = t.

(** The pruning read as removing the leading graph inputs. *)
Definition pruning_removes_leading_inputs (env : TorchEnv)
    (folded : list (string * IValue)) (ex : Exporter) : Prop :=
  forall ex',
    Convert.fold_inputs env folded ex = OK ex' ->
    Torch.graph_inputs (g ex') = drop (length folded) (Torch.graph_inputs (g ex)).

(** The node kinds with a handler of their own. *)
Definition handler_kinds : list string :=
  ["prim::Constant"; "prim::GetAttr"; "prim::ListConstruct"; "prim::If"].

(** What an export leaves written is what was there before. *)
Definition nothing_written (w w' : World) : Prop :=
  files w' = files w /\ streams w' = streams w.

(** What the conversion never changes of an exporter: the options, the
    example inputs and outputs, the model's name, the state dict and
    [self_id]. *)
Definition same_setup (a b : Exporter) : Prop :=
  opts a = opts b /\ ex_inputs a = ex_inputs b /\ ex_outputs a = ex_outputs b
  /\ original_name a = original_name b /\ vars a = vars b /\ self_id a = self_id b.

(** [log] stays silent: nothing is verbose, or doc strings are stripped. *)
Definition quiet (o : _ExporterOptions) : Prop :=
  verbose o = false \/ strip_doc_string o = true.

(** An exporter reached from [ex0] by steps that keep the setup, that
    write the graph's doc string only through [log] and the nodes' doc
    strings only when these are not stripped. *)
Definition lowered_from (ex0 ex : Exporter) : Prop :=
  same_setup ex ex0
  /\ (quiet (opts ex0) -> graph_doc_string ex = graph_doc_string ex0)
  /\ (strip_doc_string (opts ex0) = true -> node_doc_string ex = node_doc_string ex0).

(** The nodes [generate_proto_nodes] makes a proto for: all but the
    [prim::GetAttr] nodes and the [onnx::Constant] nodes whose output has
    no use. *)
Definition is_emitted (ex : Exporter) (n : Node) : bool :=
  negb (String.eqb (kind (info n)) "prim::GetAttr")
  && negb match Emission.is_dead_constant ex (info n) with
          | OK dead => dead
          | Raise _ => false
          end.

(** [n.kind().split("::")[-1]] *)
Definition op_type_of (n : Node) : string :=
  last_piece (py_split (kind (info n)) "::").

(** The values carry the names a table has for them, position by
    position. *)
Definition named_by (tab : gmap TorchValueID ONNXValueID) (vs : list Value)
    (names : list string) : Prop :=
  Forall2 (fun v nm => tab !! _unique_id v = Some nm) vs names.

(** A node proto made for a node, read against a name table. *)
Definition proto_of_node (ex : Exporter) (tab : gmap TorchValueID ONNXValueID)
    (n : Node) (np : NodeProto) : Prop :=
  np_op_type np = op_type_of n
  /\ named_by tab (inputs (info n)) (np_input np)
  /\ named_by tab (outputs (info n)) (np_output np)
  /\ (kind (info n) <> "prim::If" ->
      np_doc_string np = default "" (node_doc_string ex !! nid (info n))
      /\ np_attribute np = map Emission.proto_attribute (attributes (info n))).

(** The graph inputs other than the module itself. *)
Definition real_inputs (ex : Exporter) (ins : list Value) : list Value :=
  List.filter (fun v => negb (Lowering.is_self ex v)) ins.

(** The table after giving the values the names, position by position. *)
Definition with_names (vs : list Value) (names : list string)
    (tab : gmap TorchValueID ONNXValueID) : gmap TorchValueID ONNXValueID :=
  fold_left (fun t vn => <[ _unique_id (fst vn) := snd vn ]> t) (zip vs names) tab.

(** A value info whose type is the tensor type of an example tensor:
    its element type and one dimension per axis. *)
Definition describes (vi : ValueInfoProto) (t : Tensor) : Prop :=
  exists den et,
    torch_dtype_to_onnx_data_type (t_dtype t) = Some et
    /\ vi_type vi
       = Some (mkTypeProto den
                 (tensor_type et
                    (Some (map (fun i => {| dim_value := i |}) (t_shape t))))).

(** The types [_type_to_proto] has a descriptor for: lists, to any
    depth, of [NoneType], [IntType] and tensor types whose scalar type,
    if known, is in torch's table. *)
Fixpoint projectable (table : string -> option DataType) (t : JitType) : bool :=
  match t with
  | NoneType | IntType | TensorType None _ => true
  | TensorType (Some s) _ => match table s with Some _ => true | None => false end
  | ListType e => projectable table e
  | OtherType _ => false
  end.

(** Every tensor type inside a descriptor has its [shape] field set. *)
Fixpoint has_shape (p : TypeProto) : bool :=
  match p with
  | mkTypeProto _ v => value_has_shape v
  end
with value_has_shape (v : TypeValue) : bool :=
  match v with
  | value_not_set => true
  | tensor_type _ None => false
  | tensor_type _ (Some _) => true
  | sequence_type e => has_shape e
  end.

(** The scope [value_name] reads for a value: the one recorded for its
    producer during lowering, else the producer's own. *)
Definition scope_of (ex : Exporter) (v : Value) : string :=
  let n := Torch.value_node (g_block (g ex)) v in
  default (scopeName n) (node_scope ex !! nid n).

(** The name made from a scope and a debug name. *)
Definition scoped_name (scope debug_name : string) : string :=
  let s := _remove_prefix scope "__module." in
  (if Nat.ltb 0 (String.length s) then s +:+ "." else s) +:+ debug_name.

(** [setDebugName] for each pair, in order. *)
Definition set_debug_names (env : TorchEnv) (vs : list Value) (names : list string)
    (gr : Graph) : Graph :=
  fold_left (fun g0 vn => Lowering.setDebugName env (fst vn) (snd vn) g0) (zip vs names) gr.

(** The pool of initializers only grows, and keeps one entry per value. *)
Definition pool_grows (t t' : Emission.Tables) : Prop :=
  (exists more, Emission.onnx_vars t' = Emission.onnx_vars t ++ more)
  /\ (NoDup (map fst (Emission.onnx_vars t)) -> NoDup (map fst (Emission.onnx_vars t'))).

(** The inputs of a node that have an attribute alias, the module itself
    apart, have an entry in the pool. *)
Definition aliases_pooled (ex : Exporter) (t : Emission.Tables) (n : Node) : Prop :=
  forall v, v ∈ inputs (info n) -> Lowering.is_self ex v = false ->
            is_Some (attrs ex !! _unique_id v) ->
            _unique_id v ∈ map fst (Emission.onnx_vars t).

(** ** More sample inputs: a module with a parameter *)

Module ModuleSample.

Definition get_attr (id : N) (nm : string) (i o : Value) : Node :=
  mkNode (set_attributes (Sample.node_info id "prim::GetAttr" [i] [o] "")
            [("name", attr_s nm)]) [].

(** [graph(%self, %x, %b): %3 = GetAttr[name="fc"](%self);
    %4 = GetAttr[name="weight"](%3); %5 = GetAttr[name="bias"](%b);
    %6 = aten::add(%x, %4); return (%6)] *)
Definition graph : Graph :=
  {| g_block :=
       mkBlock (Sample.param 100 [1; 2; 7]%N)
         [get_attr 101 "fc" 1%N 3%N; get_attr 103 "weight" 3%N 4%N;
          get_attr 104 "bias" 7%N 5%N;
          Sample.node 105 "aten::add" [2; 4]%N [6%N] "M/__module.fc"]
         (Sample.ret 102 [6%N]);
     g_names := {[ 1%N := "self"; 2%N := "x" ]};
     g_types := {[ 1%N := OtherType ClassType ]};
     g_next := 200 |}.

Definition state_dict : gmap string Tensor :=
  {[ "fc.weight" := Sample.float_tensor [2; 3]%Z ]}.

(** The exporter as [_run_trace] leaves it for this module. *)
Definition exporter : Exporter :=
  {| opts := Sample.options (Some ["x"; "b"]) (Some ["y"]) ONNX;
     ex_inputs := Sample.two_inputs; ex_outputs := Sample.one_input;
     original_name := "M"; g := graph; vars := state_dict; self_id := Some 1%N;
     attrs := ∅; node_doc_string := ∅; node_scope := ∅; graph_doc_string := "" |}.

(** The same after lowering the nodes but the third. *)
Definition lowered : Exporter :=
  match Convert.lower_nodes (Sample.sample_env []) [101; 103; 105]%N exporter with
  | OK ex => ex
  | Raise _ => exporter
  end.

End ModuleSample.

(** ** Extensions of the training loop

    This part follows [pytorch_pfn_extras/training/extension.py].  An
    instance of [Extension] or of a subclass is a record of what the
    training loop reads from it; any other callable is a record of the
    attributes it may or may not have.  Methods act on the state [S] of
    the program and take the manager, of type [M], where the source
    passes it. *)

Module Extensions.

Definition PRIORITY_WRITER : Z := 300.
Definition PRIORITY_EDITOR : Z := 200.
Definition PRIORITY_READER : Z := 100.
Definition PRIORITY_SNAPSHOT : Z := -100.

(** A trigger is a pair of a period and a unit, or some other object. *)
Inductive Trigger :=
| every (period : Z) (unit : string)
| trigger_object (id : N).

Definition Traceback := string.

Section WithState.
Variables S M R : Type.

(** An instance of [Extension] or of one of its subclasses. *)
Record Extension := {
  class_name : string;                          (* type(self).__name__ *)
  trigger : Trigger;
  priority : Z;
  name : option string;
  default_name : string;
  call : M -> S -> Result (S * R);             (* __call__(manager) *)
  finalize : S -> Result S;
  initialize : M -> S -> Result S;
  on_error : M -> PyExn -> Traceback -> S -> Result S
}.

(** A callable that is no [Extension], with the attributes that
    [getattr] may find on it; [f_default_name] is [Some None] for an
    attribute that is there and holds [None]. *)
Record Function := {
  f_name : option string;                       (* __name__ *)
  f_call : M -> S -> Result (S * R);
  f_trigger : option Trigger;
  f_priority : option Z;
  f_default_name : option (option string);
  f_finalize : option (S -> Result S);
  f_initialize : option (M -> S -> Result S);
  f_on_error : option (M -> PyExn -> Traceback -> S -> Result S)
}.

Inductive Object :=
| an_extension (e : Extension)
| a_function (f : Function).

(** The class attributes of [Extension]. *)
Definition Extension_trigger : Trigger := every 1 "iteration".
Definition Extension_priority : Z := PRIORITY_READER.

Definition NotImplementedError : PyExn :=
  OtherError "NotImplementedError: Extension implementation must override __call__.".

(** [Extension()], for the class of that name. *)
Definition Extension_init (cls : string) : Extension :=
  {| class_name := cls; trigger := Extension_trigger; priority := Extension_priority;
     name := None; default_name := cls;
     call := fun _ _ => Raise NotImplementedError;
     finalize := fun s => OK s;
     initialize := fun _ s => OK s;
     on_error := fun _ _ _ s => OK s |}.

(** [x or y] for a name that may be [None]. *)
Definition or_name (x : option string) (y : string) : string :=
  match x with
  | Some s => if String.eqb s "" then y else s
  | None => y
  end.

(** [_WrappedExtension(ext)] *)
Definition _WrappedExtension (ext : Function) : Extension :=
  let super := Extension_init "_WrappedExtension" in
  {| class_name := "_WrappedExtension";
     trigger := default Extension_trigger (f_trigger ext);
     priority := default Extension_priority (f_priority ext);
     name := None;
     default_name := or_name (default None (f_default_name ext)) (default_name super);
     call := f_call ext;
     finalize := default (finalize super) (f_finalize ext);
     initialize := default (initialize super) (f_initialize ext);
     on_error := default (on_error super) (f_on_error ext) |}.

Definition _as_extension (ext : Object) : Extension :=
  match ext with
  | an_extension e => e
  | a_function f => _WrappedExtension f
  end.

Definition set_trigger (f : Function) (t : Trigger) : Function :=
  {| f_name := f_name f; f_call := f_call f; f_trigger := Some t;
     f_priority := f_priority f; f_default_name := f_default_name f;
     f_finalize := f_finalize f; f_initialize := f_initialize f;
     f_on_error := f_on_error f |}.

(** The decorator that [make_extension(...)] returns, applied to a
    callable [ext] that is no [Extension]: the object as the assignments
    leave it, and the outcome.  With no name given, reading
    [ext.__name__] raises for an object without it, after the trigger has
    been assigned. *)
Definition make_extension (trigger_ : option Trigger) (default_name_ : option string)
    (priority_ : option Z) (finalizer : S -> Result S)
    (initializer : M -> S -> Result S)
    (on_error_ : M -> PyExn -> Traceback -> S -> Result S)
    (ext : Function) : Function * Result unit :=
  let trigger1 := default Extension_trigger trigger_ in
  let priority1 := default Extension_priority priority_ in
  let ext1 := set_trigger ext trigger1 in
  let given := or_name default_name_ "" in
  match (if String.eqb given "" then f_name ext else Some given) with
  | None => (ext1, Raise AttributeError)
  | Some nm =>
      ({| f_name := f_name ext; f_call := f_call ext; f_trigger := Some trigger1;
          f_priority := Some priority1; f_default_name := Some (Some nm);
          f_finalize := Some finalizer; f_initialize := Some initializer;
          f_on_error := Some on_error_ |}, OK tt)
  end.

End WithState.

Arguments class_name {S M R} _.
Arguments trigger {S M R} _.
Arguments priority {S M R} _.
Arguments name {S M R} _.
Arguments default_name {S M R} _.
Arguments call {S M R} _ _ _.
Arguments finalize {S M R} _ _.
Arguments initialize {S M R} _ _ _.
Arguments on_error {S M R} _ _ _ _ _.
Arguments f_name {S M R} _.
Arguments an_extension {S M R} e.
Arguments a_function {S M R} f.
Arguments _WrappedExtension {S M R} ext.
Arguments _as_extension {S M R} ext.
Arguments make_extension {S M R} _ _ _ _ _ _ ext.
Arguments Extension_init {S M R} cls.

(** A function that counts its calls, for the examples. *)
Definition counter : Function nat unit nat :=
  {| f_name := Some "count"; f_call := fun _ s => OK (Datatypes.S s, s);
     f_trigger := None; f_priority := None; f_default_name := None;
     f_finalize := None; f_initialize := None; f_on_error := None |}.

End Extensions.

(** * Properties *)

(** ** Results and loops *)

Lemma bind_OK_inv {A B} (m : Result A) (f : A -> Result B) (b : B) :
  m ≫= f = OK b -> exists a, m = OK a /\ f a = OK b.
Proof. destruct m as [a|e]; simpl; [eauto | discriminate]. Qed.

Lemma py_assert_OK_inv (b : bool) (what : string) (u : unit) :
  py_assert b what = OK u -> b = true.
Proof. unfold py_assert. destruct b; [reflexivity | discriminate]. Qed.

Lemma py_assert_false (b : bool) (what : string) :
  b = false -> py_assert b what = Raise (AssertionError what).
Proof. intros ->. reflexivity. Qed.

(** An invariant of the loop body is an invariant of the loop. *)
Lemma foldM_invariant {A S} (P : S -> Prop) (body : S -> A -> Result S) :
  (forall st x st', P st -> body st x = OK st' -> P st') ->
  forall xs st st', P st -> foldM body xs st = OK st' -> P st'.
Proof.
  intros Hbody xs. induction xs as [|x xs IH]; intros st st' HP H; simpl in H.
  - congruence.
  - apply bind_OK_inv in H as (st1 & H1 & H2). eauto.
Qed.

Lemma foldM_app {A S} (body : S -> A -> Result S) (xs ys : list A) (st : S) :
  foldM body (xs ++ ys) st = foldM body xs st ≫= foldM body ys.
Proof.
  revert st. induction xs as [|x xs IH]; intros st; simpl; [reflexivity|].
  destruct (body st x) as [st1|e]; simpl; [apply IH | reflexivity].
Qed.

Lemma foldM_raise_at {A S} (body : S -> A -> Result S) (pre post : list A)
    (x : A) (st st1 : S) (e : PyExn) :
  foldM body pre st = OK st1 -> body st1 x = Raise e ->
  foldM body (pre ++ x :: post) st = Raise e.
Proof.
  intros Hpre Hx. rewrite foldM_app, Hpre. simpl. now rewrite Hx.
Qed.

Ltac inv_bind H :=
  let a := fresh "a" in
  let H1 := fresh H "_l" in
  let H2 := fresh H "_r" in
  apply bind_OK_inv in H as (a & H1 & H2).

(** ** The type projector *)

Lemma dims_of_length (sz : list Z) :
  length (TypeProjector.dims_of (Some sz)) = length sz.
Proof. unfold TypeProjector.dims_of. now rewrite length_map. Qed.

(** C8. The type projector maps [NoneType] to the empty descriptor, a
    list type to a sequence of the projected element type, the integer
    type to an INT64 tensor with an empty shape, and a tensor type to a
    tensor descriptor whose element type is looked up in torch's
    scalar-type table (UNDEFINED when the tensor has no scalar type) with
    one dimension per known size; every other kind of type fails the
    assertion. *)
Theorem type_to_proto_cases
    (repr : JitType -> string) (table : string -> option DataType) :
  let project := TypeProjector._type_to_proto repr table in
  project NoneType = OK empty_TypeProto
  /\ (forall e p, project e = OK p ->
        project (ListType e) = OK (mkTypeProto (repr (ListType e)) (sequence_type p)))
  /\ project IntType = OK (mkTypeProto (repr IntType) (tensor_type INT64 (Some [])))
  /\ (forall sz,
        project (TensorType None sz)
        = OK (mkTypeProto (repr (TensorType None sz))
                (tensor_type UNDEFINED (Some (TypeProjector.dims_of sz)))))
  /\ (forall s d sz, table s = Some d ->
        project (TensorType (Some s) sz)
        = OK (mkTypeProto (repr (TensorType (Some s) sz))
                (tensor_type d (Some (TypeProjector.dims_of sz)))))
  /\ (forall sz, length (TypeProjector.dims_of (Some sz)) = length sz)
  /\ TypeProjector.dims_of None = []
  /\ (forall t,
        type_kind t <> "NoneType" -> type_kind t <> "ListType" ->
        type_kind t <> "IntType" -> type_kind t <> "TensorType" ->
        exists what, project t = Raise (AssertionError what)).
Proof.
  cbv zeta. repeat split.
  - intros e p He. simpl. now rewrite He.
  - intros s d sz Hs. simpl. now rewrite Hs.
  - apply dims_of_length.
  - intros t H1 H2 H3 H4. destruct t; simpl in *; try congruence. eauto.
Qed.

Lemma type_to_proto_cases_witness :
  TypeProjector._type_to_proto type_kind torch_cast_table
    (ListType (TensorType (Some "Float") (Some [2; 3]%Z)))
  = OK (mkTypeProto "ListType"
          (sequence_type
             (mkTypeProto "TensorType"
                (tensor_type FLOAT (Some [{| dim_value := 2 |}; {| dim_value := 3 |}])))))
  /\ exists what,
       TypeProjector._type_to_proto type_kind torch_cast_table (OtherType FloatType)
       = Raise (AssertionError what).
Proof.
  pose proof (type_to_proto_cases type_kind torch_cast_table) as H.
  cbv zeta in H.
  destruct H as (_ & Hlist & _ & _ & Htensor & _ & _ & Hother).
  split.
  - rewrite (Hlist (TensorType (Some "Float") (Some [2; 3]%Z))
               (mkTypeProto "TensorType"
                  (tensor_type FLOAT (Some [{| dim_value := 2 |}; {| dim_value := 3 |}])))).
    + reflexivity.
    + rewrite (Htensor "Float" FLOAT (Some [2; 3]%Z)); reflexivity.
  - apply Hother; simpl; discriminate.
Defined.

(** ** The export-mode flags *)

Lemma finally_restores (env : TorchEnv) (s : Convert.Saved) (gl0 gl : Globals) :
  supported_opset env (_export_onnx_opset_version gl0) = true ->
  (Convert.prev_opset_version s = None ->
     _export_onnx_opset_version gl = _export_onnx_opset_version gl0) ->
  (forall v, Convert.prev_opset_version s = Some v ->
     v = _export_onnx_opset_version gl0) ->
  (Convert.prev_shape_inference s = None ->
     _operator_export_type gl = _operator_export_type gl0
     /\ _onnx_shape_inference gl = _onnx_shape_inference gl0) ->
  (forall b, Convert.prev_shape_inference s = Some b ->
     b = _onnx_shape_inference gl0
     /\ Convert.prev_export_type s = _operator_export_type gl0) ->
  same_flags (fst (Convert.finally_block env s gl)) gl0
  /\ snd (Convert.finally_block env s gl) = OK tt.
Proof.
  intros Hsup Hop0 Hop1 Hsh0 Hsh1.
  unfold Convert.finally_block, same_flags.
  destruct (Convert.prev_opset_version s) as [v|] eqn:Ev.
  - rewrite (Hop1 v eq_refl). unfold Convert._set_opset_version. rewrite Hsup.
    destruct (Convert.prev_shape_inference s) as [b|] eqn:Eb; simpl.
    + destruct (Hsh1 b eq_refl) as [-> ->]. auto.
    + destruct (Hsh0 eq_refl) as [-> ->]. auto.
  - destruct (Convert.prev_shape_inference s) as [b|] eqn:Eb; simpl.
    + destruct (Hsh1 b eq_refl) as [-> ->]. rewrite (Hop0 eq_refl). auto.
    + destruct (Hsh0 eq_refl) as [-> ->]. rewrite (Hop0 eq_refl). auto.
Qed.

Lemma try_block_saved (env : TorchEnv) (o : _ExporterOptions) (model : Callable)
    (inputs_ : list Tensor) (gl : Globals) s gl1 r :
  Convert.try_block env o model inputs_ gl = (s, gl1, r) ->
  (Convert.prev_opset_version s = None ->
     _export_onnx_opset_version gl1 = _export_onnx_opset_version gl)
  /\ (forall v, Convert.prev_opset_version s = Some v ->
        v = _export_onnx_opset_version gl)
  /\ (Convert.prev_shape_inference s = None ->
        _operator_export_type gl1 = _operator_export_type gl
        /\ _onnx_shape_inference gl1 = _onnx_shape_inference gl)
  /\ (forall b, Convert.prev_shape_inference s = Some b ->
        b = _onnx_shape_inference gl
        /\ Convert.prev_export_type s = _operator_export_type gl).
Proof.
  unfold Convert.try_block. intros Etry.
  destruct (in_onnx_export gl).
  { injection Etry as <- <- <-. simpl. repeat split; auto; discriminate. }
  destruct (select_model_mode_for_export env model (training o)).
  2:{ injection Etry as <- <- <-. simpl. repeat split; auto; discriminate. }
  unfold Convert._set_opset_version in Etry.
  destruct (supported_opset env (opset_version o)).
  2:{ injection Etry as <- <- <-. simpl. repeat split; auto; try discriminate.
      intros v [= <-]. reflexivity. }
  destruct (Convert._run_trace env o model inputs_ _) as [gl5 rr].
  injection Etry as <- <- <-. simpl. repeat split; try discriminate.
  - intros v [= <-]. reflexivity.
  - congruence.
Qed.

Lemma convert_same_flags (env : TorchEnv) (o : _ExporterOptions) (model : Callable)
    (inputs_ : list Tensor) (gl : Globals) :
  supported_opset env (_export_onnx_opset_version gl) = true ->
  same_flags (fst (Convert._convert env o model inputs_ gl)) gl
  /\ snd (Convert._convert env o model inputs_ gl)
     = snd (Convert.try_block env o model inputs_ gl).
Proof.
  intros Hsup. unfold Convert._convert.
  destruct (Convert.try_block env o model inputs_ gl) as [[s gl1] r] eqn:Etry.
  destruct (try_block_saved env o model inputs_ gl s gl1 r Etry) as (H1 & H2 & H3 & H4).
  destruct (finally_restores env s gl gl1 Hsup H1 H2 H3 H4) as [Hflags Hfin].
  destruct (Convert.finally_block env s gl1) as [gl2 fin]. simpl in *.
  subst fin. auto.
Qed.

(** The conversion proper runs only on what [_run_trace] returned. *)
Lemma try_block_OK_inv (env : TorchEnv) (o : _ExporterOptions) (model : Callable)
    (inputs_ : list Tensor) (gl : Globals) (c : Convert.Converted) :
  snd (Convert.try_block env o model inputs_ gl) = OK c ->
  exists gl' ex,
    snd (Convert._run_trace env o model inputs_ gl') = OK ex
    /\ Convert.generate_onnx env ex = OK c.
Proof.
  unfold Convert.try_block. intros H.
  destruct (in_onnx_export gl); [simpl in H; discriminate|].
  destruct (select_model_mode_for_export env model (training o));
    [|simpl in H; discriminate].
  destruct (Convert._set_opset_version env _ _) as [gl2|]; [|simpl in H; discriminate].
  match type of H with context [Convert._run_trace env o model inputs_ ?g0] =>
    exists g0; destruct (Convert._run_trace env o model inputs_ g0) as [gl5 r] end.
  simpl in *. destruct r as [ex|e]; [|discriminate]. eauto.
Qed.

Lemma convert_OK_inv (env : TorchEnv) (o : _ExporterOptions) (model : Callable)
    (inputs_ : list Tensor) (gl : Globals) (c : Convert.Converted) :
  snd (Convert._convert env o model inputs_ gl) = OK c ->
  snd (Convert.try_block env o model inputs_ gl) = OK c.
Proof.
  unfold Convert._convert.
  destruct (Convert.try_block env o model inputs_ gl) as [[s gl1] r].
  destruct (Convert.finally_block env s gl1) as [gl2 [u|e]]; simpl; [auto|discriminate].
Qed.

(** An export whose conversion fails raises and writes nothing. *)
Lemma export_of_failed_init (env : TorchEnv) (model : Callable) (args : list Tensor)
    (f : OutputFile) (o : _ExporterOptions) (w : World) :
  is_OK (snd (Convert._Exporter_init env o model args w)) = false ->
  snd (Convert.export env model args f o w)
  = match snd (Convert._Exporter_init env o model args w) with
    | OK _ => Raise RuntimeError
    | Raise e => Raise e
    end
  /\ nothing_written w (fst (Convert.export env model args f o w)).
Proof.
  unfold Convert.export. intros H.
  assert (Hw : nothing_written w (fst (Convert._Exporter_init env o model args w))).
  { unfold Convert._Exporter_init, nothing_written.
    destruct (register_version env (opset_version o)); [|auto].
    destruct (Convert._convert env o model args (globals w)); auto. }
  destruct (Convert._Exporter_init env o model args w) as [w1 [c|e]];
    simpl in *; [discriminate|auto].
Qed.

Lemma init_OK_inv (env : TorchEnv) (model : Callable) (args : list Tensor)
    (o : _ExporterOptions) (w : World) (c : Convert.Converted) :
  snd (Convert._Exporter_init env o model args w) = OK c ->
  exists gl' ex,
    snd (Convert._run_trace env o model args gl') = OK ex
    /\ Convert.generate_onnx env ex = OK c.
Proof.
  unfold Convert._Exporter_init.
  destruct (register_version env (opset_version o)); [|simpl; discriminate].
  destruct (Convert._convert env o model args (globals w)) as [gl r] eqn:E.
  simpl. intros ->.
  apply (try_block_OK_inv env o model args (globals w)).
  apply convert_OK_inv. now rewrite E.
Qed.

Lemma run_trace_OK_inv (env : TorchEnv) (o : _ExporterOptions) (model : Callable)
    (inputs_ : list Tensor) (gl : Globals) (ex : Exporter) :
  snd (Convert._run_trace env o model inputs_ gl) = OK ex ->
  exists traced sid gr',
    snd (jit_trace env model inputs_ o gl) = OK traced
    /\ Convert.self_id_of (tr_inlined_graph traced) = OK sid
    /\ Convert.optimize env o sid (tr_inlined_graph traced) = OK gr'
    /\ g ex = gr' /\ opts ex = o /\ self_id ex = sid
    /\ attrs ex = ∅ /\ node_scope ex = ∅ /\ node_doc_string ex = ∅.
Proof.
  unfold Convert._run_trace.
  destruct (jit_trace env model inputs_ o gl) as [gl1 [traced|e]]; [|simpl; discriminate].
  destruct (Convert.self_id_of (tr_inlined_graph traced)) as [sid|e] eqn:Es;
    [|simpl; discriminate].
  simpl. intros H. inv_bind H. injection H_r as <-.
  exists traced, sid, a. repeat split; auto.
  all: unfold Lowering.log; simpl;
    repeat (match goal with |- context [if ?b then _ else _] => destruct b end; simpl);
    reflexivity.
Qed.

(** C5. Whatever happens during an export, the [finally] block of
    [_convert] leaves the opset version, the operator export type and the
    shape-inference toggle at the values they had before the export.  The
    opset version found before the export is one torch's setter accepts. *)
Theorem export_restores_flags (env : TorchEnv) (model : Callable) (args : list Tensor)
    (f : OutputFile) (kwargs : _ExporterOptions) (w : World) :
  supported_opset env (_export_onnx_opset_version (globals w)) = true ->
  same_flags (globals (fst (Convert.export env model args f kwargs w))) (globals w).
Proof.
  intros Hsup. unfold Convert.export, Convert._Exporter_init.
  destruct (register_version env (opset_version kwargs)); simpl;
    [ | unfold same_flags; auto ].
  pose proof (proj1 (convert_same_flags env kwargs model args (globals w) Hsup)) as H.
  destruct (Convert._convert env kwargs model args (globals w)) as [gl r]. simpl in H.
  destruct r as [[[ex m] ws]|e]; simpl; [ | exact H ].
  unfold Convert.generate.
  destruct f as [p|id].
  - destruct (open_wb env p); simpl; [ | exact H ].
    destruct (SerializeToString env m); simpl; exact H.
  - destruct (SerializeToString env m); simpl; exact H.
Qed.

(** ** The renaming step of [optimize] *)

Lemma export_OK_init_OK (env : TorchEnv) (model : Callable) (args : list Tensor)
    (f : OutputFile) (o : _ExporterOptions) (w : World) :
  is_OK (snd (Convert.export env model args f o w)) = true ->
  is_OK (snd (Convert._Exporter_init env o model args w)) = true.
Proof.
  unfold Convert.export.
  destruct (Convert._Exporter_init env o model args w) as [w1 [c|e]]; simpl; auto.
Qed.

(** An export succeeds only if [optimize] returned a graph. *)
Lemma export_OK_optimize_OK (env : TorchEnv) (model : Callable) (args : list Tensor)
    (f : OutputFile) (o : _ExporterOptions) (w : World) :
  is_OK (snd (Convert.export env model args f o w)) = true ->
  exists gl traced sid gr',
    snd (jit_trace env model args o gl) = OK traced
    /\ Convert.self_id_of (tr_inlined_graph traced) = OK sid
    /\ Convert.optimize env o sid (tr_inlined_graph traced) = OK gr'.
Proof.
  intros H. apply export_OK_init_OK in H.
  destruct (snd (Convert._Exporter_init env o model args w)) as [c|e] eqn:E;
    [|discriminate].
  apply init_OK_inv in E as (gl & ex & Htrace & _).
  apply run_trace_OK_inv in Htrace as (traced & sid & gr' & H1 & H2 & H3 & _).
  exists gl, traced, sid, gr'. auto.
Qed.

(** C10. With [input_names] left unset, the renaming step of [optimize]
    calls [copy] on [None] before its test for [None]: it raises
    AttributeError instead of being skipped, so [optimize] never returns
    and no export succeeds. *)
Theorem optimize_raises_on_unset_input_names (env : TorchEnv) (o : _ExporterOptions) :
  input_names o = None ->
  (forall sid graph, Convert.rename_graph_inputs env o sid graph = Raise AttributeError)
  /\ (forall sid graph g14,
        Convert.optimize_passes env o graph = OK g14 ->
        Convert.optimize env o sid graph = Raise AttributeError)
  /\ (forall sid graph, is_OK (Convert.optimize env o sid graph) = false)
  /\ (forall model args f w,
        is_OK (snd (Convert.export env model args f o w)) = false).
Proof.
  intros Hnone.
  assert (Hrename : forall sid graph,
             Convert.rename_graph_inputs env o sid graph = Raise AttributeError).
  { intros sid graph. unfold Convert.rename_graph_inputs. now rewrite Hnone. }
  assert (Hopt : forall sid graph, is_OK (Convert.optimize env o sid graph) = false).
  { intros sid graph. unfold Convert.optimize.
    destruct (Convert.optimize_passes env o graph) as [g14|e]; simpl; [|reflexivity].
    now rewrite Hrename. }
  repeat split; auto.
  - intros sid graph g14 Hp. unfold Convert.optimize. rewrite Hp. simpl. apply Hrename.
  - intros model args f w.
    destruct (is_OK (snd (Convert.export env model args f o w))) eqn:E; [|reflexivity].
    apply export_OK_optimize_OK in E as (gl & traced & sid & gr' & _ & _ & H).
    specialize (Hopt sid (tr_inlined_graph traced)). now rewrite H in Hopt.
Qed.

Lemma optimize_raises_on_unset_input_names_witness :
  input_names default_options = None
  /\ Convert.optimize (Sample.sample_env []) default_options None Sample.add_graph
     = Raise AttributeError
  /\ is_OK (snd (Convert.export (Sample.sample_env []) 0%N Sample.two_inputs
                   (to_path "model.onnx") default_options Sample.world0)) = false.
Proof.
  destruct (optimize_raises_on_unset_input_names (Sample.sample_env []) default_options
              eq_refl) as (_ & H2 & _ & H4).
  split; [reflexivity|]. split.
  - apply (H2 None Sample.add_graph Sample.add_graph). reflexivity.
  - apply H4.
Defined.

(** ** Name overrides whose count does not match *)

Lemma rename_graph_inputs_mismatch (env : TorchEnv) (o : _ExporterOptions)
    (sid : option TorchValueID) (gr : Graph) (names : list string) :
  input_names o = Some names ->
  length (Torch.graph_inputs gr)
    <> length names + match sid with None => 0 | Some _ => 1 end ->
  Convert.rename_graph_inputs env o sid gr = Raise (AssertionError "input_names").
Proof.
  intros Hn Hlen. unfold Convert.rename_graph_inputs. rewrite Hn. simpl.
  rewrite py_assert_false; [reflexivity|].
  now apply Nat.eqb_neq.
Qed.

(** The lowering functions play no part before [generate_onnx]. *)
Lemma run_trace_with_lowerings (env : TorchEnv) reg pyf o model ins gl :
  Convert._run_trace (with_lowerings env reg pyf) o model ins gl
  = Convert._run_trace env o model ins gl.
Proof. reflexivity. Qed.

Lemma try_block_with_lowerings (env : TorchEnv) reg pyf o model ins gl :
  (forall gl', is_OK (snd (Convert._run_trace env o model ins gl')) = false) ->
  Convert.try_block (with_lowerings env reg pyf) o model ins gl
  = Convert.try_block env o model ins gl.
Proof.
  intros Hfail. unfold Convert.try_block.
  change (select_model_mode_for_export (with_lowerings env reg pyf))
    with (select_model_mode_for_export env).
  change (Convert._set_opset_version (with_lowerings env reg pyf))
    with (Convert._set_opset_version env).
  destruct (in_onnx_export gl); [reflexivity|].
  destruct (select_model_mode_for_export env model (training o)); [|reflexivity].
  destruct (Convert._set_opset_version env _ _) as [gl2|]; [|reflexivity].
  rewrite run_trace_with_lowerings.
  match goal with |- context [Convert._run_trace env o model ins ?g0] =>
    specialize (Hfail g0); destruct (Convert._run_trace env o model ins g0) as [gl5 r] end.
  simpl in Hfail. destruct r; [discriminate|reflexivity].
Qed.

Lemma export_with_lowerings (env : TorchEnv) reg pyf o model ins f w :
  (forall gl', is_OK (snd (Convert._run_trace env o model ins gl')) = false) ->
  Convert.export (with_lowerings env reg pyf) model ins f o w
  = Convert.export env model ins f o w.
Proof.
  intros Hfail. unfold Convert.export, Convert._Exporter_init, Convert._convert.
  change (register_version (with_lowerings env reg pyf)) with (register_version env).
  destruct (register_version env (opset_version o)); [|reflexivity].
  rewrite try_block_with_lowerings by assumption.
  destruct (Convert.try_block env o model ins (globals w)) as [[s gl1] r] eqn:E.
  change (Convert.finally_block (with_lowerings env reg pyf))
    with (Convert.finally_block env).
  destruct (Convert.finally_block env s gl1) as [gl2 fin].
  assert (is_OK r = false) as Hr.
  { destruct r as [c|e]; [|reflexivity].
    destruct (try_block_OK_inv env o model ins (globals w) c) as (gl' & ex & H1 & _).
    - now rewrite E.
    - specialize (Hfail gl'). now rewrite H1 in Hfail. }
  destruct r; [discriminate|]. destruct fin; reflexivity.
Qed.

Lemma override_outputs_zip (names : list string)
    (outs : list Value) (idx : nat) (tab : gmap TorchValueID ONNXValueID) :
  Emission.override_outputs names outs idx tab
  = fold_left (fun t vn => <[ _unique_id (fst vn) := snd vn ]> t)
              (zip outs (drop idx names)) tab.
Proof.
  revert idx tab. induction outs as [|v outs IH]; intros idx tab; simpl.
  - reflexivity.
  - destruct (Nat.leb (length names) idx) eqn:E.
    + apply Nat.leb_le in E. rewrite drop_ge by lia. reflexivity.
    + apply Nat.leb_gt in E.
      destruct (names !! idx) as [nm|] eqn:En.
      * rewrite (drop_S names nm idx En). simpl. apply IH.
      * apply lookup_ge_None in En. lia.
Qed.

Lemma fold_insert_not_in (l : list (Value * string))
    (tab : gmap TorchValueID ONNXValueID) (id : TorchValueID) :
  id ∉ map fst l ->
  fold_left (fun t vn => <[ _unique_id (fst vn) := snd vn ]> t) l tab !! id = tab !! id.
Proof.
  revert tab. induction l as [|[v nm] l IH]; intros tab Hnot; simpl; [reflexivity|].
  simpl in Hnot. apply not_elem_of_cons in Hnot as [Hne Hnot].
  rewrite IH by assumption. unfold _unique_id. now rewrite lookup_insert_ne.
Qed.

Lemma fold_insert_nodup (l : list (Value * string))
    (tab : gmap TorchValueID ONNXValueID) (i : nat) (v : Value) (nm : string) :
  NoDup (map fst l) -> l !! i = Some (v, nm) ->
  fold_left (fun t vn => <[ _unique_id (fst vn) := snd vn ]> t) l tab !! v = Some nm.
Proof.
  revert tab i. induction l as [|[v' nm'] l IH]; intros tab i Hnd Hi; [discriminate|].
  simpl in *. apply NoDup_cons in Hnd as [Hnot Hnd].
  destruct i as [|i]; simpl in Hi.
  - injection Hi as -> ->. rewrite fold_insert_not_in by assumption.
    unfold _unique_id. apply lookup_insert_eq.
  - eapply IH; eauto.
Qed.

Lemma map_fst_zip {A B} (l : list A) (k : list B) :
  map fst (zip l k) = take (length k) l.
Proof.
  revert k. induction l as [|x l IH]; intros [|y k]; simpl; try reflexivity.
  now rewrite IH.
Qed.

(** C6. Supplied [input_names] whose count differs from the number of
    graph inputs other than [self] make [optimize] fail its assertion, so
    the export raises, writes nothing, and is the same whatever lowering
    functions are registered: it fails before any lowering.  Supplied
    [output_names] whose count differs from the number of graph outputs
    only add a warning: the names are given to the outputs position by
    position, over the shorter of the two lists. *)
Theorem name_count_mismatch (env : TorchEnv) (o : _ExporterOptions) :
  (forall names sid graph g14,
     input_names o = Some names ->
     Convert.optimize_passes env o graph = OK g14 ->
     length (Torch.graph_inputs g14)
       <> length names + match sid with None => 0 | Some _ => 1 end ->
     Convert.optimize env o sid graph = Raise (AssertionError "input_names"))
  /\ (forall names model args f w,
        input_names o = Some names ->
        (forall gl traced sid g14,
           snd (jit_trace env model args o gl) = OK traced ->
           Convert.self_id_of (tr_inlined_graph traced) = OK sid ->
           Convert.optimize_passes env o (tr_inlined_graph traced) = OK g14 ->
           length (Torch.graph_inputs g14)
             <> length names + match sid with None => 0 | Some _ => 1 end) ->
        is_OK (snd (Convert.export env model args f o w)) = false
        /\ nothing_written w (fst (Convert.export env model args f o w))
        /\ forall reg pyf,
             Convert.export (with_lowerings env reg pyf) model args f o w
             = Convert.export env model args f o w)
  /\ (forall names b tab,
        let r := Emission.apply_output_names names b tab in
        snd r = (if Nat.eqb (length names) (length (b_outputs b))
                 then [] else [Emission.output_names_warning])
        /\ fst r = fold_left (fun t vn => <[ _unique_id (fst vn) := snd vn ]> t)
                             (zip (b_outputs b) names) tab
        /\ (forall i v nm,
              NoDup (b_outputs b) ->
              b_outputs b !! i = Some v -> names !! i = Some nm ->
              fst r !! _unique_id v = Some nm)
        /\ (forall id,
              id ∉ take (length names) (b_outputs b) -> fst r !! id = tab !! id)).
Proof.
  split; [|split].
  - intros names sid graph g14 Hn Hp Hlen. unfold Convert.optimize. rewrite Hp. simpl.
    eapply rename_graph_inputs_mismatch; eauto.
  - intros names model args f w Hn Hmis.
    assert (Hfail : forall gl', is_OK (snd (Convert._run_trace env o model args gl')) = false).
    { intros gl'. destruct (snd (Convert._run_trace env o model args gl')) as [ex|e] eqn:E;
        [|reflexivity].
      apply run_trace_OK_inv in E as (traced & sid & gr' & H1 & H2 & H3 & _).
      unfold Convert.optimize in H3. inv_bind H3.
      rewrite (rename_graph_inputs_mismatch env o sid a names Hn) in H3_r;
        [discriminate|]. eapply Hmis; eauto. }
    assert (Hinit : is_OK (snd (Convert._Exporter_init env o model args w)) = false).
    { destruct (snd (Convert._Exporter_init env o model args w)) as [c|e] eqn:E;
        [|reflexivity].
      apply init_OK_inv in E as (gl' & ex & H1 & _).
      specialize (Hfail gl'). now rewrite H1 in Hfail. }
    destruct (export_of_failed_init env model args f o w Hinit) as [Hres Hw].
    split; [|split].
    + rewrite Hres. destruct (snd (Convert._Exporter_init env o model args w));
        [discriminate|reflexivity].
    + exact Hw.
    + intros reg pyf. now apply export_with_lowerings.
  - intros names b tab. cbv zeta. unfold Emission.apply_output_names. simpl.
    rewrite override_outputs_zip. rewrite drop_0.
    split; [|split; [|split]].
    + destruct (Nat.eqb (length names) (length (b_outputs b))); reflexivity.
    + reflexivity.
    + intros i v nm Hnd Hv Hnm. unfold _unique_id at 1.
      apply (fold_insert_nodup _ tab i v nm).
      * rewrite map_fst_zip. eapply sublist_NoDup; [exact Hnd|apply sublist_take].
      * rewrite lookup_zip_with. rewrite Hv. simpl. rewrite Hnm. reflexivity.
    + intros id Hnot. apply fold_insert_not_in. now rewrite map_fst_zip.
Qed.

Lemma name_count_mismatch_witness :
  let env := Sample.sample_env [] in
  let o := Sample.options (Some ["x"]) (Some ["out"]) ONNX in
  Convert.optimize env o None Sample.add_graph = Raise (AssertionError "input_names")
  /\ is_OK (snd (Convert.export env 0%N Sample.two_inputs (to_path "model.onnx") o
                   Sample.world0)) = false
  /\ nothing_written Sample.world0
       (fst (Convert.export env 0%N Sample.two_inputs (to_path "model.onnx") o
               Sample.world0))
  /\ fst (Emission.apply_output_names ["out"] (g_block Sample.relu_graph) ∅) !! 2%N
     = Some "out"
  /\ snd (Emission.apply_output_names ["out"] (g_block Sample.relu_graph) ∅)
     = [Emission.output_names_warning].
Proof.
  cbv zeta.
  destruct (name_count_mismatch (Sample.sample_env [])
              (Sample.options (Some ["x"]) (Some ["out"]) ONNX)) as (H1 & H2 & H3).
  split; [|split; [|split; [|split]]].
  - apply (H1 ["x"] None Sample.add_graph Sample.add_graph).
    + reflexivity.
    + reflexivity.
    + vm_compute. lia.
  - apply (H2 ["x"] 0%N Sample.two_inputs (to_path "model.onnx") Sample.world0).
    + reflexivity.
    + intros gl traced sid g14 Ht Hs Hp.
      vm_compute in Ht. inversion Ht; subst traced; clear Ht.
      vm_compute in Hs. inversion Hs; subst sid; clear Hs.
      vm_compute in Hp. inversion Hp; subst g14; clear Hp.
      vm_compute. lia.
  - apply (H2 ["x"] 0%N Sample.two_inputs (to_path "model.onnx") Sample.world0).
    + reflexivity.
    + intros gl traced sid g14 Ht Hs Hp.
      vm_compute in Ht. inversion Ht; subst traced; clear Ht.
      vm_compute in Hs. inversion Hs; subst sid; clear Hs.
      vm_compute in Hp. inversion Hp; subst g14; clear Hp.
      vm_compute. lia.
  - destruct (H3 ["out"] (g_block Sample.relu_graph) ∅) as (_ & _ & Hpos & _).
    apply (Hpos 0 2%N "out").
    + unfold b_outputs. simpl. apply NoDup_cons. split.
      * rewrite list_elem_of_singleton. discriminate.
      * apply NoDup_singleton.
    + reflexivity.
    + reflexivity.
  - destruct (H3 ["out"] (g_block Sample.relu_graph) ∅) as (Hw & _).
    exact Hw.
Defined.

Lemma export_restores_flags_witness :
  let env := Sample.sample_env [] in
  let o := Sample.options (Some ["x"]) (Some ["out"]) ONNX in
  supported_opset env (_export_onnx_opset_version (globals Sample.world0)) = true
  /\ is_OK (snd (Convert.export env 2%N Sample.one_input (to_path "model.onnx") o
                   Sample.world0)) = false
  /\ same_flags
       (globals (fst (Convert.export env 2%N Sample.one_input (to_path "model.onnx") o
                        Sample.world0)))
       (globals Sample.world0)
  /\ same_flags
       (globals (fst (Convert.export env 0%N Sample.two_inputs (to_path "model.onnx")
                        (Sample.options (Some ["x"; "w"]) (Some ["out"]) ONNX)
                        Sample.world0)))
       (globals Sample.world0).
Proof.
  cbv zeta. split; [reflexivity|]. split; [reflexivity|]. split.
  - apply export_restores_flags. reflexivity.
  - apply export_restores_flags. reflexivity.
Defined.

(** ** Structural induction on nodes and blocks *)

Lemma Node_Block_ind (P : Node -> Prop) (Q : Block -> Prop) :
  (forall i bs, Forall Q bs -> P (mkNode i bs)) ->
  (forall p ns r, Forall P ns -> Q (mkBlock p ns r)) ->
  (forall n, P n) /\ (forall b, Q b).
Proof.
  intros HN HB.
  assert (Hn : forall n, P n).
  { exact (fix fn (n : Node) : P n :=
             match n with
             | mkNode i bs =>
                 HN i bs
                   ((fix go (bs : list Block) : Forall Q bs :=
                       match bs with
                       | [] => @List.Forall_nil _ Q
                       | b :: bs' =>
                           @List.Forall_cons _ Q b bs'
                             (match b with
                              | mkBlock p ns r =>
                                  HB p ns r
                                    ((fix gn (ns : list Node) : Forall P ns :=
                                        match ns with
                                        | [] => @List.Forall_nil _ P
                                        | n' :: ns' => @List.Forall_cons _ P n' ns' (fn n') (gn ns')
                                        end) ns)
                              end)
                             (go bs')
                       end) bs)
             end). }
  split; [exact Hn|].
  intros [p ns r]. apply HB. apply Forall_forall. intros n _. apply Hn.
Qed.

(** ** Uses and their replacement *)

Lemma app_nil_both {A} (l l' : list A) : l = [] -> l' = [] -> l ++ l' = [].
Proof. intros -> ->. reflexivity. Qed.

Lemma flat_map_nil_iff {A B} (f : A -> list B) (l : list A) :
  flat_map f l = [] <-> Forall (fun x => f x = []) l.
Proof.
  induction l as [|x l IH]; simpl.
  - split; auto.
  - split.
    + intros H. apply app_eq_nil in H as [H1 H2]. constructor; [auto|now apply IH].
    + intros H. inversion H; subst. rewrite H2. simpl. now apply IH.
Qed.

Lemma offsets_from_subst_other (old new w : Value) (k : nat) (vs : list Value) :
  w <> old -> w <> new ->
  Torch.offsets_from k w (map (Torch.subst_value old new) vs) = Torch.offsets_from k w vs.
Proof.
  intros Ho Hn. revert k. induction vs as [|v vs IH]; intros k; simpl; [reflexivity|].
  rewrite IH. f_equal. unfold Torch.subst_value.
  destruct (N.eqb_spec v old) as [->|Hv].
  - destruct (N.eqb_spec new w); [congruence|].
    destruct (N.eqb_spec old w); [congruence|reflexivity].
  - reflexivity.
Qed.

Lemma offsets_from_subst_old (old new : Value) (k : nat) (vs : list Value) :
  old <> new ->
  Torch.offsets_from k old (map (Torch.subst_value old new) vs) = [].
Proof.
  intros Hne. revert k. induction vs as [|v vs IH]; intros k; simpl; [reflexivity|].
  rewrite IH. unfold Torch.subst_value.
  destruct (N.eqb_spec v old) as [->|Hv].
  - destruct (N.eqb_spec new old); [congruence|reflexivity].
  - destruct (N.eqb_spec v old); [congruence|reflexivity].
Qed.

Lemma offsets_from_subst_new (old new : Value) (k : nat) (vs : list Value) :
  old <> new ->
  length (Torch.offsets_from k new (map (Torch.subst_value old new) vs))
  = length (Torch.offsets_from k new vs) + length (Torch.offsets_from k old vs).
Proof.
  intros Hne. revert k. induction vs as [|v vs IH]; intros k; simpl; [reflexivity|].
  rewrite !length_app, IH. unfold Torch.subst_value.
  destruct (N.eqb_spec v old) as [->|Hv].
  - rewrite N.eqb_refl. destruct (N.eqb_spec old new); [congruence|]. simpl. lia.
  - destruct (N.eqb_spec v new); simpl; lia.
Qed.

Lemma offsets_from_subst_keeps_nil (old new w : Value) (k : nat) (vs : list Value) :
  w <> new -> Torch.offsets_from k w vs = [] ->
  Torch.offsets_from k w (map (Torch.subst_value old new) vs) = [].
Proof.
  intros Hn. revert k. induction vs as [|v vs IH]; intros k H; simpl in *; [reflexivity|].
  apply app_eq_nil in H as [H1 H2]. rewrite (IH _ H2). rewrite app_nil_r.
  unfold Torch.subst_value.
  destruct (N.eqb_spec v old) as [->|Hv].
  - destruct (N.eqb_spec new w); [congruence|reflexivity].
  - exact H1.
Qed.

Lemma uses_in_length (v : Value) (i : NodeInfo) :
  length (Torch.uses_in v i) = length (Torch.offsets_from 0 v (inputs i)).
Proof. unfold Torch.uses_in. apply length_map. Qed.

Lemma uses_in_nil (v : Value) (i : NodeInfo) :
  Torch.uses_in v i = [] <-> Torch.offsets_from 0 v (inputs i) = [].
Proof.
  unfold Torch.uses_in. split; intros H.
  - destruct (Torch.offsets_from 0 v (inputs i)); [reflexivity|discriminate].
  - now rewrite H.
Qed.

(** A value without uses stays so when uses are redirected to another
    value. *)
Lemma rauw_keeps_unused (old new w : Value) :
  w <> new ->
  (forall n, Torch.node_uses w n = [] -> Torch.node_uses w (Torch.rauw_node old new n) = [])
  /\ (forall b, Torch.block_uses w b = [] ->
        Torch.block_uses w (Torch.rauw_block old new b) = []).
Proof.
  intros Hn. apply Node_Block_ind.
  - intros i bs IH H. simpl in *. apply app_eq_nil in H as [H1 H2].
    apply app_nil_both.
    + apply uses_in_nil. simpl. apply offsets_from_subst_keeps_nil; [auto|].
      now apply uses_in_nil.
    + apply flat_map_nil_iff. apply flat_map_nil_iff in H2.
      apply Forall_map. rewrite Forall_forall in *. intros b Hb. apply IH; auto.
  - intros p ns r IH H. simpl in *. apply app_eq_nil in H as [H1 H2].
    apply app_nil_both.
    + apply flat_map_nil_iff. apply flat_map_nil_iff in H1.
      apply Forall_map. rewrite Forall_forall in *. intros n Hin. apply IH; auto.
    + apply uses_in_nil. simpl. apply offsets_from_subst_keeps_nil; [auto|].
      now apply uses_in_nil.
Qed.

Lemma rauw_old_unused (old new : Value) :
  old <> new ->
  (forall n, Torch.node_uses old (Torch.rauw_node old new n) = [])
  /\ (forall b, Torch.block_uses old (Torch.rauw_block old new b) = []).
Proof.
  intros Hne. apply Node_Block_ind.
  - intros i bs IH. simpl. apply app_nil_both.
    + apply uses_in_nil. simpl. now apply offsets_from_subst_old.
    + apply flat_map_nil_iff. apply Forall_map. exact IH.
  - intros p ns r IH. simpl. apply app_nil_both.
    + apply flat_map_nil_iff. apply Forall_map. exact IH.
    + apply uses_in_nil. simpl. now apply offsets_from_subst_old.
Qed.

Lemma rauw_other_uses (old new w : Value) :
  w <> old -> w <> new ->
  (forall n, Torch.node_uses w (Torch.rauw_node old new n) = Torch.node_uses w n)
  /\ (forall b, Torch.block_uses w (Torch.rauw_block old new b) = Torch.block_uses w b).
Proof.
  intros Ho Hn. apply Node_Block_ind.
  - intros i bs IH. simpl. f_equal.
    + unfold Torch.uses_in. simpl. now rewrite offsets_from_subst_other.
    + induction IH as [|b bs Hb _ IHbs]; simpl; [reflexivity|]. now rewrite Hb, IHbs.
  - intros p ns r IH. simpl. f_equal.
    + induction IH as [|n ns Hb _ IHns]; simpl; [reflexivity|]. now rewrite Hb, IHns.
    + unfold Torch.uses_in. simpl. now rewrite offsets_from_subst_other.
Qed.

Lemma rauw_new_uses (old new : Value) :
  old <> new ->
  (forall n, length (Torch.node_uses new (Torch.rauw_node old new n))
             = length (Torch.node_uses new n) + length (Torch.node_uses old n))
  /\ (forall b, length (Torch.block_uses new (Torch.rauw_block old new b))
                = length (Torch.block_uses new b) + length (Torch.block_uses old b)).
Proof.
  intros Hne. apply Node_Block_ind.
  - intros i bs IH. simpl. rewrite !length_app, !uses_in_length. simpl.
    rewrite offsets_from_subst_new by assumption.
    enough (length (flat_map (Torch.block_uses new) (map (Torch.rauw_block old new) bs))
            = length (flat_map (Torch.block_uses new) bs)
              + length (flat_map (Torch.block_uses old) bs)) by lia.
    induction IH as [|b bs Hb _ IHbs]; simpl; [reflexivity|].
    rewrite !length_app. lia.
  - intros p ns r IH. simpl. rewrite !length_app, !uses_in_length. simpl.
    rewrite offsets_from_subst_new by assumption.
    enough (length (flat_map (Torch.node_uses new) (map (Torch.rauw_node old new) ns))
            = length (flat_map (Torch.node_uses new) ns)
              + length (flat_map (Torch.node_uses old) ns)) by lia.
    induction IH as [|n ns Hb _ IHns]; simpl; [reflexivity|].
    rewrite !length_app. lia.
Qed.

(** [replaceAllUsesWith] keeps the nodes, their identities and outputs. *)
Lemma find_rauw (old new : Value) (id : N) :
  (forall n, Torch.find_in_node id (Torch.rauw_node old new n)
             = option_map (Torch.rauw_node old new) (Torch.find_in_node id n))
  /\ (forall b, Torch.find_in_block id (Torch.rauw_block old new b)
                = option_map (Torch.rauw_node old new) (Torch.find_in_block id b)).
Proof.
  apply Node_Block_ind.
  - intros i bs IH. simpl. destruct (N.eqb (nid i) id); [reflexivity|].
    induction IH as [|b bs Hb _ IHbs]; simpl; [reflexivity|].
    rewrite Hb. destruct (Torch.find_in_block id b); simpl; [reflexivity|exact IHbs].
  - intros p ns r IH. simpl.
    induction IH as [|n ns Hn _ IHns]; simpl; [reflexivity|].
    rewrite Hn. destruct (Torch.find_in_node id n); simpl; [reflexivity|exact IHns].
Qed.

(** ** The dispatcher [run_symbolic_function] *)

Lemma setDebugName_block (env : TorchEnv) v nm gr :
  g_block (Lowering.setDebugName env v nm gr) = g_block gr.
Proof. reflexivity. Qed.

Lemma copyMetadata_block (env : TorchEnv) new old gr :
  g_block (Lowering.copyMetadata env new old gr) = g_block gr.
Proof.
  unfold Lowering.copyMetadata. destruct (g_names gr !! old); reflexivity.
Qed.

Lemma replace_output_inv (env : TorchEnv) gr old new gr' :
  Lowering.replace_output env gr (old, new) = OK gr' ->
  g_block gr' = Torch.rauw_block old new (g_block gr)
  /\ Torch.uses gr' old = [].
Proof.
  unfold Lowering.replace_output. intros H. inv_bind H. injection H_r as <-.
  apply py_assert_OK_inv in H_l. apply Nat.eqb_eq in H_l.
  unfold Torch.uses in *. rewrite copyMetadata_block. simpl in *.
  split; [reflexivity|]. now apply length_zero_iff_nil.
Qed.

(** The loop over [zip(n.outputs(), sym_outs)] keeps a value unused that
    is none of the new outputs. *)
Lemma replace_loop_keeps_unused (env : TorchEnv) (w : Value)
    (ps : list (Value * Value)) (gr gr' : Graph) :
  Forall (fun p => snd p <> w) ps ->
  Torch.uses gr w = [] ->
  foldM (Lowering.replace_output env) ps gr = OK gr' ->
  Torch.uses gr' w = [].
Proof.
  revert gr. induction ps as [|[old new] ps IH]; intros gr Hps Hw H; simpl in H.
  - congruence.
  - inv_bind H. inversion Hps as [|? ? Hp Hps']; subst. simpl in Hp.
    apply replace_output_inv in H_l as [Hb _].
    apply (IH a); auto.
    unfold Torch.uses in *. rewrite Hb.
    apply (proj2 (rauw_keeps_unused old new w (not_eq_sym Hp))). exact Hw.
Qed.

Lemma replace_loop_old_unused (env : TorchEnv) (ps : list (Value * Value))
    (gr gr' : Graph) :
  (forall o n, (o, n) ∈ ps -> forall o' n', (o', n') ∈ ps -> n' <> o) ->
  foldM (Lowering.replace_output env) ps gr = OK gr' ->
  forall o n, (o, n) ∈ ps -> Torch.uses gr' o = [].
Proof.
  revert gr. induction ps as [|[old new] ps IH]; intros gr Hsep H o n Hin; simpl in H.
  - inversion Hin.
  - inv_bind H. apply elem_of_cons in Hin as [Heq|Hin].
    + injection Heq as -> ->.
      apply replace_output_inv in H_l as [_ Hu].
      apply (replace_loop_keeps_unused env old ps a gr'); auto.
      apply Forall_forall. intros [o' n'] Hin'. simpl.
      eapply Hsep; [left|right; exact Hin'].
    + apply (IH a) with (n := n); auto.
      intros o1 n1 H1 o2 n2 H2. eapply Hsep; right; eassumption.
Qed.

Lemma replace_loop_find (env : TorchEnv) (id : N) (ps : list (Value * Value))
    (gr gr' : Graph) (n : Node) :
  foldM (Lowering.replace_output env) ps gr = OK gr' ->
  Torch.find_node gr id = Some n ->
  exists n', Torch.find_node gr' id = Some n'
             /\ outputs (info n') = outputs (info n)
             /\ kind (info n') = kind (info n).
Proof.
  revert gr n. induction ps as [|[old new] ps IH]; intros gr n H Hf; simpl in H.
  - injection H as <-. eauto.
  - inv_bind H. apply replace_output_inv in H_l as [Hb _].
    apply (IH a (Torch.rauw_node old new n)) in H_r.
    + destruct H_r as (n' & H1 & H2 & H3). exists n'. split; [exact H1|].
      rewrite H2, H3. destruct n; simpl. auto.
    + unfold Torch.find_node in *. rewrite Hb.
      rewrite (proj2 (find_rauw old new id)). now rewrite Hf.
Qed.

Lemma tag_node_keeps_graph (env : TorchEnv) sc tn ex sym_nd ex' :
  Lowering.tag_node env sc tn ex sym_nd = OK ex' -> g ex' = g ex.
Proof.
  unfold Lowering.tag_node. intros [= <-].
  destruct (negb (strip_doc_string (opts ex))); reflexivity.
Qed.

Lemma log_keeps_graph title body dbg ex : g (Lowering.log title body dbg ex) = g ex.
Proof.
  unfold Lowering.log.
  destruct (negb _); [reflexivity|]. destruct (strip_doc_string _); reflexivity.
Qed.

Lemma get_node_OK gr id n : Lowering.get_node gr id = OK n <-> Torch.find_node gr id = Some n.
Proof.
  unfold Lowering.get_node. destruct (Torch.find_node gr id); split; congruence.
Qed.

(** What a successful [splice_outputs] went through. *)
Lemma splice_outputs_OK_inv (env : TorchEnv) id g1 sym_outs ex ex' :
  Lowering.splice_outputs env id g1 sym_outs ex = OK ex' ->
  exists n1,
    Lowering.get_node g1 id = OK n1
    /\ length sym_outs = outputsSize n1
    /\ foldM (Lowering.replace_output env) (zip (outputs (info n1)) sym_outs) g1
       = OK (g ex').
Proof.
  unfold Lowering.splice_outputs. intros H.
  inv_bind H. rename a into n1. inv_bind H_r. inv_bind H_r_r. rename a0 into sym_nodes.
  inv_bind H_r_r_r. rename a0 into ex3. inv_bind H_r_r_r_r. injection H_r_r_r_r_r as <-.
  exists n1. split; [assumption|]. split.
  - apply py_assert_OK_inv in H_r_l. now apply Nat.eqb_eq in H_r_l.
  - simpl.
    assert (Hg : g ex3 = g1).
    { eapply (foldM_invariant (fun e => g e = g1)); [| |exact H_r_r_r_l].
      - intros st x st' Hst Hb. apply tag_node_keeps_graph in Hb. congruence.
      - destruct (Nat.ltb 0 (length sym_nodes)); rewrite ?log_keeps_graph; reflexivity. }
    now rewrite Hg in H_r_r_r_r_l.
Qed.

Lemma run_symbolic_function_OK_inv (env : TorchEnv) ref id sym ex ex' :
  Lowering.run_symbolic_function env ref id sym ex = OK ex' ->
  exists g1 outs,
    Lowering.call_sym_func ref id sym ex = OK (g1, outs)
    /\ Lowering.splice_outputs env id g1 (Lowering.list_of_outs outs) ex = OK ex'.
Proof.
  unfold Lowering.run_symbolic_function. intros H. inv_bind H. destruct a as [g1 outs].
  eauto.
Qed.

(** C1. The lowering function called by [run_symbolic_function] must
    return as many values as the node has outputs: a run that succeeds
    passed that check and leaves the node with the same number of
    outputs, and a different count fails with the arity assertion. *)
Theorem lowering_preserves_arity (env : TorchEnv) (ref : BlockRef) (id : N)
    (sym : SymFunc) (ex : Exporter) :
  (forall ex',
     Lowering.run_symbolic_function env ref id sym ex = OK ex' ->
     exists g1 outs n1 n',
       Lowering.call_sym_func ref id sym ex = OK (g1, outs)
       /\ Lowering.get_node g1 id = OK n1
       /\ length (Lowering.list_of_outs outs) = outputsSize n1
       /\ Lowering.get_node (g ex') id = OK n'
       /\ outputsSize n' = outputsSize n1)
  /\ (forall g1 outs n1,
        Lowering.call_sym_func ref id sym ex = OK (g1, outs) ->
        Lowering.get_node g1 id = OK n1 ->
        length (Lowering.list_of_outs outs) <> outputsSize n1 ->
        Lowering.run_symbolic_function env ref id sym ex
        = Raise (AssertionError "arity")).
Proof.
  split.
  - intros ex' H.
    apply run_symbolic_function_OK_inv in H as (g1 & outs & Hcall & Hsplice).
    apply splice_outputs_OK_inv in Hsplice as (n1 & Hn1 & Hlen & Hloop).
    pose proof Hn1 as Hf. apply get_node_OK in Hf.
    destruct (replace_loop_find env id _ g1 (g ex') n1 Hloop Hf) as (n' & Hn' & Ho & _).
    exists g1, outs, n1, n'. repeat split; auto.
    + now apply get_node_OK.
    + unfold outputsSize. now rewrite Ho.
  - intros g1 outs n1 Hcall Hn1 Hlen.
    unfold Lowering.run_symbolic_function. rewrite Hcall. simpl.
    unfold Lowering.splice_outputs. rewrite Hn1. simpl.
    rewrite py_assert_false; [reflexivity|]. now apply Nat.eqb_neq.
Qed.

(** C2. After [run_symbolic_function] has returned, none of the old
    outputs of the node has a use left anywhere in the graph, the new
    outputs being values other than the node's own outputs.  One turn of
    the replacement loop moves every use of the old output to the new one
    and touches no other use. *)
Theorem lowered_outputs_have_no_uses (env : TorchEnv) (ref : BlockRef) (id : N)
    (sym : SymFunc) (ex ex' : Exporter) (g1 : Graph) (outs : SymOuts) (n1 : Node) :
  Lowering.call_sym_func ref id sym ex = OK (g1, outs) ->
  Lowering.get_node g1 id = OK n1 ->
  Forall (fun v => v ∉ outputs (info n1)) (Lowering.list_of_outs outs) ->
  Lowering.run_symbolic_function env ref id sym ex = OK ex' ->
  (forall o, o ∈ outputs (info n1) -> Torch.uses (g ex') o = [])
  /\ (forall gr old new gr',
        Lowering.replace_output env gr (old, new) = OK gr' -> old <> new ->
        Torch.uses gr' old = []
        /\ length (Torch.uses gr' new)
           = length (Torch.uses gr new) + length (Torch.uses gr old)
        /\ forall w, w <> old -> w <> new -> Torch.uses gr' w = Torch.uses gr w).
Proof.
  intros Hcall Hn1 Hfresh Hrun. split.
  - intros o Ho.
    unfold Lowering.run_symbolic_function in Hrun. rewrite Hcall in Hrun. simpl in Hrun.
    apply splice_outputs_OK_inv in Hrun as (n1' & Hn1' & Hlen & Hloop).
    rewrite Hn1 in Hn1'. injection Hn1' as <-.
    apply list_elem_of_lookup in Ho as [i Hi].
    assert (Hlt : i < length (Lowering.list_of_outs outs)).
    { rewrite Hlen. unfold outputsSize. now apply lookup_lt_Some in Hi. }
    apply lookup_lt_is_Some in Hlt as [nw Hnw].
    apply (replace_loop_old_unused env
             (zip (outputs (info n1)) (Lowering.list_of_outs outs)) g1 (g ex'))
      with (n := nw); [|exact Hloop|].
    + intros o1 m1 H1 o2 m2 H2 Heq. subst m2.
      apply elem_of_zip_l in H1. apply elem_of_zip_r in H2.
      rewrite Forall_forall in Hfresh. exact (Hfresh o1 H2 H1).
    + apply list_elem_of_lookup. exists i. rewrite lookup_zip_with, Hi. simpl.
      now rewrite Hnw.
  - intros gr old new gr' H Hne.
    apply replace_output_inv in H as [Hb Hu]. split; [exact Hu|].
    unfold Torch.uses in *. rewrite Hb. split.
    + apply (proj2 (rauw_new_uses old new Hne)).
    + intros w H1 H2. apply (proj2 (rauw_other_uses old new w H1 H2)).
Qed.

Lemma lowering_preserves_arity_witness :
  let env := Sample.sample_env [] in
  let ex := Sample.exporter_on (Sample.options (Some ["x"]) None ONNX)
              Sample.relu_graph Sample.one_input Sample.two_inputs in
  (exists ex' g1 outs n1 n',
     Lowering.run_symbolic_function env root_block 101%N Sample.relu_symbolic ex = OK ex'
     /\ Lowering.call_sym_func root_block 101%N Sample.relu_symbolic ex = OK (g1, outs)
     /\ Lowering.get_node g1 101%N = OK n1
     /\ length (Lowering.list_of_outs outs) = outputsSize n1
     /\ Lowering.get_node (g ex') 101%N = OK n'
     /\ outputsSize n' = outputsSize n1)
  /\ Lowering.run_symbolic_function env root_block 101%N Sample.two_outputs_symbolic ex
     = Raise (AssertionError "arity").
Proof.
  cbv zeta.
  pose proof (lowering_preserves_arity (Sample.sample_env []) root_block 101%N) as T.
  split.
  - destruct (T Sample.relu_symbolic
                (Sample.exporter_on (Sample.options (Some ["x"]) None ONNX)
                   Sample.relu_graph Sample.one_input Sample.two_inputs)) as [T1 _].
    destruct (Lowering.run_symbolic_function (Sample.sample_env []) root_block 101%N
                Sample.relu_symbolic
                (Sample.exporter_on (Sample.options (Some ["x"]) None ONNX)
                   Sample.relu_graph Sample.one_input Sample.two_inputs))
      as [ex'|e] eqn:E; [|vm_compute in E; discriminate].
    destruct (T1 ex' eq_refl) as (g1 & outs & n1 & n' & H).
    exists ex', g1, outs, n1, n'. split; [reflexivity|exact H].
  - destruct (T Sample.two_outputs_symbolic
                (Sample.exporter_on (Sample.options (Some ["x"]) None ONNX)
                   Sample.relu_graph Sample.one_input Sample.two_inputs)) as [_ T2].
    destruct (Lowering.call_sym_func root_block 101%N Sample.two_outputs_symbolic
                (Sample.exporter_on (Sample.options (Some ["x"]) None ONNX)
                   Sample.relu_graph Sample.one_input Sample.two_inputs))
      as [[g1 outs]|e] eqn:E; [|vm_compute in E; discriminate].
    destruct (Lowering.get_node g1 101%N) as [n1|e] eqn:En;
      [|vm_compute in E; injection E as <- <-; vm_compute in En; discriminate].
    apply (T2 g1 outs n1 eq_refl En).
    vm_compute in E. injection E as <- <-. vm_compute in En. injection En as <-.
    vm_compute. lia.
Defined.

Lemma lowered_outputs_have_no_uses_witness :
  let env := Sample.sample_env [] in
  let ex := Sample.exporter_on (Sample.options (Some ["x"]) None ONNX)
              Sample.relu_graph Sample.one_input Sample.two_inputs in
  Torch.uses (g ex) 2%N = [{| user := 102%N; offset := 0 |}]
  /\ exists ex',
       Lowering.run_symbolic_function env root_block 101%N Sample.relu_symbolic ex = OK ex'
       /\ Torch.uses (g ex') 2%N = [].
Proof.
  cbv zeta. split; [reflexivity|].
  destruct (Lowering.run_symbolic_function (Sample.sample_env []) root_block 101%N
              Sample.relu_symbolic
              (Sample.exporter_on (Sample.options (Some ["x"]) None ONNX)
                 Sample.relu_graph Sample.one_input Sample.two_inputs))
    as [ex'|e] eqn:E; [|vm_compute in E; discriminate].
  exists ex'. split; [reflexivity|].
  destruct (Lowering.call_sym_func root_block 101%N Sample.relu_symbolic
              (Sample.exporter_on (Sample.options (Some ["x"]) None ONNX)
                 Sample.relu_graph Sample.one_input Sample.two_inputs))
    as [[g1 outs]|e] eqn:Ec; [|vm_compute in Ec; discriminate].
  destruct (Lowering.get_node g1 101%N) as [n1|e] eqn:En;
    [|vm_compute in Ec; injection Ec as <- <-; vm_compute in En; discriminate].
  apply (lowered_outputs_have_no_uses (Sample.sample_env []) root_block 101%N
           Sample.relu_symbolic _ ex' g1 outs n1 Ec En).
  - vm_compute in Ec. injection Ec as <- <-. vm_compute in En. injection En as <-.
    repeat constructor. simpl. intros H.
    apply list_elem_of_In in H. simpl in H. destruct H as [H|[]]. discriminate.
  - exact E.
  - vm_compute in Ec. injection Ec as <- <-. vm_compute in En. injection En as <-.
    apply list_elem_of_In. left. reflexivity.
Defined.

(** ** Lowering keeps the options *)

Lemma log_opts title body dbg ex : opts (Lowering.log title body dbg ex) = opts ex.
Proof.
  unfold Lowering.log.
  destruct (negb _); [reflexivity|]. destruct (strip_doc_string _); reflexivity.
Qed.

Lemma splice_outputs_opts (env : TorchEnv) id g1 sym_outs ex ex' :
  Lowering.splice_outputs env id g1 sym_outs ex = OK ex' -> opts ex' = opts ex.
Proof.
  unfold Lowering.splice_outputs. intros H.
  inv_bind H. inv_bind H_r. inv_bind H_r_r. inv_bind H_r_r_r. inv_bind H_r_r_r_r.
  injection H_r_r_r_r_r as <-. simpl.
  eapply (foldM_invariant (fun e => opts e = opts ex)); [| |exact H_r_r_r_l].
  - intros st x st' Hst Hb. unfold Lowering.tag_node in Hb. injection Hb as <-.
    simpl. destruct (negb (strip_doc_string (opts st))); simpl; exact Hst.
  - destruct (Nat.ltb 0 (length a1)); rewrite ?log_opts; reflexivity.
Qed.

Lemma run_symbolic_function_opts (env : TorchEnv) ref id sym ex ex' :
  Lowering.run_symbolic_function env ref id sym ex = OK ex' -> opts ex' = opts ex.
Proof.
  intros H. apply run_symbolic_function_OK_inv in H as (g1 & outs & _ & H).
  eapply splice_outputs_opts; eauto.
Qed.

Lemma handle_getattr_opts ref id ex ex' :
  Lowering.handle_getattr ref id ex = OK ex' -> opts ex' = opts ex.
Proof.
  unfold Lowering.handle_getattr. intros H.
  inv_bind H. inv_bind H_r. inv_bind H_r_r. inv_bind H_r_r_r.
  destruct (vars _ !! _); injection H_r_r_r_r as <-; reflexivity.
Qed.

Lemma generate_onnx_node_opts (env : TorchEnv) (depth : nat) :
  forall ref id ex ex',
    Lowering.generate_onnx_node env depth ref id ex = OK ex' -> opts ex' = opts ex.
Proof.
  induction depth as [|depth IH]; intros ref id ex ex' H; simpl in H; [discriminate|].
  inv_bind H. rename a into n.
  destruct (String.eqb (kind (info n)) "prim::Constant").
  { unfold Lowering.handle_constant in H_r. inv_bind H_r.
    destruct (negb _); [now injection H_r_r as <-|].
    eapply run_symbolic_function_opts; eauto. }
  destruct (String.eqb (kind (info n)) "prim::GetAttr").
  { eapply handle_getattr_opts; eauto. }
  destruct (String.eqb (kind (info n)) "prim::ListConstruct").
  { unfold Lowering.handle_list_construct in H_r.
    inv_bind H_r. inv_bind H_r_r. inv_bind H_r_r_r.
    destruct (_ && _); eapply run_symbolic_function_opts; eauto. }
  destruct (String.eqb (kind (info n)) "prim::If").
  { unfold Lowering.handle_if in H_r. inv_bind H_r. inv_bind H_r_r.
    injection H_r_r_r as <-.
    assert (opts a0 = opts ex) as Ha0.
    { eapply (foldM_invariant (fun e => opts e = opts ex)); [| |exact H_r_r_l]; [|reflexivity].
      intros st k st' Hst Hb. inv_bind Hb.
      destruct (blocks a1 !! k) as [b|]; [|discriminate].
      eapply (foldM_invariant (fun e => opts e = opts ex)); [| |exact Hb_r]; [|exact Hst].
      intros st1 x st1' Hst1 Hb1. apply IH in Hb1. congruence. }
    destruct (negb (strip_doc_string (opts a0))); simpl; exact Ha0. }
  inv_bind H_r.
  match type of H_r_r with
  | match ?f with _ => _ end = _ => destruct f; [|discriminate]
  end.
  eapply run_symbolic_function_opts; eauto.
Qed.

Lemma lower_nodes_opts (env : TorchEnv) ids ex ex' :
  Convert.lower_nodes env ids ex = OK ex' -> opts ex' = opts ex.
Proof.
  unfold Convert.lower_nodes. intros H.
  eapply (foldM_invariant (fun e => opts e = opts ex)); [| |exact H]; [|reflexivity].
  intros st x st' Hst Hb. apply generate_onnx_node_opts in Hb. congruence.
Qed.

(** ** A node without lowering function *)

Lemma not_handler_kind (k : string) :
  k ∉ handler_kinds ->
  String.eqb k "prim::Constant" = false /\ String.eqb k "prim::GetAttr" = false
  /\ String.eqb k "prim::ListConstruct" = false /\ String.eqb k "prim::If" = false.
Proof.
  intros H. unfold handler_kinds in H.
  repeat split; apply String.eqb_neq; intros ->; apply H; set_solver.
Qed.

(** In standard mode a node of no handler's kind for which
    [symbolic_function] finds nothing fails the assertion. *)
Lemma generate_onnx_node_not_found (env : TorchEnv) depth ref id ex n :
  Lowering.get_node (g ex) id = OK n ->
  kind (info n) ∉ handler_kinds ->
  Lowering.symbolic_function env ex n = OK None ->
  operator_export_type (opts ex) = ONNX ->
  Lowering.generate_onnx_node env (S depth) ref id ex
  = Raise (AssertionError (Lowering.not_found_message (kind (info n)))).
Proof.
  intros Hn Hk Hs Ht. simpl. rewrite Hn. simpl.
  destruct (not_handler_kind _ Hk) as (-> & -> & -> & ->).
  rewrite Hs. simpl. rewrite Ht. reflexivity.
Qed.

Lemma generate_writes (env : TorchEnv) m f w :
  let r := Convert.generate env m f w in
  streams (fst r) = (if is_OK (snd r)
                     then match f, SerializeToString env m with
                          | to_stream id, OK bytes =>
                              <[ id := default [] (streams w !! id) ++ bytes ]> (streams w)
                          | _, _ => streams w
                          end
                     else streams w)
  /\ (is_OK (snd r) = false ->
        files (fst r) = files w
        \/ exists p, f = to_path p /\ files (fst r) = <[ p := [] ]> (files w))
  /\ (is_OK (snd r) = true ->
        exists bytes, SerializeToString env m = OK bytes
          /\ files (fst r) = match f with
                             | to_path p => <[ p := bytes ]> (files w)
                             | to_stream _ => files w
                             end).
Proof.
  cbv zeta. unfold Convert.generate. destruct f as [p|id].
  - destruct (open_wb env p); simpl; [|repeat split; auto; discriminate].
    destruct (SerializeToString env m) as [bytes|e]; simpl.
    + repeat split; [discriminate|eauto].
    + repeat split; [eauto|discriminate].
  - destruct (SerializeToString env m) as [bytes|e]; simpl.
    + repeat split; [discriminate|eauto].
    + repeat split; [auto|discriminate].
Qed.

(** C9. In standard export mode, a node of a kind that has no handler and
    no registered lowering function makes the export raise the
    "Symbolic function ... not found" assertion with nothing written.  In
    general [export] writes only after [_Exporter] has built and checked
    the whole model: a failed export leaves the streams untouched and the
    files either untouched or, when the failure is in writing itself, the
    target path opened empty; a successful one writes the serialized
    model. *)
Theorem unknown_op_export_writes_nothing (env : TorchEnv) (model : Callable)
    (args : list Tensor) (f : OutputFile) (o : _ExporterOptions) (w : World) :
  (forall ex pre id post ex1 n,
     register_version env (opset_version o) = OK tt ->
     in_onnx_export (globals w) = false ->
     select_model_mode_for_export env model (training o) = OK tt ->
     supported_opset env (opset_version o) = true ->
     supported_opset env (_export_onnx_opset_version (globals w)) = true ->
     (forall gl, snd (Convert._run_trace env o model args gl) = OK ex) ->
     operator_export_type o = ONNX ->
     map (fun m => nid (info m)) (Torch.graph_nodes (g ex)) = pre ++ id :: post ->
     Convert.lower_nodes env pre ex = OK ex1 ->
     Lowering.get_node (g ex1) id = OK n ->
     kind (info n) ∉ handler_kinds ->
     Lowering.symbolic_function env ex1 n = OK None ->
     snd (Convert.export env model args f o w)
     = Raise (AssertionError (Lowering.not_found_message (kind (info n))))
     /\ nothing_written w (fst (Convert.export env model args f o w)))
  /\ (is_OK (snd (Convert.export env model args f o w)) = false ->
        streams (fst (Convert.export env model args f o w)) = streams w
        /\ (files (fst (Convert.export env model args f o w)) = files w
            \/ exists p, f = to_path p
                 /\ files (fst (Convert.export env model args f o w))
                    = <[ p := [] ]> (files w)))
  /\ (is_OK (snd (Convert.export env model args f o w)) = true ->
        exists ex m ws bytes,
          snd (Convert._Exporter_init env o model args w) = OK (ex, m, ws)
          /\ SerializeToString env m = OK bytes
          /\ files (fst (Convert.export env model args f o w))
             = match f with
               | to_path p => <[ p := bytes ]> (files w)
               | to_stream _ => files w
               end).
Proof.
  split; [|split].
  - intros ex pre id post ex1 n Hreg Hin Hsel Hsup Hsup0 Htrace Hmode Hnodes Hpre Hn Hk Hs.
    assert (Ho : opts ex = o).
    { specialize (Htrace (globals w)).
      apply run_trace_OK_inv in Htrace as (? & ? & ? & _ & _ & _ & _ & Ho & _). exact Ho. }
    assert (Hgen : Convert.generate_onnx env ex
                   = Raise (AssertionError (Lowering.not_found_message (kind (info n))))).
    { unfold Convert.generate_onnx. rewrite Hnodes.
      assert (Hopts : operator_export_type (opts ex1) = ONNX).
      { rewrite (lower_nodes_opts env pre ex ex1 Hpre), Ho. exact Hmode. }
      unfold Convert.lower_nodes in *.
      rewrite (foldM_raise_at _ pre post id ex ex1 _ Hpre
                 (generate_onnx_node_not_found env _ root_block id ex1 n Hn Hk Hs Hopts)).
      reflexivity. }
    assert (Htry : snd (Convert.try_block env o model args (globals w))
                   = Raise (AssertionError (Lowering.not_found_message (kind (info n))))).
    { unfold Convert.try_block. rewrite Hin, Hsel.
      unfold Convert._set_opset_version. rewrite Hsup.
      match goal with |- context [Convert._run_trace env o model args ?g0] =>
        specialize (Htrace g0);
        destruct (Convert._run_trace env o model args g0) as [gl5 r] end.
      simpl in *. subst r. simpl. exact Hgen. }
    assert (Hinit : snd (Convert._Exporter_init env o model args w)
                    = Raise (AssertionError (Lowering.not_found_message (kind (info n))))).
    { unfold Convert._Exporter_init. rewrite Hreg.
      pose proof (proj2 (convert_same_flags env o model args (globals w) Hsup0)) as Hc.
      destruct (Convert._convert env o model args (globals w)) as [gl r].
      simpl in *. congruence. }
    destruct (export_of_failed_init env model args f o w) as [Hres Hw].
    + now rewrite Hinit.
    + rewrite Hres, Hinit. auto.
  - unfold Convert.export.
    assert (Hw : nothing_written w (fst (Convert._Exporter_init env o model args w))).
    { unfold Convert._Exporter_init, nothing_written.
      destruct (register_version env (opset_version o)); [|auto].
      destruct (Convert._convert env o model args (globals w)); auto. }
    destruct (Convert._Exporter_init env o model args w) as [w1 [[[ex m] ws]|e]];
      simpl in *; destruct Hw as [Hf Hs]; [|auto].
    pose proof (generate_writes env m f w1) as Hg. cbv zeta in Hg.
    destruct (Convert.generate env m f w1) as [w2 [u|e]]; simpl in *; [discriminate|].
    intros _. destruct Hg as (H1 & H2 & _). rewrite H1, Hs, <- Hf. split; [reflexivity|].
    destruct (H2 eq_refl) as [H|(p & Hp & H)]; [left|right; exists p]; auto.
  - unfold Convert.export.
    assert (Hw : nothing_written w (fst (Convert._Exporter_init env o model args w))).
    { unfold Convert._Exporter_init, nothing_written.
      destruct (register_version env (opset_version o)); [|auto].
      destruct (Convert._convert env o model args (globals w)); auto. }
    destruct (Convert._Exporter_init env o model args w) as [w1 [[[ex m] ws]|e]];
      simpl in *; destruct Hw as [Hf Hs]; [|discriminate].
    pose proof (generate_writes env m f w1) as Hg. cbv zeta in Hg.
    destruct (Convert.generate env m f w1) as [w2 [u|e]]; simpl in *; [|discriminate].
    intros _. destruct Hg as (_ & _ & H3). destruct (H3 eq_refl) as (bytes & Hb & Hfiles).
    exists ex, m, ws, bytes. rewrite Hfiles, Hf. auto.
Qed.

Lemma unknown_op_export_writes_nothing_witness :
  let env := Sample.sample_env [] in
  let o := Sample.options (Some ["x"]) (Some ["out"]) ONNX in
  snd (Convert.export env 2%N Sample.one_input (to_path "model.onnx") o Sample.world0)
  = Raise (AssertionError "Symbolic function for aten::frobnicate not found")
  /\ nothing_written Sample.world0
       (fst (Convert.export env 2%N Sample.one_input (to_path "model.onnx") o
               Sample.world0)).
Proof.
  cbv zeta.
  destruct (unknown_op_export_writes_nothing (Sample.sample_env []) 2%N Sample.one_input
              (to_path "model.onnx") (Sample.options (Some ["x"]) (Some ["out"]) ONNX)
              Sample.world0) as (H & _ & _).
  apply (H (Sample.traced_exporter 2%N Sample.one_input
              (Sample.options (Some ["x"]) (Some ["out"]) ONNX))
           [] 101%N []
           (Sample.traced_exporter 2%N Sample.one_input
              (Sample.options (Some ["x"]) (Some ["out"]) ONNX))
           (Sample.node 101 "aten::frobnicate" [1%N] [2%N] "")).
  - reflexivity.
  - reflexivity.
  - reflexivity.
  - reflexivity.
  - reflexivity.
  - intros gl. vm_compute. reflexivity.
  - reflexivity.
  - vm_compute. reflexivity.
  - reflexivity.
  - vm_compute. reflexivity.
  - unfold handler_kinds. simpl. intros Hin.
    repeat (apply elem_of_cons in Hin as [Hin|Hin]; [discriminate|]).
    inversion Hin.
  - vm_compute. reflexivity.
Defined.

(** ** Conditionals in the emitted graph *)

Lemma mapM_length {A B} (f : A -> Result B) (xs : list A) (ys : list B) :
  Emission.mapM f xs = OK ys -> length ys = length xs.
Proof.
  revert ys. induction xs as [|x xs IH]; intros ys H; simpl in H.
  - now injection H as <-.
  - inv_bind H. inv_bind H_r. injection H_r_r as <-. simpl. f_equal. now apply IH.
Qed.

(** C3. A [prim::If] node is emitted with exactly two nested subgraphs,
    [then_branch] and [else_branch], each with as many inputs and outputs
    as its block declares; with any other number of blocks the emission
    raises. *)
Theorem if_node_two_subgraphs (env : TorchEnv) (ex : Exporter) (i : NodeInfo)
    (bs : list Block) (st : Emission.EmitState) :
  kind i = "prim::If" ->
  (forall st',
     Emission.emit_node env ex (mkNode i bs) st = OK st' ->
     exists b1 b2 g1 g2 nd,
       bs = [b1; b2]
       /\ Emission.onnx_nodes st' = Emission.onnx_nodes st ++ [nd]
       /\ np_attribute nd = [("then_branch", av_graph g1); ("else_branch", av_graph g2)]
       /\ gp_name g1 = np_name nd +:+ "_then_branch"
       /\ gp_name g2 = np_name nd +:+ "_else_branch"
       /\ length (gp_input g1) = length (b_inputs b1)
       /\ length (gp_output g1) = length (b_outputs b1)
       /\ length (gp_input g2) = length (b_inputs b2)
       /\ length (gp_output g2) = length (b_outputs b2))
  /\ (length bs <> 2 -> is_OK (Emission.emit_node env ex (mkNode i bs) st) = false)
  /\ (length bs <> 2 ->
      forall t1 t2,
        foldM (Emission.name_input ex) (inputs i) (Emission.tables st) = OK t1 ->
        foldM (Emission.name_output ex) (outputs i) t1 = OK t2 ->
        Emission.emit_node env ex (mkNode i bs) st = Raise (AssertionError "blocks")).
Proof.
  intros Hk.
  assert (Hraise : length bs <> 2 ->
            forall t1 t2,
              foldM (Emission.name_input ex) (inputs i) (Emission.tables st) = OK t1 ->
              foldM (Emission.name_output ex) (outputs i) t1 = OK t2 ->
              Emission.emit_node env ex (mkNode i bs) st
              = Raise (AssertionError "blocks")).
  { intros Hne t1 t2 H1 H2. simpl. rewrite Hk. simpl.
    unfold Emission.is_dead_constant. rewrite Hk. simpl.
    rewrite H1. simpl. rewrite H2. simpl.
    rewrite py_assert_false; [reflexivity|]. now apply Nat.eqb_neq. }
  assert (Hno : length bs <> 2 ->
            is_OK (Emission.emit_node env ex (mkNode i bs) st) = false).
  { intros Hne.
    destruct (foldM (Emission.name_input ex) (inputs i) (Emission.tables st))
      as [t1|e] eqn:E1.
    - destruct (foldM (Emission.name_output ex) (outputs i) t1) as [t2|e] eqn:E2.
      + now rewrite (Hraise Hne t1 t2 eq_refl E2).
      + simpl. rewrite Hk. simpl. unfold Emission.is_dead_constant. rewrite Hk. simpl.
        rewrite E1. simpl. rewrite E2. reflexivity.
    - simpl. rewrite Hk. simpl. unfold Emission.is_dead_constant. rewrite Hk. simpl.
      rewrite E1. reflexivity. }
  split; [|split; [exact Hno|exact Hraise]].
  intros st' H.
  assert (Hlen : length bs = 2).
  { destruct (Nat.eq_dec (length bs) 2) as [|Hne]; [assumption|].
    specialize (Hno Hne). rewrite H in Hno. discriminate. }
  clear Hno Hraise.
  destruct bs as [|b1 [|b2 [|b3 bs]]]; try discriminate. clear Hlen.
  simpl in H. rewrite Hk in H. simpl in H.
  unfold Emission.is_dead_constant in H. rewrite Hk in H. simpl in H.
  repeat (match goal with
          | Hb : (_ ≫= _) = OK _ |- _ => apply bind_OK_inv in Hb as (? & ? & Hb)
          | p : (_ * _)%type |- _ => destruct p
          end; simpl in *).
  simplify_eq.
  eexists b1, b2, _, _, _. simpl.
  split; [reflexivity|]. split; [reflexivity|]. split; [reflexivity|].
  split; [reflexivity|]. split; [reflexivity|].
  repeat split; eapply mapM_length; eassumption.
Qed.

Lemma if_node_two_subgraphs_witness :
  let env := Sample.sample_env [] in
  let ex := Sample.exporter_on (Sample.options (Some ["c"; "x"]) None ONNX)
              Sample.if_graph Sample.two_inputs Sample.one_input in
  let st := {| Emission.node_name_counter := 0; Emission.onnx_nodes := [];
               Emission.tables := {| Emission.onnx_vars := [];
                                     Emission.val_tab := ∅ |} |} in
  (exists st' b1 b2 g1 g2 nd,
     Emission.emit_node env ex Sample.if_node st = OK st'
     /\ blocks Sample.if_node = [b1; b2]
     /\ Emission.onnx_nodes st' = Emission.onnx_nodes st ++ [nd]
     /\ np_attribute nd = [("then_branch", av_graph g1); ("else_branch", av_graph g2)]
     /\ gp_name g1 = np_name nd +:+ "_then_branch"
     /\ gp_name g2 = np_name nd +:+ "_else_branch"
     /\ length (gp_input g1) = length (b_inputs b1)
     /\ length (gp_output g1) = length (b_outputs b1)
     /\ length (gp_input g2) = length (b_inputs b2)
     /\ length (gp_output g2) = length (b_outputs b2))
  /\ is_OK (Emission.emit_node env ex
              (mkNode (info Sample.if_node) (take 1 (blocks Sample.if_node))) st) = false.
Proof.
  cbv zeta. split.
  - destruct (Emission.emit_node (Sample.sample_env [])
                (Sample.exporter_on (Sample.options (Some ["c"; "x"]) None ONNX)
                   Sample.if_graph Sample.two_inputs Sample.one_input)
                Sample.if_node
                {| Emission.node_name_counter := 0; Emission.onnx_nodes := [];
                   Emission.tables := {| Emission.onnx_vars := [];
                                         Emission.val_tab := ∅ |} |})
      as [st'|e] eqn:E; [|vm_compute in E; discriminate].
    destruct (if_node_two_subgraphs (Sample.sample_env [])
                (Sample.exporter_on (Sample.options (Some ["c"; "x"]) None ONNX)
                   Sample.if_graph Sample.two_inputs Sample.one_input)
                (info Sample.if_node) (blocks Sample.if_node)
                {| Emission.node_name_counter := 0; Emission.onnx_nodes := [];
                   Emission.tables := {| Emission.onnx_vars := [];
                                         Emission.val_tab := ∅ |} |} eq_refl)
      as (T & _ & _).
    destruct (T st' E) as (b1 & b2 & g1 & g2 & nd & H).
    exists st', b1, b2, g1, g2, nd. split; [reflexivity|exact H].
  - destruct (if_node_two_subgraphs (Sample.sample_env [])
                (Sample.exporter_on (Sample.options (Some ["c"; "x"]) None ONNX)
                   Sample.if_graph Sample.two_inputs Sample.one_input)
                (info Sample.if_node) (take 1 (blocks Sample.if_node))
                {| Emission.node_name_counter := 0; Emission.onnx_nodes := [];
                   Emission.tables := {| Emission.onnx_vars := [];
                                         Emission.val_tab := ∅ |} |} eq_refl)
      as (_ & T & _).
    apply T. simpl. lia.
Defined.

(** ** The value-name table during emission *)

Lemma name_if_absent_mono (ex : Exporter) (v : Value) (t : Emission.Tables) :
  Emission.val_tab t ⊆ Emission.val_tab (Emission.name_if_absent ex v t).
Proof.
  unfold Emission.name_if_absent.
  destruct (Emission.val_tab t !! _unique_id v) eqn:E; simpl; [reflexivity|].
  now apply insert_subseteq.
Qed.

Lemma name_input_mono (ex : Exporter) (t t' : Emission.Tables) (v : Value) :
  Emission.name_input ex t v = OK t' -> Emission.val_tab t ⊆ Emission.val_tab t'.
Proof.
  unfold Emission.name_input. intros H.
  destruct (Lowering.is_self ex v); [now injection H as <-|].
  inv_bind H. injection H_r as <-.
  etransitivity; [|apply name_if_absent_mono].
  destruct (attrs ex !! _unique_id v); [|now injection H_l as <-].
  destruct (Emission.in_vars _ _); [now injection H_l as <-|].
  destruct (vars ex !! _); [|discriminate]. now injection H_l as <-.
Qed.

Lemma name_output_mono (ex : Exporter) (t t' : Emission.Tables) (v : Value) :
  Emission.name_output ex t v = OK t' -> Emission.val_tab t ⊆ Emission.val_tab t'.
Proof. intros [= <-]. apply name_if_absent_mono. Qed.

(** Resolving a name twice gives the same name, and the second time
    leaves the table as it is. *)
Lemma assign_onnx_value_spec (ex : Exporter) (l l1 : list string)
    (tab tab1 : gmap TorchValueID ONNXValueID) (v : Value) :
  Emission.assign_onnx_value ex (l, tab) v = OK (l1, tab1) ->
  exists k, l1 = l ++ [k] /\ tab1 !! _unique_id v = Some k /\ tab ⊆ tab1
            /\ (tab !! _unique_id v = None -> k = Emission.value_name ex v)
            /\ forall l2, Emission.assign_onnx_value ex (l2, tab1) v = OK (l2 ++ [k], tab1).
Proof.
  unfold Emission.assign_onnx_value. intros H. inv_bind H. injection H_r as <- <-.
  exists (default (Emission.value_name ex v) (tab !! _unique_id v)).
  split; [reflexivity|]. split; [apply lookup_insert_eq|]. split; [|split].
  - destruct (tab !! _unique_id v) eqn:E; simpl.
    + rewrite insert_id by assumption. reflexivity.
    + now apply insert_subseteq.
  - intros ->. reflexivity.
  - intros l2. unfold _unique_id. rewrite !lookup_insert_eq. simpl.
    rewrite String.eqb_refl. simpl. now rewrite insert_insert_eq.
Qed.

Lemma assign_onnx_values_mono (ex : Exporter) (vs : list Value) (l l' : list string)
    (tab tab' : gmap TorchValueID ONNXValueID) :
  foldM (Emission.assign_onnx_value ex) vs (l, tab) = OK (l', tab') -> tab ⊆ tab'.
Proof.
  intros H.
  apply (foldM_invariant (fun acc => tab ⊆ snd acc) _) in H; [exact H| |reflexivity].
  intros [l0 tab0] x [l1 tab1] Hst Hb. simpl in *.
  apply assign_onnx_value_spec in Hb as (k & _ & _ & Hsub & _).
  etransitivity; eassumption.
Qed.

(** A relation between the tables before and after, closed under the
    steps that change them, holds across the emission of a node and of a
    block. *)
Section EmitRespects.
Variable env : TorchEnv.
Variable ex : Exporter.
Variable R : Emission.Tables -> Emission.Tables -> Prop.
Hypothesis R_refl : forall t, R t t.
Hypothesis R_trans : forall t1 t2 t3, R t1 t2 -> R t2 t3 -> R t1 t3.
Hypothesis R_name_input :
  forall t v t', Emission.name_input ex t v = OK t' -> R t t'.
Hypothesis R_set_tab :
  forall t tab, Emission.val_tab t ⊆ tab -> R t (Emission.set_tab t tab).

Lemma R_name_if_absent (v : Value) (t : Emission.Tables) :
  R t (Emission.name_if_absent ex v t).
Proof.
  unfold Emission.name_if_absent.
  destruct (Emission.val_tab t !! _unique_id v) eqn:E; [apply R_refl|].
  apply R_set_tab. now apply insert_subseteq.
Qed.

Lemma emit_respects :
  (forall n st st',
     Emission.emit_node env ex n st = OK st' ->
     R (Emission.tables st) (Emission.tables st'))
  /\ (forall b t nodes t', Emission.emit_block env ex b t = OK (nodes, t') -> R t t').
Proof.
  apply Node_Block_ind.
  - intros i bs IH st st' H. simpl in H.
    destruct (String.eqb (kind i) "prim::GetAttr"); [injection H as <-; apply R_refl|].
    inv_bind H. destruct a; [injection H_r as <-; apply R_refl|].
    inv_bind H_r. rename a into t1. inv_bind H_r_r. rename a into t2.
    assert (H12 : R (Emission.tables st) t2).
    { apply R_trans with t1.
      - eapply (foldM_invariant (fun t => R (Emission.tables st) t));
          [| |exact H_r_l]; [|apply R_refl].
        intros s x s' Hs Hb. apply R_name_input in Hb. eapply R_trans; eassumption.
      - eapply (foldM_invariant (fun t => R t1 t)); [| |exact H_r_r_l]; [|apply R_refl].
        intros s x s' Hs Hb. injection Hb as <-.
        eapply R_trans; [exact Hs|apply R_name_if_absent]. }
    inv_bind H_r_r_r. destruct a as [[doc attribute] t3].
    inv_bind H_r_r_r_r. destruct a as [input tab4].
    inv_bind H_r_r_r_r_r. destruct a as [output tab5].
    injection H_r_r_r_r_r_r as <-. simpl.
    unfold Emission.assign_onnx_values in *.
    apply assign_onnx_values_mono in H_r_r_r_r_l, H_r_r_r_r_r_l.
    assert (H23 : R t2 t3).
    { destruct (String.eqb (kind i) "prim::If").
      - inv_bind H_r_r_r_l. apply py_assert_OK_inv in H_r_r_r_l_l.
        apply Nat.eqb_eq in H_r_r_r_l_l.
        destruct bs as [|b1 [|b2 [|b3 bs]]]; try discriminate.
        inversion IH as [|? ? IH1 IH']; subst. inversion IH' as [|? ? IH2 _]; subst.
        simpl in H_r_r_r_l_r.
        repeat (match goal with
                | Hb : (_ ≫= _) = OK _ |- _ => apply bind_OK_inv in Hb as (? & ? & Hb)
                | p : (_ * _)%type |- _ => destruct p
                end; simpl in *).
        simplify_eq.
        eapply R_trans; [eapply IH1; eassumption|eapply IH2; eassumption].
      - inv_bind H_r_r_r_l. injection H_r_r_r_l_r as _ _ <-. apply R_refl. }
    eapply R_trans; [exact H12|]. eapply R_trans; [exact H23|].
    apply R_set_tab. etransitivity; eassumption.
  - intros p ns r IH t nodes t' H. simpl in H. inv_bind H. injection H_r as _ <-.
    match type of H_l with
    | ?loop ns _ = _ =>
        assert (Hloop : forall st0 st1,
                  loop ns st0 = OK st1 ->
                  R (Emission.tables st0) (Emission.tables st1))
    end.
    { clear H_l. induction IH as [|n ns Hn _ IHns]; intros st0 st1 H.
      - injection H as <-. apply R_refl.
      - inv_bind H. eapply R_trans; [eapply Hn; eassumption|eapply IHns; eassumption]. }
    apply (Hloop _ _ H_l).
Qed.

End EmitRespects.

Lemma emit_mono (env : TorchEnv) (ex : Exporter) :
  (forall n st st',
     Emission.emit_node env ex n st = OK st' ->
     Emission.val_tab (Emission.tables st) ⊆ Emission.val_tab (Emission.tables st'))
  /\ (forall b t nodes t',
        Emission.emit_block env ex b t = OK (nodes, t') ->
        Emission.val_tab t ⊆ Emission.val_tab t').
Proof.
  apply (emit_respects env ex
           (fun t t' => Emission.val_tab t ⊆ Emission.val_tab t')).
  - reflexivity.
  - intros t1 t2 t3 H1 H2. etransitivity; eassumption.
  - intros t v t'. apply name_input_mono.
  - intros t tab H. exact H.
Qed.

(** Every entry of the constant pool is the state-dict tensor of a
    value that has an attribute alias. *)
Lemma emit_pool (env : TorchEnv) (ex : Exporter) :
  forall b t nodes t',
    Emission.emit_block env ex b t = OK (nodes, t') ->
    forall p, p ∈ Emission.onnx_vars t' ->
      p ∈ Emission.onnx_vars t \/ from_state_dict ex p.
Proof.
  apply (emit_respects env ex
           (fun t t' => forall p, p ∈ Emission.onnx_vars t' ->
                          p ∈ Emission.onnx_vars t \/ from_state_dict ex p)).
  - auto.
  - intros t1 t2 t3 H1 H2 p Hp. destruct (H2 p Hp) as [H|H]; auto.
  - intros t v t' H p Hp. unfold Emission.name_input in H.
    destruct (Lowering.is_self ex v); [injection H as <-; auto|].
    inv_bind H. injection H_r as <-.
    assert (Hv : Emission.onnx_vars (Emission.name_if_absent ex v a) = Emission.onnx_vars a).
    { unfold Emission.name_if_absent. destruct (Emission.val_tab a !! _); reflexivity. }
    rewrite Hv in Hp. clear Hv.
    destruct (attrs ex !! _unique_id v) as [k|] eqn:Ek; [|injection H_l as <-; auto].
    destruct (Emission.in_vars _ _); [injection H_l as <-; auto|].
    destruct (vars ex !! k) as [tens|] eqn:Et; [|discriminate].
    injection H_l as <-. simpl in Hp. apply elem_of_app in Hp as [Hp|Hp]; [auto|].
    apply list_elem_of_singleton in Hp as ->. right. exists k, tens. auto.
  - intros t tab _ p Hp. auto.
Qed.

(** The graph [graph(%x): %2 = relu(%x); return (%2, %x)] exported with
    [input_names = ["x"]] and [output_names = ["out", "y"]]: the input
    override names the value 1 [x], the output override then renames it
    [y], and the Relu node and the graph input are emitted with [y]. *)
Lemma names_never_change_counterexample :
  let env := Sample.sample_env [] in
  let o := Sample.relu_options in
  let ex := Sample.relu_converted in
  ~ names_never_change env ex
  /\ (exists tab1 nd t' ws,
        Emission.apply_input_names ex ["x"] (g_block (g ex)) ∅ = OK tab1
        /\ tab1 !! 1%N = Some "x"
        /\ Emission.generate_proto_nodes env ex true (g_block (g ex)) Sample.no_tables
           = OK ([nd], t', ws)
        /\ Emission.val_tab t' !! 1%N = Some "y"
        /\ np_input nd = ["y"])
  /\ (exists ex' m ws,
        snd (Convert._Exporter_init env o 1%N Sample.one_input Sample.world0)
        = OK (ex', m, ws)
        /\ map vi_name (gp_input (mp_graph m)) = ["y"]).
Proof.
  cbv zeta. split; [|split].
  - intros Hclaim.
    destruct (Emission.generate_proto_nodes (Sample.sample_env [])
                Sample.relu_converted
                true
                (g_block (g Sample.relu_converted))
                Sample.no_tables) as [[[nodes t'] ws]|e] eqn:E;
      [|vm_compute in E; discriminate].
    specialize (Hclaim ["x"] (g_block (g Sample.relu_converted)) Sample.no_tables
                  {[ 1%N := "x" ]} nodes t' ws 1%N "x").
    assert (Hx : Emission.val_tab t' !! 1%N = Some "x").
    { apply Hclaim; [reflexivity|vm_compute; reflexivity|reflexivity|exact E]. }
    vm_compute in E. injection E as _ <- _. vm_compute in Hx. discriminate.
  - eexists _, _, _, _. split; [vm_compute; reflexivity|].
    split; [reflexivity|]. split; [vm_compute; reflexivity|].
    split; reflexivity.
  - eexists _, _, _. split; [vm_compute; reflexivity|]. reflexivity.
Qed.

(** C7, as amended. Resolving the name of a value twice gives the same
    name, and the loop over the nodes, with the nested calls for the
    blocks, never changes a name the table already has.  In the root
    graph this holds from the table the name overrides leave. *)
Theorem value_names_append_only (env : TorchEnv) (ex : Exporter) :
  (forall l tab v l1 tab1,
     Emission.assign_onnx_value ex (l, tab) v = OK (l1, tab1) ->
     exists k,
       l1 = l ++ [k] /\ tab1 !! _unique_id v = Some k /\ tab ⊆ tab1
       /\ (tab !! _unique_id v = None -> k = Emission.value_name ex v)
       /\ forall l2, Emission.assign_onnx_value ex (l2, tab1) v = OK (l2 ++ [k], tab1))
  /\ (forall b t nodes t',
        Emission.emit_block env ex b t = OK (nodes, t') ->
        Emission.val_tab t ⊆ Emission.val_tab t')
  /\ (forall b t nodes t' ws,
        Emission.generate_proto_nodes env ex false b t = OK (nodes, t', ws) ->
        Emission.val_tab t ⊆ Emission.val_tab t')
  /\ (forall b t nodes t' ws,
        Emission.generate_proto_nodes env ex true b t = OK (nodes, t', ws) ->
        exists tab1,
          Emission.apply_name_overrides ex b (Emission.val_tab t) = OK (tab1, ws)
          /\ tab1 ⊆ Emission.val_tab t').
Proof.
  split; [|split; [|split]].
  - intros l tab v l1 tab1. apply assign_onnx_value_spec.
  - apply (proj2 (emit_mono env ex)).
  - intros b t nodes t' ws H. unfold Emission.generate_proto_nodes in H. simpl in H.
    inv_bind H. destruct a as [nodes0 t0]. injection H_r as _ <- _.
    apply (proj2 (emit_mono env ex)) in H_l. exact H_l.
  - intros b t nodes t' ws H. unfold Emission.generate_proto_nodes in H.
    inv_bind H. destruct a as [tab1 warned]. inv_bind H_r. destruct a as [nodes0 t0].
    injection H_r_r as _ <- <-.
    exists tab1. split; [exact H_l|].
    apply (proj2 (emit_mono env ex)) in H_r_l. exact H_r_l.
Qed.

Lemma value_names_append_only_witness :
  let env := Sample.sample_env [] in
  let o := Sample.relu_options in
  let ex := Sample.relu_converted in
  exists nodes t' ws tab1,
    Emission.generate_proto_nodes env ex true (g_block (g ex)) Sample.no_tables
    = OK (nodes, t', ws)
    /\ Emission.apply_name_overrides ex (g_block (g ex)) ∅ = OK (tab1, ws)
    /\ tab1 ⊆ Emission.val_tab t'
    /\ tab1 !! 1%N = Some "y".
Proof.
  cbv zeta.
  destruct (Emission.generate_proto_nodes (Sample.sample_env [])
              Sample.relu_converted
              true
              (g_block (g Sample.relu_converted))
              Sample.no_tables) as [[[nodes t'] ws]|e] eqn:E;
    [|vm_compute in E; discriminate].
  destruct (value_names_append_only (Sample.sample_env [])
              Sample.relu_converted)
    as (_ & _ & _ & T).
  destruct (T (g_block (g Sample.relu_converted)) Sample.no_tables nodes t' ws E)
    as (tab1 & H1 & H2).
  exists nodes, t', ws, tab1. split; [reflexivity|]. split; [exact H1|].
  split; [exact H2|].
  vm_compute in H1. injection H1 as <- _. reflexivity.
Defined.

(** ** Constant folding of graph inputs *)

(** The graph has an [onnx::Constant] node that carries the tensor. *)
Lemma has_constant_rauw (t : Tensor) (old new : Value) (ns : list Node) :
  has_constant t ns -> has_constant t (map (Torch.rauw_node old new) ns).
Proof.
  intros (n & Hin & Hk & Ha). exists (Torch.rauw_node old new n).
  split; [now apply list_elem_of_fmap_2|]. destruct n. simpl in *. auto.
Qed.

Lemma uses_eraseInput (k : nat) (gr gr' : Graph) (w : Value) :
  Torch.eraseInput k gr = OK gr' ->
  Torch.uses gr' w = Torch.uses gr w
  /\ Torch.graph_nodes gr' = Torch.graph_nodes gr
  /\ Torch.graph_inputs gr' = delete k (Torch.graph_inputs gr)
  /\ exists v, Torch.graph_inputs gr !! k = Some v /\ Torch.uses gr v = [].
Proof.
  unfold Torch.eraseInput. intros H.
  destruct (Torch.graph_inputs gr !! k) as [v|] eqn:Ev; [|discriminate].
  destruct (Torch.uses gr v) eqn:Eu; [|discriminate].
  unfold Torch.uses, Torch.graph_nodes, Torch.graph_inputs, b_inputs in *.
  destruct (g_block gr) as [p ns r] eqn:Eb. injection H as <-. simpl.
  repeat split; eauto.
Qed.

Lemma take_delete_self {A} (l : list A) (k : nat) (v : A) :
  l !! k = Some v -> take k (delete k l) = take k l.
Proof.
  intros H. apply lookup_lt_Some in H. rewrite delete_take_drop.
  rewrite take_app_le by (rewrite length_take; lia).
  rewrite take_take. f_equal. lia.
Qed.

Lemma drop_delete_self {A} (l : list A) (k n : nat) (v : A) :
  l !! k = Some v -> drop (k + n) (delete k l) = drop (k + S n) l.
Proof.
  intros H. apply lookup_lt_Some in H. rewrite delete_take_drop.
  rewrite drop_app_ge by (rewrite length_take; lia).
  rewrite length_take, drop_drop. f_equal. lia.
Qed.

Lemma erase_loop (k n s : nat) (gr gr' : Graph) :
  foldM (fun gr0 (_ : nat) => Torch.eraseInput k gr0) (seq s n) gr = OK gr' ->
  (forall w, Torch.uses gr' w = Torch.uses gr w)
  /\ Torch.graph_nodes gr' = Torch.graph_nodes gr
  /\ Torch.graph_inputs gr'
     = take k (Torch.graph_inputs gr) ++ drop (k + n) (Torch.graph_inputs gr)
  /\ forall v, v ∈ take n (drop k (Torch.graph_inputs gr)) -> Torch.uses gr v = [].
Proof.
  revert s gr. induction n as [|n IH]; intros s gr H; simpl in H.
  - injection H as <-. rewrite Nat.add_0_r, take_drop. repeat split; auto.
    intros v Hv. rewrite take_0 in Hv. inversion Hv.
  - inv_bind H. rename a into g1.
    destruct (IH _ _ H_r) as (Hu & Hn & Hi & He).
    assert (Hstep := fun w => uses_eraseInput k gr g1 w H_l).
    destruct (Hstep 0%N) as (_ & Hn1 & Hi1 & v & Hv & Huv).
    split; [|split; [|split]].
    + intros w. rewrite Hu. apply (Hstep w).
    + congruence.
    + rewrite Hi, Hi1. rewrite (take_delete_self _ _ _ Hv).
      now rewrite (drop_delete_self _ _ _ _ Hv).
    + intros w Hw.
      rewrite (drop_S _ _ _ Hv) in Hw. simpl in Hw.
      apply elem_of_cons in Hw as [->|Hw]; [exact Huv|].
      rewrite <- (proj1 (Hstep w)). apply He. rewrite Hi1.
      pose proof (drop_delete_self _ k 0 _ Hv) as Hd.
      rewrite Nat.add_0_r in Hd. rewrite Hd.
      now replace (k + 1) with (S k) by lia.
Qed.

Lemma fold_constant_inv (env : TorchEnv) ex table k t ex' table' :
  Convert.fold_constant env (ex, table) (k, t) = OK (ex', table') ->
  exists tens v,
    t = IVTensor tens /\ table !! k = Some v /\ table' = delete k table
    /\ Torch.graph_inputs (g ex') = Torch.graph_inputs (g ex)
    /\ has_constant tens (Torch.graph_nodes (g ex'))
    /\ (forall t0, has_constant t0 (Torch.graph_nodes (g ex)) ->
                   has_constant t0 (Torch.graph_nodes (g ex')))
    /\ attrs ex' = attrs ex /\ vars ex' = vars ex.
Proof.
  unfold Convert.fold_constant. simpl. intros H.
  destruct t as [| | | |tens|]; try discriminate. simpl in H.
  destruct (table !! k) as [v|] eqn:Ev; [|discriminate]. simpl in H.
  injection H as <- <-. exists tens, v.
  split; [reflexivity|]. split; [reflexivity|]. split; [reflexivity|].
  unfold Torch.graph_inputs, Torch.graph_nodes. simpl.
  rewrite copyMetadata_block. simpl.
  destruct (g_block (g ex)) as [p ns r] eqn:Eb. simpl.
  split; [reflexivity|]. split; [|split; [|split; reflexivity]].
  - eexists. split; [left|]. split; reflexivity.
  - intros t0 H0.
    match goal with |- has_constant _ (_ :: map (Torch.rauw_node ?o ?c) _) =>
      apply (has_constant_rauw t0 o c) in H0 end.
    destruct H0 as (n & Hin & Hn). exists n. split; [now right|exact Hn].
Qed.

Lemma fold_constants_inv (env : TorchEnv) folded :
  forall ex table ex' table',
    foldM (Convert.fold_constant env) folded (ex, table) = OK (ex', table') ->
    Torch.graph_inputs (g ex') = Torch.graph_inputs (g ex)
    /\ size table = size table' + length folded
    /\ (forall k v, (k, v) ∈ folded ->
          exists tens, v = IVTensor tens /\ has_constant tens (Torch.graph_nodes (g ex')))
    /\ (forall t0, has_constant t0 (Torch.graph_nodes (g ex)) ->
                   has_constant t0 (Torch.graph_nodes (g ex')))
    /\ attrs ex' = attrs ex /\ vars ex' = vars ex.
Proof.
  induction folded as [|[k t] folded IH]; intros ex table ex' table' H; simpl in H.
  - injection H as <- <-. repeat split; auto; try lia.
    intros k v Hin. inversion Hin.
  - inv_bind H. destruct a as [ex1 table1].
    apply fold_constant_inv in H_l
      as (tens & v & -> & Hv & -> & Hi & Hc & Hkeep & Ha & Hvars).
    destruct (IH _ _ _ _ H_r) as (Hi' & Hs & Hall & Hkeep' & Ha' & Hvars').
    split; [congruence|]. split; [|split; [|split; [|split; congruence]]].
    + rewrite map_size_delete, Hv in Hs. simpl.
      assert (size table <> 0).
      { intros Hz. apply map_size_empty_inv in Hz. subst table.
        rewrite lookup_empty in Hv. discriminate. }
      lia.
    + intros k' v' Hin. apply elem_of_cons in Hin as [Heq|Hin].
      * injection Heq as -> ->. eauto.
      * eauto.
    + auto.
Qed.

Lemma size_fold_insert {A} (f : A -> string) (l : list A) (m : gmap string A) :
  size (fold_left (fun m0 i => <[ f i := i ]> m0) l m) <= size m + length l
  /\ (NoDup (map f l) -> (forall i, i ∈ l -> m !! f i = None) ->
      size (fold_left (fun m0 i => <[ f i := i ]> m0) l m) = size m + length l).
Proof.
  revert m. induction l as [|x l IH]; intros m; simpl.
  - split; [lia|intros; lia].
  - destruct (IH (<[ f x := x ]> m)) as [Hle Heq]. split.
    + destruct (m !! f x) eqn:E.
      * rewrite map_size_insert_Some in Hle by eauto. lia.
      * rewrite map_size_insert_None in Hle by assumption. lia.
    + intros Hnd Hfresh. apply NoDup_cons in Hnd as [Hx Hnd].
      rewrite Heq; auto.
      * rewrite map_size_insert_None; [lia|]. apply Hfresh. left.
      * intros i Hi. rewrite lookup_insert_ne.
        -- apply Hfresh. now right.
        -- intros Heq'. apply Hx. rewrite Heq'. apply list_elem_of_In.
           apply in_map. now apply list_elem_of_In.
Qed.




(** ** What lowering leaves alone *)

Lemma lowered_from_refl (ex : Exporter) : lowered_from ex ex.
Proof. unfold lowered_from, same_setup. tauto. Qed.

Lemma lowered_from_trans (a b c : Exporter) :
  lowered_from a b -> lowered_from b c -> lowered_from a c.
Proof.
  unfold lowered_from, same_setup, quiet.
  intros ((H1 & H2 & H3 & H4 & H5 & H6) & Hg & Hn) ((K1 & K2 & K3 & K4 & K5 & K6) & Kg & Kn).
  rewrite H1 in Kg, Kn.
  repeat split; try congruence.
  - intros Hq. rewrite Kg, Hg; auto.
  - intros Hs. rewrite Kn, Hn; auto.
Qed.

Lemma lowered_from_log title body ex :
  lowered_from ex (Lowering.log title body false ex).
Proof.
  unfold Lowering.log, lowered_from, same_setup, quiet.
  destruct (verbose (opts ex)) eqn:Ev; simpl; [|tauto].
  destruct (strip_doc_string (opts ex)) eqn:Es; simpl; [tauto|].
  repeat split; auto; intros; try discriminate. intuition discriminate.
Qed.

Lemma lowered_from_with_g ex gr : lowered_from ex (with_g ex gr).
Proof. unfold lowered_from, same_setup. simpl. tauto. Qed.

Lemma lowered_from_with_attrs ex a : lowered_from ex (with_attrs ex a).
Proof. unfold lowered_from, same_setup. simpl. tauto. Qed.

Lemma lowered_from_tag_node (env : TorchEnv) sc tn ex sym_nd ex' :
  Lowering.tag_node env sc tn ex sym_nd = OK ex' -> lowered_from ex ex'.
Proof.
  unfold Lowering.tag_node. intros [= <-].
  unfold lowered_from, same_setup.
  destruct (strip_doc_string (opts ex)) eqn:Es; simpl; repeat split; auto.
  discriminate.
Qed.

Lemma lowered_from_splice_outputs (env : TorchEnv) id g1 sym_outs ex ex' :
  Lowering.splice_outputs env id g1 sym_outs ex = OK ex' -> lowered_from ex ex'.
Proof.
  unfold Lowering.splice_outputs. intros H.
  inv_bind H. inv_bind H_r. inv_bind H_r_r. inv_bind H_r_r_r. inv_bind H_r_r_r_r.
  injection H_r_r_r_r_r as <-.
  eapply lowered_from_trans; [|apply lowered_from_with_g].
  eapply (foldM_invariant (lowered_from ex)); [| |exact H_r_r_r_l].
  - intros st x st' Hst Hb. apply lowered_from_tag_node in Hb.
    eapply lowered_from_trans; eassumption.
  - eapply lowered_from_trans; [apply lowered_from_with_g|].
    eapply lowered_from_trans; [apply lowered_from_log|].
    destruct (Nat.ltb 0 (length a1)); [apply lowered_from_log|apply lowered_from_refl].
Qed.

Lemma lowered_from_run_symbolic_function (env : TorchEnv) ref id sym ex ex' :
  Lowering.run_symbolic_function env ref id sym ex = OK ex' -> lowered_from ex ex'.
Proof.
  intros H. apply run_symbolic_function_OK_inv in H as (g1 & outs & _ & H).
  eapply lowered_from_splice_outputs; eauto.
Qed.

Lemma lowered_from_handle_getattr ref id ex ex' :
  Lowering.handle_getattr ref id ex = OK ex' -> lowered_from ex ex'.
Proof.
  unfold Lowering.handle_getattr. intros H.
  inv_bind H. inv_bind H_r. inv_bind H_r_r. inv_bind H_r_r_r.
  destruct (vars _ !! _); injection H_r_r_r_r as <-.
  - eapply lowered_from_trans; [apply lowered_from_with_attrs|apply lowered_from_with_g].
  - apply lowered_from_with_attrs.
Qed.

Lemma lowered_from_generate_onnx_node (env : TorchEnv) (depth : nat) :
  forall ref id ex ex',
    Lowering.generate_onnx_node env depth ref id ex = OK ex' -> lowered_from ex ex'.
Proof.
  induction depth as [|depth IH]; intros ref id ex ex' H; simpl in H; [discriminate|].
  inv_bind H. rename a into n.
  destruct (String.eqb (kind (info n)) "prim::Constant").
  { unfold Lowering.handle_constant in H_r. inv_bind H_r.
    destruct (negb _); [injection H_r_r as <-; apply lowered_from_refl|].
    eapply lowered_from_run_symbolic_function; eauto. }
  destruct (String.eqb (kind (info n)) "prim::GetAttr").
  { eapply lowered_from_handle_getattr; eauto. }
  destruct (String.eqb (kind (info n)) "prim::ListConstruct").
  { unfold Lowering.handle_list_construct in H_r.
    inv_bind H_r. inv_bind H_r_r. inv_bind H_r_r_r.
    destruct (_ && _); eapply lowered_from_run_symbolic_function; eauto. }
  destruct (String.eqb (kind (info n)) "prim::If").
  { unfold Lowering.handle_if in H_r. inv_bind H_r. inv_bind H_r_r.
    injection H_r_r_r as <-.
    assert (lowered_from ex a0) as Ha0.
    { eapply (foldM_invariant (lowered_from ex)); [| |exact H_r_r_l];
        [|apply lowered_from_refl].
      intros st k st' Hst Hb. inv_bind Hb.
      destruct (blocks a1 !! k) as [b|]; [|discriminate].
      eapply (foldM_invariant (lowered_from ex)); [| |exact Hb_r]; [|exact Hst].
      intros st1 x st1' Hst1 Hb1. apply IH in Hb1.
      eapply lowered_from_trans; eassumption. }
    eapply lowered_from_trans; [exact Ha0|].
    eapply lowered_from_trans; [|apply lowered_from_with_g].
    unfold lowered_from, same_setup.
    destruct (strip_doc_string (opts a0)) eqn:Es; simpl; repeat split; auto.
    discriminate. }
  inv_bind H_r.
  match type of H_r_r with
  | match ?f with _ => _ end = _ => destruct f; [|discriminate]
  end.
  eapply lowered_from_run_symbolic_function; eauto.
Qed.

Lemma lowered_from_lower_nodes (env : TorchEnv) ids ex ex' :
  Convert.lower_nodes env ids ex = OK ex' -> lowered_from ex ex'.
Proof.
  unfold Convert.lower_nodes. intros H.
  eapply (foldM_invariant (lowered_from ex)); [| |exact H]; [|apply lowered_from_refl].
  intros st x st' Hst Hb. apply lowered_from_generate_onnx_node in Hb.
  eapply lowered_from_trans; eassumption.
Qed.

Lemma lowered_from_setup (ex0 ex : Exporter) : lowered_from ex0 ex -> same_setup ex ex0.
Proof. intros [H _]. exact H. Qed.

(** One turn of the constant-folding loop keeps the setup and the
    graph's doc string; it records a doc string for the new node. *)
Lemma fold_constant_fields (env : TorchEnv) ex table kt ex' table' :
  Convert.fold_constant env (ex, table) kt = OK (ex', table') ->
  same_setup ex' ex /\ graph_doc_string ex' = graph_doc_string ex
  /\ exists v,
       node_doc_string ex'
       = <[ g_next (g ex) :=
              "Constant folded node: " +:+
              repr_value env v
                (Torch.prependNode
                   (mkNode
                      (set_attributes
                         (info (snd (Torch.create "onnx::Constant" [] [] 1 (g ex))))
                         [("value",
                           attr_t match snd kt with
                                  | IVTensor x => x
                                  | _ => {| t_dtype := float32; t_shape := []; t_data := [] |}
                                  end)]) [])
                   (fst (Torch.create "onnx::Constant" [] [] 1 (g ex)))) ]>
           (node_doc_string ex).
Proof.
  unfold Convert.fold_constant. destruct kt as [k t]. simpl. intros H.
  destruct t as [| | | |tens|]; try discriminate. simpl in H.
  destruct (table !! k) as [v|] eqn:Ev; [|discriminate]. simpl in H.
  injection H as <- <-. unfold same_setup. simpl. repeat split; auto.
  exists v. reflexivity.
Qed.

Lemma fold_constants_fields (env : TorchEnv) folded :
  forall ex table ex' table',
    foldM (Convert.fold_constant env) folded (ex, table) = OK (ex', table') ->
    same_setup ex' ex /\ graph_doc_string ex' = graph_doc_string ex.
Proof.
  induction folded as [|kt folded IH]; intros ex table ex' table' H; simpl in H.
  - injection H as <- <-. unfold same_setup. tauto.
  - inv_bind H. destruct a as [ex1 table1].
    apply fold_constant_fields in H_l as ((H1 & H2 & H3 & H4 & H5 & H6) & Hg & _).
    destruct (IH _ _ _ _ H_r) as ((K1 & K2 & K3 & K4 & K5 & K6) & Kg).
    unfold same_setup. repeat split; congruence.
Qed.

Lemma constant_folding_fields (env : TorchEnv) ex ex' :
  Convert.constant_folding env ex = OK ex' ->
  same_setup ex' ex /\ graph_doc_string ex' = graph_doc_string ex.
Proof.
  unfold Convert.constant_folding. intros H.
  destruct (_ && _).
  - destruct (jit_pass_onnx_constant_fold env _ _ _) as [g1 folded].
    inv_bind H. inv_bind H_r. injection H_r_r as <-.
    unfold Convert.fold_inputs in H_l. inv_bind H_l. destruct a1 as [ex1 table].
    inv_bind H_l_r. injection H_l_r_r as <-.
    apply fold_constants_fields in H_l_l as [Hs Hg]. simpl in *.
    unfold same_setup in *. simpl in *. tauto.
  - injection H as <-. unfold same_setup. tauto.
Qed.

(** What a successful [generate_onnx] went through. *)
Lemma generate_onnx_OK_inv (env : TorchEnv) ex ex' m ws :
  Convert.generate_onnx env ex = OK (ex', m, ws) ->
  exists ex1 g1 ex2 nodes tables ins outs,
    Convert.lower_nodes env (map (fun n => nid (info n)) (Torch.graph_nodes (g ex))) ex
    = OK ex1
    /\ Convert.run_jit_pass env dce_allow_deleting_nodes_with_side_effects (g ex1) = OK g1
    /\ Convert.constant_folding env (with_g ex1 g1) = OK ex2
    /\ Emission.generate_proto_nodes env
         (Lowering.log "ONNX graph" (str_graph env (g ex2)) false ex2) true
         (g_block (g ex2)) {| Emission.onnx_vars := []; Emission.val_tab := ∅ |}
       = OK (nodes, tables, ws)
    /\ Convert.onnx_inputs_of env
         (Lowering.log "ONNX graph" (str_graph env (g ex2)) false ex2)
         (Emission.val_tab tables) (Torch.graph_inputs (g ex2)) 0 0 = OK ins
    /\ Convert.onnx_outputs_of env
         (Lowering.log "ONNX graph" (str_graph env (g ex2)) false ex2)
         (Emission.val_tab tables) (Torch.graph_outputs (g ex2)) 0 = OK outs
    /\ lowered_from ex2 ex' /\ g ex' = g ex2
    /\ Convert.check_model env (opts ex')
         {| mp_graph :=
              mkGraphProto (original_name ex2) nodes ins outs
                (map snd (Emission.onnx_vars tables))
                (if strip_doc_string (opts ex2) then ""
                 else graph_doc_string
                        (Lowering.log "ONNX graph" (str_graph env (g ex2)) false ex2));
            mp_opset_import := [("", opset_version (opts ex2))] |}
       = OK m.
Proof.
  unfold Convert.generate_onnx. intros H.
  inv_bind H. rename a into ex1. inv_bind H_r. rename a into g1.
  inv_bind H_r_r. rename a into ex2. inv_bind H_r_r_r. destruct a as [[nodes tables] ws'].
  inv_bind H_r_r_r_r. rename a into ins. inv_bind H_r_r_r_r_r. rename a into outs.
  inv_bind H_r_r_r_r_r_r. injection H_r_r_r_r_r_r_r as <- <- <-.
  pose proof (lowered_from_log "ONNX graph" (str_graph env (g ex2)) ex2) as L1.
  rewrite ?log_keeps_graph, ?log_opts in *.
  assert (Hn : original_name (Lowering.log "ONNX graph" (str_graph env (g ex2)) false ex2)
               = original_name ex2).
  { destruct L1 as ((_ & _ & _ & Hn & _) & _). exact Hn. }
  rewrite Hn in *.
  exists ex1, g1, ex2, nodes, tables, ins, outs.
  split; [assumption|]. split; [assumption|]. split; [assumption|].
  split; [assumption|]. split; [assumption|]. split; [assumption|].
  split; [eapply lowered_from_trans; [exact L1|apply lowered_from_log]|].
  split; [rewrite ?log_keeps_graph; reflexivity|].
  rewrite ?log_opts. assumption.
Qed.

Lemma lowered_from_generate_onnx (env : TorchEnv) ex ex' m ws :
  Convert.generate_onnx env ex = OK (ex', m, ws) ->
  same_setup ex' ex /\ (quiet (opts ex) -> graph_doc_string ex' = graph_doc_string ex).
Proof.
  intros H.
  apply generate_onnx_OK_inv in H
    as (ex1 & g1 & ex2 & nodes & tables & ins & outs & Hl & _ & Hc & _ & _ & _ & L & _).
  apply lowered_from_lower_nodes in Hl.
  apply constant_folding_fields in Hc as [Hs Hg].
  unfold same_setup in *. simpl in Hs, Hg.
  destruct Hl as ((H1 & H2 & H3 & H4 & H5 & H6) & Hlg & _).
  destruct Hs as (K1 & K2 & K3 & K4 & K5 & K6).
  destruct L as ((J1 & J2 & J3 & J4 & J5 & J6) & Jg & _).
  split; [repeat split; congruence|].
  intros Hq. rewrite Jg, Hg, Hlg; auto.
  unfold quiet in *. rewrite K1, H1. exact Hq.
Qed.

(** What [_run_trace] puts into the exporter. *)
Lemma run_trace_fields (env : TorchEnv) o model ins gl ex :
  snd (Convert._run_trace env o model ins gl) = OK ex ->
  exists traced,
    snd (jit_trace env model ins o gl) = OK traced
    /\ opts ex = o /\ ex_inputs ex = ins /\ ex_outputs ex = tr_outputs traced
    /\ original_name ex = tr_original_name traced
    /\ vars ex = tr_state_dict traced
    /\ (quiet o ->
        graph_doc_string ex = Convert.model_doc_string (tr_original_name traced)).
Proof.
  unfold Convert._run_trace.
  destruct (jit_trace env model ins o gl) as [gl1 [traced|e]]; [|simpl; discriminate].
  destruct (Convert.self_id_of (tr_inlined_graph traced)) as [sid|e] eqn:Es;
    [|simpl; discriminate].
  simpl. intros H. inv_bind H. injection H_r as <-.
  exists traced. split; [reflexivity|].
  match goal with
  | |- context [Lowering.log "State dict" ?b false ?e3] =>
      pose proof (lowered_from_log "State dict" b e3) as L4;
      match e3 with
      | Lowering.log "Original traced graph" ?b2 false ?e2 =>
          pose proof (lowered_from_log "Original traced graph" b2 e2) as L3;
          match e2 with
          | Lowering.log "Optimized graph" ?b1 false (with_g ?e1 ?gg) =>
              pose proof (lowered_from_log "Optimized graph" b1 (with_g e1 gg)) as L2;
              pose proof (lowered_from_with_g e1 gg) as L1;
              match e1 with
              | Lowering.log "Inlined graph" ?b0 false ?e0 =>
                  pose proof (lowered_from_log "Inlined graph" b0 e0) as L0
              end
          end
      end
  end.
  pose proof (lowered_from_trans _ _ _ L0
                (lowered_from_trans _ _ _ L1
                   (lowered_from_trans _ _ _ L2
                      (lowered_from_trans _ _ _ L3 L4)))) as L.
  destruct L as ((J1 & J2 & J3 & J4 & J5 & J6) & Jg & _). simpl in *.
  repeat split; auto.
Qed.

(** X1. Lowering a node, and the whole of [generate_onnx], leave the
    exporter's options, example inputs and outputs, model name, state
    dict and [self_id] as they were: they change only the graph, the
    attribute aliases, the doc strings and the scopes. *)
Theorem conversion_keeps_setup (env : TorchEnv) :
  (forall depth ref id ex ex',
     Lowering.generate_onnx_node env depth ref id ex = OK ex' -> same_setup ex' ex)
  /\ (forall ex ex' m ws,
        Convert.generate_onnx env ex = OK (ex', m, ws) -> same_setup ex' ex).
Proof.
  split.
  - intros depth ref id ex ex' H.
    apply lowered_from_generate_onnx_node in H. exact (lowered_from_setup _ _ H).
  - intros ex ex' m ws H. exact (proj1 (lowered_from_generate_onnx env ex ex' m ws H)).
Qed.

Lemma conversion_keeps_setup_witness :
  let env := Sample.sample_env [] in
  let o := Sample.options (Some ["x"; "w"]) (Some ["y"]) ONNX in
  let ex := Sample.traced_exporter 0%N Sample.two_inputs o in
  exists ex' m ws,
    Convert.generate_onnx env ex = OK (ex', m, ws)
    /\ same_setup ex' ex /\ g ex' <> g ex.
Proof.
  cbv zeta.
  destruct (Convert.generate_onnx (Sample.sample_env [])
              (Sample.traced_exporter 0%N Sample.two_inputs
                 (Sample.options (Some ["x"; "w"]) (Some ["y"]) ONNX)))
    as [[[ex' m] ws]|e] eqn:E; [|vm_compute in E; discriminate].
  exists ex', m, ws. split; [reflexivity|]. split.
  - exact (proj2 (conversion_keeps_setup (Sample.sample_env [])) _ ex' m ws E).
  - vm_compute in E. injection E as <- _ _. vm_compute. discriminate.
Defined.

(** X2. What [export] returns on success is the tuple of outputs that
    running the traced model gave in [_run_trace]. *)
Theorem export_returns_traced_outputs (env : TorchEnv) (model : Callable)
    (args : list Tensor) (f : OutputFile) (o : _ExporterOptions) (w : World)
    (outs : list Tensor) :
  snd (Convert.export env model args f o w) = OK outs ->
  exists gl traced,
    snd (jit_trace env model args o gl) = OK traced /\ outs = tr_outputs traced.
Proof.
  unfold Convert.export. intros H.
  destruct (Convert._Exporter_init env o model args w) as [w1 [[[ex m] ws]|e]] eqn:E;
    [|simpl in H; discriminate].
  destruct (Convert.generate env m f w1) as [w2 [u|e]]; simpl in H; [|discriminate].
  injection H as <-.
  destruct (init_OK_inv env model args o w (ex, m, ws)) as (gl & ex0 & Ht & Hg).
  { now rewrite E. }
  apply run_trace_fields in Ht as (traced & Hj & _ & _ & Ho & _).
  apply lowered_from_generate_onnx in Hg as [(_ & _ & Ho' & _) _].
  exists gl, traced. split; [exact Hj|congruence].
Qed.

Lemma export_returns_traced_outputs_witness :
  let env := Sample.sample_env [] in
  let o := Sample.options (Some ["x"]) (Some ["out"; "y"]) ONNX in
  exists gl traced,
    snd (Convert.export env 1%N Sample.one_input (to_stream 7%N) o Sample.world0)
    = OK [Sample.float_tensor [2; 3]%Z; Sample.float_tensor [2; 3]%Z]
    /\ snd (jit_trace env 1%N Sample.one_input o gl) = OK traced
    /\ [Sample.float_tensor [2; 3]%Z; Sample.float_tensor [2; 3]%Z] = tr_outputs traced.
Proof.
  cbv zeta.
  assert (E : snd (Convert.export (Sample.sample_env []) 1%N Sample.one_input
                     (to_stream 7%N) (Sample.options (Some ["x"]) (Some ["out"; "y"]) ONNX)
                     Sample.world0)
              = OK [Sample.float_tensor [2; 3]%Z; Sample.float_tensor [2; 3]%Z]).
  { vm_compute. reflexivity. }
  destruct (export_returns_traced_outputs _ _ _ _ _ _ _ E) as (gl & traced & H1 & H2).
  exists gl, traced. split; [exact E|]. split; assumption.
Defined.

(** X3. With [strip_doc_string] set, lowering records no doc string for
    any node.  The constant-folding step does not look at the option: it
    records "Constant folded node: ..." for the Constant node it
    creates. *)
Theorem stripped_doc_strings (env : TorchEnv) :
  (forall ids ex ex',
     Convert.lower_nodes env ids ex = OK ex' ->
     strip_doc_string (opts ex) = true ->
     node_doc_string ex' = node_doc_string ex)
  /\ (forall ex table kt ex' table',
        Convert.fold_constant env (ex, table) kt = OK (ex', table') ->
        exists s,
          node_doc_string ex' !! g_next (g ex) = Some ("Constant folded node: " +:+ s)).
Proof.
  split.
  - intros ids ex ex' H Hs. apply lowered_from_lower_nodes in H as (_ & _ & Hn). auto.
  - intros ex table kt ex' table' H.
    apply fold_constant_fields in H as (_ & _ & v & ->).
    eexists. apply lookup_insert_eq.
Qed.

Lemma stripped_doc_strings_witness :
  let env := Sample.sample_env Sample.folded_w in
  let ex := Sample.folding_exporter in
  strip_doc_string (opts ex) = true
  /\ (exists ex',
        Convert.lower_nodes env [101%N] ex = OK ex'
        /\ node_doc_string ex' = node_doc_string ex)
  /\ exists ex' table' s,
       Convert.fold_constant env (ex, Convert.input_table_of (g ex))
         ("w", IVTensor (Sample.float_tensor [2; 3]%Z)) = OK (ex', table')
       /\ node_doc_string ex' !! g_next (g ex) = Some ("Constant folded node: " +:+ s).
Proof.
  cbv zeta. split; [reflexivity|]. split.
  - destruct (Convert.lower_nodes (Sample.sample_env Sample.folded_w) [101%N]
                Sample.folding_exporter) as [ex'|e] eqn:E; [|vm_compute in E; discriminate].
    exists ex'. split; [reflexivity|].
    exact (proj1 (stripped_doc_strings (Sample.sample_env Sample.folded_w))
             [101%N] Sample.folding_exporter ex' E eq_refl).
  - destruct (Convert.fold_constant (Sample.sample_env Sample.folded_w)
                (Sample.folding_exporter,
                 Convert.input_table_of (g Sample.folding_exporter))
                ("w", IVTensor (Sample.float_tensor [2; 3]%Z)))
      as [[ex' table']|e] eqn:E; [|vm_compute in E; discriminate].
    destruct (proj2 (stripped_doc_strings (Sample.sample_env Sample.folded_w))
                _ _ _ ex' table' E) as (s & Hs).
    exists ex', table', s. split; [reflexivity|exact Hs].
Defined.

(** X4. With [verbose] off (or doc strings stripped) no call of [log]
    writes: the exporter's graph doc string stays the "# Model: name"
    line of [_run_trace].  Without shape inference the model's graph has
    the traced model's name and that doc string, or none when doc strings
    are stripped. *)
Theorem silent_log_keeps_doc_string (env : TorchEnv) (model : Callable)
    (args : list Tensor) (o : _ExporterOptions) (w : World)
    (ex : Exporter) (m : ModelProto) (ws : list string) :
  snd (Convert._Exporter_init env o model args w) = OK (ex, m, ws) ->
  quiet o ->
  graph_doc_string ex = Convert.model_doc_string (original_name ex)
  /\ (onnx_shape_inference o = false ->
      gp_name (mp_graph m) = original_name ex
      /\ gp_doc_string (mp_graph m)
         = if strip_doc_string o then ""
           else Convert.model_doc_string (original_name ex)).
Proof.
  intros H Hq.
  apply init_OK_inv in H as (gl & ex0 & Ht & Hg).
  apply run_trace_fields in Ht as (traced & _ & Ho & _ & _ & Hn & _ & Hd).
  pose proof (lowered_from_generate_onnx env ex0 ex m ws Hg) as [Hs Hgd].
  destruct Hs as (S1 & _ & _ & S4 & _).
  rewrite Ho in Hgd. rewrite (Hgd Hq), (Hd Hq), S4, Hn.
  split; [reflexivity|]. intros Hsi.
  apply generate_onnx_OK_inv in Hg
    as (ex1 & g1 & ex2 & nodes & tables & ins & outs & Hl & _ & Hc & _ & _ & _ & L & _ & Hm).
  destruct L as ((J1 & _ & _ & J4 & _) & Jg & _).
  assert (Ho2 : opts ex2 = o) by congruence.
  unfold Convert.check_model in Hm. rewrite J1, Ho2, Hsi in Hm. simpl in Hm.
  inv_bind Hm. injection Hm_r as <-. simpl.
  split; [congruence|].
  destruct (strip_doc_string o) eqn:Es; [reflexivity|].
  pose proof (lowered_from_log "ONNX graph" (str_graph env (g ex2)) ex2) as (_ & Lg & _).
  rewrite Ho2 in Lg. rewrite (Lg Hq).
  apply lowered_from_lower_nodes in Hl as (_ & Hlg & _).
  apply constant_folding_fields in Hc as [_ Hcg]. simpl in Hcg.
  rewrite Ho in Hlg. rewrite Hcg, (Hlg Hq), (Hd Hq). reflexivity.
Qed.

Lemma silent_log_keeps_doc_string_witness :
  let env := Sample.sample_env [] in
  let o := {| opset_version := 12; check_trace := false; strict_trace := true;
              force_outplace_trace := false; verbose := false;
              strip_doc_string := false; torch_constant_prop := true;
              enable_onnx_checker := true; onnx_shape_inference := false;
              onnx_strict_mode := false; onnx_check_type := false;
              onnx_data_prop := true; input_names := Some ["x"; "w"];
              output_names := Some ["y"]; do_constant_folding := true;
              operator_export_type := ONNX; training := None; dynamic_axes := [] |} in
  exists ex m ws,
    snd (Convert._Exporter_init env o 0%N Sample.two_inputs Sample.world0) = OK (ex, m, ws)
    /\ graph_doc_string ex = Convert.model_doc_string "M"
    /\ gp_name (mp_graph m) = "M"
    /\ gp_doc_string (mp_graph m) = Convert.model_doc_string "M".
Proof.
  cbv zeta.
  match goal with
  | |- exists ex m ws, snd (Convert._Exporter_init ?env ?o ?md ?ins ?w) = _ /\ _ =>
      destruct (snd (Convert._Exporter_init env o md ins w)) as [[[ex m] ws]|e] eqn:E;
        [|vm_compute in E; discriminate];
      destruct (silent_log_keeps_doc_string env md ins o w ex m ws E (or_introl eq_refl))
        as (H1 & H2);
      destruct (H2 eq_refl) as (H3 & H4);
      assert (Hn : original_name ex = "M")
        by (vm_compute in E; injection E as <- _ _; reflexivity)
  end.
  exists ex, m, ws. rewrite Hn in *. simpl in H4. auto.
Defined.

(** ** The emitted nodes *)

Lemma named_by_mono tab tab' vs names :
  tab ⊆ tab' -> named_by tab vs names -> named_by tab' vs names.
Proof.
  intros Hsub H. unfold named_by in *.
  eapply Forall2_impl; [exact H|]. intros v nm Hv. simpl in Hv.
  eapply lookup_weaken; eassumption.
Qed.

Lemma proto_of_node_mono ex tab tab' n np :
  tab ⊆ tab' -> proto_of_node ex tab n np -> proto_of_node ex tab' n np.
Proof.
  intros Hsub (H1 & H2 & H3 & H4).
  repeat split; eauto using named_by_mono; apply H4; assumption.
Qed.

Lemma assign_onnx_values_spec (ex : Exporter) (vs : list Value) :
  forall l tab l' tab',
    foldM (Emission.assign_onnx_value ex) vs (l, tab) = OK (l', tab') ->
    exists ks, l' = l ++ ks /\ named_by tab' vs ks /\ tab ⊆ tab'.
Proof.
  induction vs as [|v vs IH]; intros l tab l' tab' H; simpl in H.
  - injection H as <- <-. exists []. rewrite app_nil_r. repeat split; [constructor|reflexivity].
  - inv_bind H. destruct a as [l1 tab1].
    apply assign_onnx_value_spec in H_l as (k & -> & Hk & Hsub & _).
    apply IH in H_r as (ks & -> & Hks & Hsub').
    exists (k :: ks). rewrite <- app_assoc. split; [reflexivity|]. split.
    + constructor; [|exact Hks]. eapply lookup_weaken; eassumption.
    + etransitivity; eassumption.
Qed.

(** ** The pool of initializers *)

Lemma in_vars_false (id : TorchValueID) (vs : list (TorchValueID * TensorProto)) :
  Emission.in_vars id vs = false <-> id ∉ map fst vs.
Proof.
  unfold Emission.in_vars. induction vs as [|[k p] vs IH]; simpl.
  - split; [intros _ H; inversion H|reflexivity].
  - rewrite orb_false_iff, IH, not_elem_of_cons.
    destruct (N.eqb_spec k id) as [->|Hne]; split; intros []; try split; congruence.
Qed.

Lemma pool_grows_refl t : pool_grows t t.
Proof. split; [exists []; now rewrite app_nil_r|auto]. Qed.

Lemma pool_grows_trans t1 t2 t3 : pool_grows t1 t2 -> pool_grows t2 t3 -> pool_grows t1 t3.
Proof.
  intros [[m1 H1] N1] [[m2 H2] N2]. split; [|auto].
  exists (m1 ++ m2). rewrite H2, H1, app_assoc. reflexivity.
Qed.

Lemma pool_grows_key t t' id :
  pool_grows t t' -> id ∈ map fst (Emission.onnx_vars t) ->
  id ∈ map fst (Emission.onnx_vars t').
Proof.
  intros [[m H] _] Hin. rewrite H, map_app. apply elem_of_app. now left.
Qed.

Lemma name_if_absent_pool ex v t :
  Emission.onnx_vars (Emission.name_if_absent ex v t) = Emission.onnx_vars t.
Proof. unfold Emission.name_if_absent. destruct (Emission.val_tab t !! _); reflexivity. Qed.

(** One turn of the loop over [n.inputs()]. *)
Lemma name_input_pool (ex : Exporter) (t t' : Emission.Tables) (v : Value) :
  Emission.name_input ex t v = OK t' ->
  pool_grows t t'
  /\ (Lowering.is_self ex v = false -> is_Some (attrs ex !! _unique_id v) ->
      _unique_id v ∈ map fst (Emission.onnx_vars t')).
Proof.
  unfold Emission.name_input. intros H.
  destruct (Lowering.is_self ex v) eqn:Es.
  { injection H as <-. split; [apply pool_grows_refl|discriminate]. }
  inv_bind H. injection H_r as <-. unfold pool_grows. rewrite name_if_absent_pool.
  destruct (attrs ex !! _unique_id v) as [k|] eqn:Ek.
  2:{ injection H_l as <-. split; [apply pool_grows_refl|].
      intros _ [x Hx]. discriminate. }
  destruct (Emission.in_vars (_unique_id v) (Emission.onnx_vars t)) eqn:Ein.
  { injection H_l as <-. split; [apply pool_grows_refl|].
    intros _ _.
    destruct (decide (_unique_id v ∈ map fst (Emission.onnx_vars t))) as [|Hn]; [assumption|].
    apply in_vars_false in Hn. congruence. }
  destruct (vars ex !! k) as [tens|] eqn:Et; [|discriminate].
  injection H_l as <-. simpl. split; [split|].
  - eauto.
  - intros Hnd. rewrite map_app. simpl. apply NoDup_app. split; [exact Hnd|]. split.
    + intros x Hx Hx'. apply list_elem_of_singleton in Hx'. subst x.
      apply in_vars_false in Ein. contradiction.
    + apply NoDup_singleton.
  - intros _ _. rewrite map_app. apply elem_of_app. right. simpl.
    now apply list_elem_of_singleton.
Qed.

Lemma name_inputs_pool (ex : Exporter) (vs : list Value) :
  forall t t',
    foldM (Emission.name_input ex) vs t = OK t' ->
    pool_grows t t'
    /\ forall v, v ∈ vs -> Lowering.is_self ex v = false ->
         is_Some (attrs ex !! _unique_id v) ->
         _unique_id v ∈ map fst (Emission.onnx_vars t').
Proof.
  induction vs as [|v0 vs IH]; intros t t' H; simpl in H.
  - injection H as <-. split; [apply pool_grows_refl|]. intros v Hv. inversion Hv.
  - inv_bind H. rename a into t1.
    apply name_input_pool in H_l as [G1 K1]. apply IH in H_r as [G2 K2].
    split; [eapply pool_grows_trans; eassumption|].
    intros v Hv Hs Ha. apply elem_of_cons in Hv as [->|Hv]; [|auto].
    eapply pool_grows_key; [exact G2|auto].
Qed.

Lemma name_outputs_pool (ex : Exporter) (vs : list Value) :
  forall t t', foldM (Emission.name_output ex) vs t = OK t' ->
               Emission.onnx_vars t' = Emission.onnx_vars t.
Proof.
  induction vs as [|v0 vs IH]; intros t t' H; simpl in H.
  - now injection H as <-.
  - rewrite (IH _ _ H). apply name_if_absent_pool.
Qed.

Lemma emit_pool_grows (env : TorchEnv) (ex : Exporter) :
  (forall n st st',
     Emission.emit_node env ex n st = OK st' ->
     pool_grows (Emission.tables st) (Emission.tables st'))
  /\ (forall b t nodes t',
        Emission.emit_block env ex b t = OK (nodes, t') -> pool_grows t t').
Proof.
  apply (emit_respects env ex pool_grows).
  - apply pool_grows_refl.
  - apply pool_grows_trans.
  - intros t v t' H. exact (proj1 (name_input_pool ex t t' v H)).
  - intros t tab _. split; [exists []; simpl; now rewrite app_nil_r|auto].
Qed.

Lemma aliases_pooled_mono ex t t' n :
  pool_grows t t' -> aliases_pooled ex t n -> aliases_pooled ex t' n.
Proof. intros G H v Hv Hs Ha. eapply pool_grows_key; [exact G|auto]. Qed.

(** What the body of the loop over [g.nodes()] does with one node. *)
Lemma emit_node_spec (env : TorchEnv) (ex : Exporter) (n : Node)
    (st st' : Emission.EmitState) :
  Emission.emit_node env ex n st = OK st' ->
  (is_emitted ex n = false /\ st' = st)
  \/ (is_emitted ex n = true
      /\ exists np,
           Emission.onnx_nodes st' = Emission.onnx_nodes st ++ [np]
           /\ Emission.node_name_counter st' = S (Emission.node_name_counter st)
           /\ np_name np
              = op_type_of n +:+ "_" +:+ pretty (S (Emission.node_name_counter st))
           /\ proto_of_node ex (Emission.val_tab (Emission.tables st')) n np
           /\ aliases_pooled ex (Emission.tables st') n).
Proof.
  destruct n as [i bs]. intros H.
  pose proof (proj1 (emit_pool_grows env ex) _ _ _ H) as Hgrow.
  simpl in H. unfold is_emitted. simpl.
  destruct (String.eqb (kind i) "prim::GetAttr") eqn:Eg.
  { left. injection H as <-. auto. }
  inv_bind H. rewrite H_l. destruct a.
  { left. injection H_r as <-. auto. }
  right. split; [reflexivity|].
  inv_bind H_r. rename a into t1. inv_bind H_r_r. rename a into t2.
  pose proof (name_inputs_pool ex _ _ _ H_r_l) as [_ Hpool].
  pose proof (name_outputs_pool ex _ _ _ H_r_r_l) as Hpool2.
  assert (Hpool3 : forall t3,
            (if String.eqb (kind i) "prim::If"
             then pool_grows t2 t3 else t3 = t2) ->
            aliases_pooled ex t3 (mkNode i bs)).
  { intros t3 H3 v Hv Hs Ha. simpl in Hv.
    assert (Hin : _unique_id v ∈ map fst (Emission.onnx_vars t2))
      by (rewrite Hpool2; auto).
    destruct (String.eqb (kind i) "prim::If"); [|now subst t3].
    eapply pool_grows_key; eassumption. }
  inv_bind H_r_r_r. destruct a as [[doc attribute] t3].
  inv_bind H_r_r_r_r. destruct a as [input tab4].
  inv_bind H_r_r_r_r_r. destruct a as [output tab5].
  injection H_r_r_r_r_r_r as <-. simpl.
  unfold Emission.assign_onnx_values in *.
  apply assign_onnx_values_spec in H_r_r_r_r_l as (ins & -> & Hins & _).
  apply assign_onnx_values_spec in H_r_r_r_r_r_l as (outs & -> & Houts & Hsub).
  eexists. split; [reflexivity|]. split; [reflexivity|]. split; [reflexivity|].
  split.
  - unfold proto_of_node. simpl.
    split; [reflexivity|]. split; [eapply named_by_mono; eassumption|].
    split; [exact Houts|].
    intros Hk. apply String.eqb_neq in Hk. rewrite Hk in H_r_r_r_l.
    inv_bind H_r_r_r_l. injection H_r_r_r_l_r as <- <- _. auto.
  - simpl. apply (Hpool3 t3).
    destruct (String.eqb (kind i) "prim::If") eqn:Eif.
    + inv_bind H_r_r_r_l. apply py_assert_OK_inv in H_r_r_r_l_l.
      apply Nat.eqb_eq in H_r_r_r_l_l.
      destruct bs as [|b1 [|b2 [|b3 bs]]]; try discriminate.
      simpl in H_r_r_r_l_r.
      repeat (match goal with
              | Hb : (_ ≫= _) = OK _ |- _ => apply bind_OK_inv in Hb as (? & ? & Hb)
              | p : (_ * _)%type |- _ => destruct p
              end; simpl in * ).
      simplify_eq.
      eapply pool_grows_trans; eapply (proj2 (emit_pool_grows env ex)); eassumption.
    + inv_bind H_r_r_r_l. injection H_r_r_r_l_r as _ _ <-. reflexivity.
Qed.

(** The loop over the nodes of a block, from any state: it appends one
    proto per emitted node, numbered from the counter on. *)
Lemma emit_loop_spec (env : TorchEnv) (ex : Exporter) (ns : list Node) :
  forall st st',
    (fix loop (ns : list Node) (st : Emission.EmitState) {struct ns}
       : Result Emission.EmitState :=
       match ns with
       | [] => OK st
       | n :: ns' => st' ← Emission.emit_node env ex n st; loop ns' st'
       end) ns st = OK st' ->
    exists nps,
      Emission.onnx_nodes st' = Emission.onnx_nodes st ++ nps
      /\ Forall2 (proto_of_node ex (Emission.val_tab (Emission.tables st')))
           (List.filter (is_emitted ex) ns) nps
      /\ Forall (aliases_pooled ex (Emission.tables st')) (List.filter (is_emitted ex) ns)
      /\ (forall k np, nps !! k = Some np ->
            np_name np
            = np_op_type np +:+ "_" +:+ pretty (S (Emission.node_name_counter st + k)))
      /\ Emission.val_tab (Emission.tables st) ⊆ Emission.val_tab (Emission.tables st').
Proof.
  induction ns as [|n ns IH]; intros st st' H.
  - injection H as <-. exists []. rewrite app_nil_r.
    repeat split; [constructor|constructor| |reflexivity]. intros k np Hk. discriminate.
  - inv_bind H. rename a into st1.
    pose proof (proj1 (emit_mono env ex) n st st1 H_l) as Hmono1.
    assert (Hgrow : pool_grows (Emission.tables st1) (Emission.tables st')).
    { clear -H_r. revert st1 H_r. induction ns as [|m ns IHns]; intros st1 H.
      - injection H as <-. apply pool_grows_refl.
      - inv_bind H. eapply pool_grows_trans; [|eapply IHns; eassumption].
        eapply (proj1 (emit_pool_grows env ex)); eassumption. }
    apply IH in H_r as (nps & Hn & Hf & Hal & Hnum & Hmono).
    apply emit_node_spec in H_l as [[He ->]|(He & np & Hn1 & Hc1 & Hname & Hp & Ha)].
    + exists nps. simpl. rewrite He. repeat split; auto.
    + exists (np :: nps). simpl. rewrite He.
      split; [rewrite Hn, Hn1, <- app_assoc; reflexivity|].
      split; [|split; [|split]].
      * constructor; [|exact Hf]. eapply proto_of_node_mono; eassumption.
      * constructor; [|exact Hal]. eapply aliases_pooled_mono; eassumption.
      * intros [|k] np' Hk; simpl in Hk.
        -- injection Hk as <-. rewrite Nat.add_0_r.
           destruct Hp as (-> & _). exact Hname.
        -- rewrite (Hnum k np' Hk), Hc1. do 4 f_equal. lia.
      * etransitivity; eassumption.
Qed.

Lemma emit_block_spec (env : TorchEnv) (ex : Exporter) (b : Block)
    (t t' : Emission.Tables) (nodes : list NodeProto) :
  Emission.emit_block env ex b t = OK (nodes, t') ->
  Forall2 (proto_of_node ex (Emission.val_tab t'))
    (List.filter (is_emitted ex) (b_nodes b)) nodes
  /\ Forall (aliases_pooled ex t') (List.filter (is_emitted ex) (b_nodes b))
  /\ (forall k np, nodes !! k = Some np ->
        np_name np = np_op_type np +:+ "_" +:+ pretty (S k)).
Proof.
  destruct b as [p ns r]. intros H. simpl in H. inv_bind H. injection H_r as <- <-.
  apply emit_loop_spec in H_l as (nps & Hn & Hf & Hal & Hnum & _). simpl in *.
  subst nps. split; [exact Hf|]. split; [exact Hal|exact Hnum].
Qed.

Lemma generate_proto_nodes_OK_inv (env : TorchEnv) (ex : Exporter) (is_root : bool)
    (b : Block) (t t' : Emission.Tables) (nodes : list NodeProto) (ws : list string) :
  Emission.generate_proto_nodes env ex is_root b t = OK (nodes, t', ws) ->
  exists tab, Emission.emit_block env ex b (Emission.set_tab t tab) = OK (nodes, t').
Proof.
  unfold Emission.generate_proto_nodes. intros H.
  inv_bind H. destruct a as [tab warned]. inv_bind H_r. destruct a as [nodes0 t0].
  injection H_r_r as <- <- _. eauto.
Qed.

(** X5. [generate_proto_nodes] makes one node proto for each node of the
    block other than the [prim::GetAttr] nodes and the unused
    [onnx::Constant] nodes, in the block's order, and names the k-th
    proto (from 1) by its op type, an underscore and k: skipped nodes take
    no number, and every block starts again from 1. *)
Theorem emitted_nodes_are_numbered (env : TorchEnv) (ex : Exporter) (is_root : bool)
    (b : Block) (t t' : Emission.Tables) (nodes : list NodeProto) (ws : list string) :
  Emission.generate_proto_nodes env ex is_root b t = OK (nodes, t', ws) ->
  map np_op_type nodes = map op_type_of (List.filter (is_emitted ex) (b_nodes b))
  /\ forall k np, nodes !! k = Some np ->
       np_name np = np_op_type np +:+ "_" +:+ pretty (S k).
Proof.
  intros H. apply generate_proto_nodes_OK_inv in H as (tab & H).
  apply emit_block_spec in H as (Hf & _ & Hnum). split; [|exact Hnum].
  clear Hnum. induction Hf as [|n np ns nps (Hop & _) _ IH]; simpl; [reflexivity|].
  now rewrite Hop, IH.
Qed.

Lemma emitted_nodes_are_numbered_witness :
  let env := Sample.sample_env [] in
  let ex := Sample.exporter_on (Sample.options (Some ["c"; "x"]) None ONNX)
              Sample.if_graph Sample.two_inputs Sample.one_input in
  exists nodes t' ws,
    Emission.generate_proto_nodes env ex false
      (mkBlock (Sample.param 110 [])
         [Sample.node 109 "prim::GetAttr" [2%N] [9%N] "";
          Sample.node 111 "aten::relu" [2%N] [3%N] "";
          Sample.node 113 "aten::add_" [3%N; 3%N] [4%N] ""]
         (Sample.ret 112 [4%N]))
      Sample.no_tables = OK (nodes, t', ws)
    /\ map np_op_type nodes = ["relu"; "add_"]
    /\ map np_name nodes = ["relu_1"; "add__2"].
Proof.
  cbv zeta.
  match goal with
  | |- exists nodes t' ws, ?gen = _ /\ _ =>
      destruct gen as [[[nodes t'] ws]|e] eqn:E; [|vm_compute in E; discriminate]
  end.
  exists nodes, t', ws. split; [reflexivity|].
  destruct (emitted_nodes_are_numbered _ _ _ _ _ _ _ _ E) as [H1 H2].
  split; [exact H1|].
  vm_compute in E. injection E as <- _ _. reflexivity.
Defined.

(** X6. Every emitted node proto lists, for the inputs and outputs of
    its node, the names that the finished name table has for these
    values: a value is called the same wherever it is produced or
    consumed.  The proto of a node other than [prim::If] carries the doc
    string recorded for the node and one attribute per node attribute. *)
Theorem emitted_names_agree_with_table (env : TorchEnv) (ex : Exporter) (is_root : bool)
    (b : Block) (t t' : Emission.Tables) (nodes : list NodeProto) (ws : list string) :
  Emission.generate_proto_nodes env ex is_root b t = OK (nodes, t', ws) ->
  Forall2 (proto_of_node ex (Emission.val_tab t'))
    (List.filter (is_emitted ex) (b_nodes b)) nodes.
Proof.
  intros H. apply generate_proto_nodes_OK_inv in H as (tab & H).
  exact (proj1 (emit_block_spec env ex b _ t' nodes H)).
Qed.

Lemma emitted_names_agree_with_table_witness :
  let env := Sample.sample_env [] in
  let ex := Sample.relu_converted in
  exists nodes t' ws,
    Emission.generate_proto_nodes env ex true (g_block (g ex)) Sample.no_tables
    = OK (nodes, t', ws)
    /\ Forall2 (proto_of_node ex (Emission.val_tab t'))
         (List.filter (is_emitted ex) (b_nodes (g_block (g ex)))) nodes
    /\ map np_input nodes = [["y"]] /\ Emission.val_tab t' !! 1%N = Some "y".
Proof.
  cbv zeta.
  destruct (Emission.generate_proto_nodes (Sample.sample_env []) Sample.relu_converted
              true (g_block (g Sample.relu_converted)) Sample.no_tables)
    as [[[nodes t'] ws]|e] eqn:E; [|vm_compute in E; discriminate].
  exists nodes, t', ws. split; [reflexivity|].
  split; [exact (emitted_names_agree_with_table _ _ _ _ _ _ _ _ E)|].
  vm_compute in E. injection E as <- <- _. split; reflexivity.
Defined.

(** ** The input names of the root graph *)

Lemma real_inputs_length (ex : Exporter) (ins : list Value) :
  length (real_inputs ex ins) <= length ins.
Proof.
  induction ins as [|v ins IH]; simpl; [lia|].
  destruct (negb (Lowering.is_self ex v)); simpl; lia.
Qed.

Lemma override_inputs_spec (ex : Exporter) (names : list string) (ins : list Value) :
  forall idx sc tab,
    sc <= idx ->
    Emission.override_inputs ex names ins idx sc tab
    = if Nat.leb (length (real_inputs ex ins)) (length (drop (idx - sc) names))
      then OK (sc + (length ins - length (real_inputs ex ins)),
               with_names (real_inputs ex ins) (drop (idx - sc) names) tab)
      else Raise IndexError.
Proof.
  induction ins as [|v ins IH]; intros idx sc tab Hle; simpl.
  - rewrite Nat.add_0_r. reflexivity.
  - pose proof (real_inputs_length ex ins) as Hlen.
    destruct (Lowering.is_self ex v) eqn:Es; simpl.
    + rewrite IH by lia. replace (S idx - S sc) with (idx - sc) by lia.
      fold (real_inputs ex ins).
      destruct (Nat.leb _ _); [|reflexivity]. do 2 f_equal. lia.
    + fold (real_inputs ex ins).
      destruct (names !! (idx - sc)) as [nm|] eqn:En.
      * rewrite IH by lia. replace (S idx - sc) with (S (idx - sc)) by lia.
        rewrite (drop_S names nm (idx - sc) En). simpl.
        destruct (Nat.leb _ _); reflexivity.
      * apply lookup_ge_None in En. rewrite drop_ge by lia. reflexivity.
Qed.

(** X7. In the root graph the supplied [input_names] go, in order, to
    the graph inputs other than the module itself, overwriting what the
    table had for them.  With as many names as such inputs the step
    succeeds; with fewer it raises IndexError while indexing the names,
    before its count assertion is reached; with more it fails that
    assertion. *)
Theorem input_name_overrides (ex : Exporter) (names : list string) (b : Block)
    (tab : gmap TorchValueID ONNXValueID) :
  let real := real_inputs ex (b_inputs b) in
  (length names = length real ->
   Emission.apply_input_names ex names b tab = OK (with_names real names tab))
  /\ (length names < length real ->
      Emission.apply_input_names ex names b tab = Raise IndexError)
  /\ (length real < length names ->
      Emission.apply_input_names ex names b tab = Raise (AssertionError "input_names"))
  /\ (forall k v nm,
        NoDup real -> real !! k = Some v -> names !! k = Some nm ->
        with_names real names tab !! _unique_id v = Some nm)
  /\ (forall id, id ∉ real -> with_names real names tab !! id = tab !! id).
Proof.
  cbv zeta. unfold Emission.apply_input_names.
  rewrite override_inputs_spec by lia. simpl. rewrite drop_0.
  pose proof (real_inputs_length ex (b_inputs b)) as Hlen.
  split; [|split; [|split; [|split]]].
  - intros Heq. rewrite (proj2 (Nat.leb_le _ _)) by lia. simpl.
    replace (Nat.eqb _ _) with true; [reflexivity|].
    symmetry. apply Nat.eqb_eq. lia.
  - intros Hlt. rewrite (proj2 (Nat.leb_gt _ _)) by lia. reflexivity.
  - intros Hgt. rewrite (proj2 (Nat.leb_le _ _)) by lia. simpl.
    rewrite py_assert_false; [reflexivity|]. apply Nat.eqb_neq. lia.
  - intros k v nm Hnd Hv Hnm. unfold with_names, _unique_id at 1.
    apply (fold_insert_nodup _ tab k v nm).
    + rewrite map_fst_zip. eapply sublist_NoDup; [exact Hnd|apply sublist_take].
    + rewrite lookup_zip_with, Hv. simpl. now rewrite Hnm.
  - intros id Hnot. unfold with_names. apply fold_insert_not_in.
    rewrite map_fst_zip. intros Hin. apply Hnot.
    apply elem_of_take in Hin as (i & Hi & _).
    eapply list_elem_of_lookup_2. exact Hi.
Qed.

Lemma input_name_overrides_witness :
  let ex := Sample.exporter_on (Sample.options (Some ["a"; "b"]) None ONNX)
              Sample.add_graph Sample.two_inputs Sample.one_input in
  Emission.apply_input_names ex ["a"; "b"] (g_block Sample.add_graph) ∅
  = OK {[ 1%N := "a"; 2%N := "b" ]}
  /\ Emission.apply_input_names ex ["a"] (g_block Sample.add_graph) ∅ = Raise IndexError
  /\ Emission.apply_input_names ex ["a"; "b"; "c"] (g_block Sample.add_graph) ∅
     = Raise (AssertionError "input_names").
Proof.
  cbv zeta. split; [|split].
  - rewrite (proj1 (input_name_overrides _ ["a"; "b"] (g_block Sample.add_graph) ∅));
      [|reflexivity].
    vm_compute. reflexivity.
  - apply (input_name_overrides _ ["a"] (g_block Sample.add_graph) ∅). simpl. lia.
  - apply (input_name_overrides _ ["a"; "b"; "c"] (g_block Sample.add_graph) ∅). simpl. lia.
Defined.

(** ** The value infos of the model's inputs and outputs *)

Lemma apply_tensor_info_spec (v v' : ValueInfoProto) (t : Tensor) :
  Convert._apply_tensor_info_to_value_info v t = OK v' ->
  describes v' t /\ vi_name v' = vi_name v /\ vi_doc_string v' = vi_doc_string v.
Proof.
  unfold Convert._apply_tensor_info_to_value_info, describes.
  destruct (torch_dtype_to_onnx_data_type (t_dtype t)) as [et|]; [|discriminate].
  intros [= <-]. simpl.
  split; [eexists _, _; split; reflexivity|split; reflexivity].
Qed.

Lemma onnx_value_name (env : TorchEnv) ex v k vi :
  Convert.onnx_value env ex v k = OK vi -> vi_name vi = k.
Proof. unfold Convert.onnx_value. intros H. inv_bind H. now injection H_r as <-. Qed.

Lemma onnx_outputs_of_spec (env : TorchEnv) (ex : Exporter)
    (tab : gmap TorchValueID ONNXValueID) (outs : list Value) :
  forall idx l,
    Convert.onnx_outputs_of env ex tab outs idx = OK l ->
    named_by tab outs (map vi_name l)
    /\ Forall2 describes l (take (length outs) (drop idx (ex_outputs ex))).
Proof.
  induction outs as [|v outs IH]; intros idx l H; simpl in H.
  - injection H as <-. split; constructor.
  - inv_bind H. rename a into k. inv_bind H_r. rename a into vi.
    inv_bind H_r_r. rename a into t. inv_bind H_r_r_r. rename a into vi'.
    inv_bind H_r_r_r_r. injection H_r_r_r_r_r as <-.
    destruct (tab !! _unique_id v) as [k'|] eqn:Ek; [|discriminate].
    injection H_l as ->.
    destruct (ex_outputs ex !! idx) as [t'|] eqn:Et; [|discriminate].
    injection H_r_r_l as ->.
    apply onnx_value_name in H_r_l.
    apply apply_tensor_info_spec in H_r_r_r_l as (Hd & Hn & _).
    apply IH in H_r_r_r_r_l as [Hnames Hdesc].
    rewrite (drop_S _ _ _ Et). simpl. split.
    + constructor; [rewrite Hn; subst k; exact Ek|exact Hnames].
    + constructor; assumption.
Qed.

Lemma onnx_inputs_of_spec (env : TorchEnv) (ex : Exporter)
    (tab : gmap TorchValueID ONNXValueID) (ins : list Value) :
  forall idx sc l,
    sc <= idx ->
    Convert.onnx_inputs_of env ex tab ins idx sc = OK l ->
    named_by tab (real_inputs ex ins) (map vi_name l)
    /\ Forall (fun v => Torch.uses (g ex) v <> []) (real_inputs ex ins)
    /\ Forall2 describes l
         (take (length (real_inputs ex ins)) (drop (idx - sc) (ex_inputs ex))).
Proof.
  induction ins as [|v ins IH]; intros idx sc l Hle H; simpl in H.
  - injection H as <-. repeat split; constructor.
  - simpl. destruct (Lowering.is_self ex v) eqn:Es; simpl.
    + apply IH in H; [|lia]. replace (S idx - S sc) with (idx - sc) in H by lia. exact H.
    + inv_bind H. inv_bind H_r. rename a0 into k. inv_bind H_r_r. rename a0 into vi.
      inv_bind H_r_r_r. rename a0 into t. inv_bind H_r_r_r_r. rename a0 into vi'.
      inv_bind H_r_r_r_r_r. injection H_r_r_r_r_r_r as <-.
      apply py_assert_OK_inv in H_l. apply Nat.ltb_lt in H_l.
      destruct (tab !! _unique_id v) as [k'|] eqn:Ek; [|discriminate].
      injection H_r_l as ->.
      destruct (ex_inputs ex !! (idx - sc)) as [t'|] eqn:Et; [|discriminate].
      injection H_r_r_r_l as ->.
      apply onnx_value_name in H_r_r_l.
      apply apply_tensor_info_spec in H_r_r_r_r_l as (Hd & Hn & _).
      apply IH in H_r_r_r_r_r_l as (Hnames & Hused & Hdesc); [|lia].
      replace (S idx - sc) with (S (idx - sc)) in Hdesc by lia.
      rewrite (drop_S _ _ _ Et). simpl. split; [|split].
      * constructor; [rewrite Hn; subst k; exact Ek|exact Hnames].
      * constructor; [|exact Hused]. intros Hnil. rewrite Hnil in H_l. simpl in H_l. lia.
      * constructor; assumption.
Qed.

(** X8. The value infos [generate_onnx] makes for the graph's inputs
    (the module itself left out) and outputs are named after the name
    table and typed after the example input and output tensors, in
    order: element type from the tensor's dtype, one dimension per axis,
    whatever the type of the value in the graph.  Every such input has a
    use, and there are no more graph outputs than traced outputs. *)
Theorem boundary_values_follow_example_tensors (env : TorchEnv) (ex : Exporter)
    (tab : gmap TorchValueID ONNXValueID) :
  (forall ins l,
     Convert.onnx_inputs_of env ex tab ins 0 0 = OK l ->
     named_by tab (real_inputs ex ins) (map vi_name l)
     /\ Forall (fun v => Torch.uses (g ex) v <> []) (real_inputs ex ins)
     /\ Forall2 describes l (take (length (real_inputs ex ins)) (ex_inputs ex)))
  /\ (forall outs l,
        Convert.onnx_outputs_of env ex tab outs 0 = OK l ->
        named_by tab outs (map vi_name l)
        /\ Forall2 describes l (take (length outs) (ex_outputs ex))
        /\ length outs <= length (ex_outputs ex)).
Proof.
  split.
  - intros ins l H. apply onnx_inputs_of_spec in H; [|lia]. exact H.
  - intros outs l H. apply onnx_outputs_of_spec in H as [Hn Hd].
    rewrite drop_0 in Hd. split; [exact Hn|]. split; [exact Hd|].
    apply Forall2_length in Hn, Hd. rewrite length_map in Hn.
    rewrite length_take in Hd. lia.
Qed.

Lemma boundary_values_follow_example_tensors_witness :
  let env := Sample.sample_env [] in
  let ex := Sample.relu_converted in
  let tab : gmap TorchValueID ONNXValueID := {[ 1%N := "y"; 201%N := "out" ]} in
  Torch.graph_outputs (g ex) = [201%N; 1%N]
  /\ exists l,
       Convert.onnx_outputs_of env ex tab (Torch.graph_outputs (g ex)) 0 = OK l
       /\ map vi_name l = ["out"; "y"]
       /\ Forall2 describes l (take 2 (ex_outputs ex))
       /\ is_OK (Convert.onnx_outputs_of env ex tab [201%N; 1%N; 1%N] 0) = false.
Proof.
  cbv zeta. split; [reflexivity|].
  destruct (Convert.onnx_outputs_of (Sample.sample_env []) Sample.relu_converted
              {[ 1%N := "y"; 201%N := "out" ]}
              (Torch.graph_outputs (g Sample.relu_converted)) 0) as [l|e] eqn:E;
    [|vm_compute in E; discriminate].
  exists l. split; [reflexivity|].
  destruct (proj2 (boundary_values_follow_example_tensors (Sample.sample_env [])
                     Sample.relu_converted {[ 1%N := "y"; 201%N := "out" ]})
              _ l E) as (Hn & Hd & _).
  split; [|split; [exact Hd|]].
  - vm_compute in E. injection E as <-. reflexivity.
  - destruct (Convert.onnx_outputs_of (Sample.sample_env []) Sample.relu_converted
                {[ 1%N := "y"; 201%N := "out" ]} [201%N; 1%N; 1%N] 0) as [l3|e] eqn:E3;
      [|reflexivity].
    destruct (proj2 (boundary_values_follow_example_tensors (Sample.sample_env [])
                       Sample.relu_converted {[ 1%N := "y"; 201%N := "out" ]})
                _ l3 E3) as (_ & _ & Hlen).
    vm_compute in Hlen. lia.
Defined.

(** ** Strings *)

Lemma string_app_assoc (s t u : string) : (s +:+ t) +:+ u = s +:+ (t +:+ u).
Proof.
  induction s as [|c s IH]; [reflexivity|].
  change (String c ((s +:+ t) +:+ u) = String c (s +:+ (t +:+ u))). now rewrite IH.
Qed.

Lemma string_app_nil_r (s : string) : s +:+ "" = s.
Proof.
  induction s as [|c s IH]; [reflexivity|].
  change (String c (s +:+ "") = String c s). now rewrite IH.
Qed.

Lemma string_rev_onto_app (s acc : string) :
  string_rev_onto s acc = string_rev_onto s "" +:+ acc.
Proof.
  revert acc. induction s as [|c s IH]; intros acc; simpl; [reflexivity|].
  rewrite (IH (String c acc)), (IH (String c "")), string_app_assoc. reflexivity.
Qed.

Lemma string_rev_cons (c : Ascii.ascii) (s : string) :
  string_rev (String c s) = string_rev s +:+ String c "".
Proof. unfold string_rev. simpl. apply string_rev_onto_app. Qed.

Lemma string_rev_app (s t : string) :
  string_rev (s +:+ t) = string_rev t +:+ string_rev s.
Proof.
  induction s as [|c s IH].
  - change (string_rev t = string_rev t +:+ ""). now rewrite string_app_nil_r.
  - change (string_rev (String c (s +:+ t)) = string_rev t +:+ string_rev (String c s)).
    rewrite !string_rev_cons, IH, string_app_assoc. reflexivity.
Qed.

Lemma string_rev_involutive (s : string) : string_rev (string_rev s) = s.
Proof.
  induction s as [|c s IH]; [reflexivity|].
  rewrite string_rev_cons, string_rev_app, IH. reflexivity.
Qed.

Lemma endswith_snoc (s : string) (c : Ascii.ascii) :
  endswith (s +:+ String c "") (String c "") = true.
Proof.
  unfold endswith. rewrite string_rev_app.
  change (String.prefix (String c "") (String c (string_rev s)) = true).
  simpl. destruct (Ascii.ascii_dec c c); [|congruence].
  destruct (string_rev s); reflexivity.
Qed.

Lemma drop_last_char_snoc (s : string) (c : Ascii.ascii) :
  drop_last_char (s +:+ String c "") = s.
Proof.
  unfold drop_last_char. rewrite string_rev_app.
  change (string_rev (string_rev s) = s). apply string_rev_involutive.
Qed.

Lemma endswith_underscore (s : string) : endswith (s +:+ "_") "_" = true.
Proof. exact (endswith_snoc s _). Qed.

Lemma drop_last_char_underscore (s : string) : drop_last_char (s +:+ "_") = s.
Proof. exact (drop_last_char_snoc s _). Qed.

(** ** Finding the lowering function *)

(** X9. The lowering function of an in-place operator is that of the
    operator without the trailing underscore: [symbolic_function] gives
    the same answer for [ns::op_] as for [ns::op]. *)
Theorem inplace_ops_lower_like_outplace (env : TorchEnv) (ex : Exporter)
    (n n' : Node) (ns op : string) :
  py_split (kind (info n)) "::" = [ns; op] ->
  endswith op "_" = false ->
  py_split (kind (info n')) "::" = [ns; op +:+ "_"] ->
  pyobj (info n') = pyobj (info n) ->
  Lowering.symbolic_function env ex n' = Lowering.symbolic_function env ex n.
Proof.
  intros Hn Hop Hn' Hpy. unfold Lowering.symbolic_function.
  rewrite Hn, Hn', Hop, Hpy.
  rewrite endswith_underscore, drop_last_char_underscore. reflexivity.
Qed.

Lemma inplace_ops_lower_like_outplace_witness :
  let env := Sample.sample_env [] in
  let ex := Sample.exporter_on (Sample.options (Some ["x"]) None ONNX)
              Sample.relu_graph Sample.one_input Sample.two_inputs in
  Lowering.symbolic_function env ex (Sample.node 101 "aten::relu_" [1%N] [2%N] "")
  = Lowering.symbolic_function env ex (Sample.node 101 "aten::relu" [1%N] [2%N] "")
  /\ exists f, Lowering.symbolic_function env ex
                 (Sample.node 101 "aten::relu" [1%N] [2%N] "") = OK (Some f).
Proof.
  cbv zeta. split.
  - apply (inplace_ops_lower_like_outplace _ _ _ _ "aten" "relu"); reflexivity.
  - eexists. vm_compute. reflexivity.
Defined.

(** ** The ATen fallback *)

Lemma op_outputs_length ref k ins a n_outputs gr :
  length (snd (Torch.op ref k ins a n_outputs gr)) = n_outputs.
Proof.
  unfold Torch.op, Torch.create, new_node, Torch.seqN_values. simpl.
  now rewrite length_map, length_seq.
Qed.

Lemma list_of_outs_outs_of (vs : list Value) :
  Lowering.list_of_outs (Lowering.outs_of vs) = vs.
Proof. destruct vs as [|v [|w vs]]; reflexivity. Qed.

Lemma collect_attrs_OK (n : Node) (a a' : list (string * AttrValue)) :
  Lowering.collect_attrs n a = OK a' -> a' = a.
Proof.
  revert a'. induction a as [|[k v] a IH]; intros a' H; simpl in H.
  - now injection H as <-.
  - inv_bind H. inv_bind H_r. injection H_r_r as <-. f_equal. now apply IH.
Qed.

(** X10. The ATen fallback [gen_aten_node] takes no keyword argument and
    makes one ATen node with as many outputs as the node it replaces: it
    raises TypeError when called with an attribute of the node,
    IndexError for a node without outputs, and what it returns always
    passes the arity check of [run_symbolic_function].  So in the ATen
    export modes a node that has an attribute other than [inplace] is
    never lowered: the export raises TypeError. *)
Theorem aten_fallback_arity (env : TorchEnv) (n : Node) (ref : BlockRef)
    (args : list SymArg) (kwargs : list (string * AttrValue)) (gr : Graph) :
  (forall gr' outs,
     Lowering.gen_aten_node n ref args kwargs gr = OK (gr', outs) ->
     kwargs = [] /\ 1 <= outputsSize n
     /\ length (Lowering.list_of_outs outs) = outputsSize n)
  /\ (kwargs <> [] -> Lowering.gen_aten_node n ref args kwargs gr = Raise TypeError)
  /\ (kwargs = [] -> outputsSize n = 0 ->
      Lowering.gen_aten_node n ref args kwargs gr = Raise IndexError)
  /\ (forall depth id ex f,
        Lowering.get_node (g ex) id = OK n ->
        kind (info n) ∉ handler_kinds ->
        Lowering.symbolic_function env ex n = OK f ->
        operator_export_type (opts ex) = ONNX_ATEN
        \/ operator_export_type (opts ex) = ONNX_FALLTHROUGH ->
        Lowering.collect_attrs n (attributes (info n)) = OK (attributes (info n)) ->
        Lowering.del_inplace (attributes (info n)) <> [] ->
        Lowering.generate_onnx_node env (S depth) ref id ex = Raise TypeError).
Proof.
  split; [|split; [|split]].
  - intros gr' outs H. unfold Lowering.gen_aten_node in H.
    destruct kwargs as [|kv kwargs]; [|discriminate].
    apply bind_OK_inv in H as (u & _ & H).
    destruct (Lowering.const_if_tensor ref args gr) as [gr0 ins].
    pose proof (op_outputs_length ref "ATen" ins [] (length (outputs (info n))) gr0) as Hlen.
    destruct (Torch.op ref "ATen" ins [] (length (outputs (info n))) gr0) as [gr1 ret].
    simpl in Hlen. inv_bind H. injection H_r as _ <-.
    rewrite list_of_outs_outs_of. unfold outputsSize in *.
    split; [reflexivity|]. split; [|exact Hlen].
    destruct (length (outputs (info n))) as [|k] eqn:E; [|lia].
    destruct ret; [discriminate|discriminate].
  - intros Hk. unfold Lowering.gen_aten_node.
    destruct kwargs; [congruence|reflexivity].
  - intros -> H0. unfold Lowering.gen_aten_node.
    change (Lowering.no_kwargs [] ≫= ?k) with (k tt). cbv beta.
    destruct (Lowering.const_if_tensor ref args gr) as [gr0 ins].
    pose proof (op_outputs_length ref "ATen" ins [] (length (outputs (info n))) gr0) as Hlen.
    destruct (Torch.op ref "ATen" ins [] (length (outputs (info n))) gr0) as [gr1 ret].
    simpl in Hlen. unfold outputsSize in *. rewrite H0 in *.
    destruct ret; [reflexivity|discriminate].
  - intros depth id ex f Hn Hk Hs Hmode Hattrs Hne. simpl. rewrite Hn. simpl.
    destruct (not_handler_kind _ Hk) as (-> & -> & -> & ->).
    rewrite Hs. simpl.
    assert (Hf : (OperatorExportTypes_eqb (operator_export_type (opts ex)) ONNX_ATEN
                  || OperatorExportTypes_eqb (operator_export_type (opts ex)) ONNX_FALLTHROUGH
                  || OperatorExportTypes_eqb (operator_export_type (opts ex)) ONNX_ATEN_FALLBACK
                     && match f with None => true | Some _ => false end) = true).
    { destruct Hmode as [-> | ->]; reflexivity. }
    rewrite Hf. unfold Lowering.run_symbolic_function, Lowering.call_sym_func.
    rewrite Hn. simpl. rewrite Hattrs. simpl.
    unfold Lowering.gen_aten_node.
    destruct (Lowering.del_inplace (attributes (info n))); [congruence|reflexivity].
Qed.

Lemma aten_fallback_arity_witness :
  let env := Sample.sample_env [] in
  let n := Sample.node 101 "aten::relu" [1%N] [2%N] "" in
  let n_attr :=
    mkNode (set_attributes (info n) [("alpha", attr_i 1)]) [] in
  let ex := Sample.exporter_on (Sample.options (Some ["x"]) None ONNX_ATEN)
              (Sample.graph_of (mkBlock (Sample.param 100 [1%N]) [n_attr]
                                        (Sample.ret 102 [2%N])) ∅)
              Sample.one_input Sample.one_input in
  (exists gr' outs,
     Lowering.gen_aten_node n root_block [arg_value 1%N] [] Sample.relu_graph
     = OK (gr', outs)
     /\ length (Lowering.list_of_outs outs) = outputsSize n)
  /\ Lowering.gen_aten_node n root_block [arg_value 1%N] [("alpha", attr_i 1)]
       Sample.relu_graph = Raise TypeError
  /\ Lowering.generate_onnx_node env 1 root_block 101%N ex = Raise TypeError.
Proof.
  cbv zeta. split; [|split].
  - destruct (Lowering.gen_aten_node (Sample.node 101 "aten::relu" [1%N] [2%N] "")
                root_block [arg_value 1%N] [] Sample.relu_graph)
      as [[gr' outs]|e] eqn:E; [|vm_compute in E; discriminate].
    exists gr', outs. split; [reflexivity|].
    apply (proj1 (aten_fallback_arity (Sample.sample_env []) _ _ _ _ _) gr' outs E).
  - apply (aten_fallback_arity (Sample.sample_env [])). discriminate.
  - apply (proj2 (proj2 (proj2 (aten_fallback_arity (Sample.sample_env [])
             (mkNode (set_attributes
                        (info (Sample.node 101 "aten::relu" [1%N] [2%N] ""))
                        [("alpha", attr_i 1)]) [])
             root_block [] [] Sample.relu_graph))) 0 101%N _ (Some Sample.relu_symbolic)).
    + reflexivity.
    + unfold handler_kinds. simpl. intros Hin.
      repeat (apply elem_of_cons in Hin as [Hin|Hin]; [discriminate|]).
      inversion Hin.
    + reflexivity.
    + left. reflexivity.
    + reflexivity.
    + discriminate.
Defined.

(** ** Handlers come before the registry *)

(** X11. For a node of kind [prim::Constant], [prim::GetAttr] or
    [prim::ListConstruct] the handler of [generate_onnx_node] is used and
    the registry of lowering functions is never consulted: the result is
    the same whatever is registered. *)
Theorem handlers_come_before_registry (env : TorchEnv)
    (reg : string -> Z -> option SymFunc) (pyf : string -> option (option SymFunc))
    (depth : nat) (ref : BlockRef) (id : N) (ex : Exporter) (n : Node) :
  Lowering.get_node (g ex) id = OK n ->
  kind (info n) ∈ ["prim::Constant"; "prim::GetAttr"; "prim::ListConstruct"] ->
  Lowering.generate_onnx_node (with_lowerings env reg pyf) depth ref id ex
  = Lowering.generate_onnx_node env depth ref id ex.
Proof.
  intros Hn Hk. destruct depth as [|depth]; [reflexivity|]. simpl. rewrite Hn. simpl.
  repeat (apply elem_of_cons in Hk as [->|Hk]); [| | |inversion Hk]; reflexivity.
Qed.

Lemma handlers_come_before_registry_witness :
  let env := Sample.sample_env [] in
  let n := mkNode (set_attributes (Sample.node_info 101 "prim::Constant" [] [2%N] "")
                     [("value", attr_i 3)]) [] in
  let ex := Sample.exporter_on (Sample.options (Some ["x"]) None ONNX)
              (Sample.graph_of (mkBlock (Sample.param 100 [1%N]) [n]
                                        (Sample.ret 102 [2%N])) ∅)
              Sample.one_input Sample.one_input in
  Lowering.generate_onnx_node
    (with_lowerings env (fun _ _ => Some Sample.two_outputs_symbolic) (fun _ => None))
    1 root_block 101%N ex
  = Lowering.generate_onnx_node env 1 root_block 101%N ex
  /\ is_OK (Lowering.generate_onnx_node env 1 root_block 101%N ex) = true.
Proof.
  cbv zeta. split; [|vm_compute; reflexivity].
  eapply handlers_come_before_registry.
  - reflexivity.
  - simpl. apply list_elem_of_In. left. reflexivity.
Defined.

(** ** Attribute aliases and the initializers made from them *)

(** X12. [handle_getattr] records one alias, for the output of the
    [prim::GetAttr] node: the attribute's name when the node reads the
    module itself, else the alias of the node's input, a dot and the
    name.  It leaves the nodes of the graph, the doc strings and the
    scopes as they are.  When the input is neither the module nor a value
    with an alias it raises KeyError. *)
Theorem getattr_registers_alias (ref : BlockRef) (id : N) (ex : Exporter) :
  (forall ex',
     Lowering.handle_getattr ref id ex = OK ex' ->
     exists n i o nm,
       Lowering.get_node (g ex) id = OK n
       /\ inputs (info n) = [i] /\ outputs (info n) = [o]
       /\ Lowering.attr_s_of n "name" = OK nm
       /\ (Lowering.is_self ex i = false -> is_Some (attrs ex !! _unique_id i))
       /\ attrs ex'
          = <[ _unique_id o :=
                 if Lowering.is_self ex i then nm
                 else default "" (attrs ex !! _unique_id i) +:+ "." +:+ nm ]> (attrs ex)
       /\ g_block (g ex') = g_block (g ex)
       /\ node_doc_string ex' = node_doc_string ex
       /\ node_scope ex' = node_scope ex)
  /\ (forall n i,
        Lowering.get_node (g ex) id = OK n -> inputs (info n) = [i] ->
        Lowering.is_self ex i = false -> attrs ex !! _unique_id i = None ->
        Lowering.handle_getattr ref id ex = Raise KeyError).
Proof.
  split.
  - intros ex' H. unfold Lowering.handle_getattr in H.
    inv_bind H. rename a into n. inv_bind H_r. rename a into i.
    inv_bind H_r_r. rename a into full. inv_bind H_r_r_r. rename a into o.
    unfold Lowering.the_input in H_r_l. unfold Lowering.the_output in H_r_r_r_l.
    destruct (inputs (info n)) as [|i' [|]] eqn:Ei; try discriminate.
    injection H_r_l as ->.
    destruct (outputs (info n)) as [|o' [|]] eqn:Eo; try discriminate.
    injection H_r_r_r_l as ->.
    assert (Hfull : exists nm,
               Lowering.attr_s_of n "name" = OK nm
               /\ (Lowering.is_self ex i = false -> is_Some (attrs ex !! _unique_id i))
               /\ full = if Lowering.is_self ex i then nm
                         else default "" (attrs ex !! _unique_id i) +:+ "." +:+ nm).
    { destruct (Lowering.is_self ex i).
      - exists full. split; [exact H_r_r_l|]. split; [discriminate|reflexivity].
      - destruct (attrs ex !! _unique_id i) as [base|]; [|discriminate].
        inv_bind H_r_r_l. injection H_r_r_l_r as <-.
        exists a. split; [assumption|]. split; [eauto|reflexivity]. }
    destruct Hfull as (nm & Hnm & Hsome & ->).
    exists n, i, o, nm. split; [assumption|]. split; [exact Ei|].
    split; [exact Eo|]. split; [assumption|]. split; [assumption|].
    simpl in H_r_r_r_r.
    destruct (vars ex !! _); injection H_r_r_r_r as <-; simpl; auto.
  - intros n i Hn Hi Hs Ha. unfold Lowering.handle_getattr.
    rewrite Hn. simpl. unfold Lowering.the_input. rewrite Hi. simpl.
    rewrite Hs.
    match goal with
    | |- match ?x with _ => _ end ≫= _ = _ => assert (x = None) as -> by exact Ha
    end.
    reflexivity.
Qed.

Lemma getattr_registers_alias_witness :
  let ex := ModuleSample.exporter in
  (exists ex1 ex2,
     Lowering.handle_getattr root_block 101%N ex = OK ex1
     /\ Lowering.handle_getattr root_block 103%N ex1 = OK ex2
     /\ attrs ex2 = {[ 3%N := "fc"; 4%N := "fc.weight" ]}
     /\ g_block (g ex2) = g_block (g ex))
  /\ Lowering.handle_getattr root_block 104%N ex = Raise KeyError.
Proof.
  cbv zeta. split.
  - destruct (Lowering.handle_getattr root_block 101%N ModuleSample.exporter)
      as [ex1|err] eqn:E1; [|vm_compute in E1; discriminate].
    destruct (Lowering.handle_getattr root_block 103%N ex1) as [ex2|err] eqn:E2;
      [|vm_compute in E1; injection E1 as <-; vm_compute in E2; discriminate].
    destruct (proj1 (getattr_registers_alias root_block 101%N ModuleSample.exporter) ex1 E1)
      as (n1 & i1 & o1 & nm1 & _ & _ & _ & _ & _ & _ & Hb1 & _).
    destruct (proj1 (getattr_registers_alias root_block 103%N ex1) ex2 E2)
      as (n2 & i2 & o2 & nm2 & _ & _ & _ & _ & _ & _ & Hb2 & _).
    exists ex1, ex2. split; [reflexivity|]. split; [exact E2|]. split.
    + vm_compute in E1. injection E1 as <-. vm_compute in E2. injection E2 as <-.
      vm_compute. reflexivity.
    + rewrite Hb2, Hb1. reflexivity.
  - apply (proj2 (getattr_registers_alias root_block 104%N ModuleSample.exporter)
             (ModuleSample.get_attr 104 "bias" 7%N 5%N) 7%N); reflexivity.
Defined.

(** X13. Emission keeps the pool of initializers with one entry per
    value: it only appends to the pool, and never a second entry for a
    value that has one.  Every input of an emitted node that has an
    attribute alias, the module itself apart, has its entry, and an entry
    that emission added is the state-dict tensor of the alias, named by
    the alias. *)
Theorem parameters_become_initializers (env : TorchEnv) (ex : Exporter) (is_root : bool)
    (b : Block) (t t' : Emission.Tables) (nodes : list NodeProto) (ws : list string) :
  Emission.generate_proto_nodes env ex is_root b t = OK (nodes, t', ws) ->
  pool_grows t t'
  /\ forall n v k,
       n ∈ b_nodes b -> is_emitted ex n = true -> v ∈ inputs (info n) ->
       Lowering.is_self ex v = false -> attrs ex !! _unique_id v = Some k ->
       exists tp,
         (_unique_id v, tp) ∈ Emission.onnx_vars t'
         /\ ((_unique_id v, tp) ∈ Emission.onnx_vars t
             \/ exists tens, vars ex !! k = Some tens
                  /\ tp = _tensor_to_proto tens (Some k)).
Proof.
  intros H. apply generate_proto_nodes_OK_inv in H as (tab & H).
  pose proof (proj2 (emit_pool_grows env ex) _ _ _ _ H) as Hgrow.
  split; [exact Hgrow|].
  intros n v k Hn He Hv Hs Hk.
  destruct (emit_block_spec env ex b _ t' nodes H) as (_ & Hal & _).
  rewrite Forall_forall in Hal.
  assert (Hin : n ∈ List.filter (is_emitted ex) (b_nodes b)).
  { apply list_elem_of_In. apply filter_In. split; [now apply list_elem_of_In|exact He]. }
  specialize (Hal n Hin v Hv Hs (ex_intro _ k Hk)).
  apply list_elem_of_fmap in Hal as ([id tp] & Hid & Hp). simpl in Hid. subst id.
  exists tp. split; [exact Hp|].
  destruct (emit_pool env ex b _ nodes t' H _ Hp) as [Hold|(k' & tens & Hk' & Ht & Htp)].
  - left. exact Hold.
  - right. simpl in *. unfold _unique_id in *. rewrite Hk in Hk'. injection Hk' as <-.
    eauto.
Qed.

Lemma parameters_become_initializers_witness :
  let env := Sample.sample_env [] in
  let ex := ModuleSample.lowered in
  exists nodes t' ws,
    Emission.generate_proto_nodes env ex true (g_block (g ex)) Sample.no_tables
    = OK (nodes, t', ws)
    /\ NoDup (map fst (Emission.onnx_vars t'))
    /\ (4%N, _tensor_to_proto (Sample.float_tensor [2; 3]%Z) (Some "fc.weight"))
       ∈ Emission.onnx_vars t'.
Proof.
  cbv zeta.
  destruct (Emission.generate_proto_nodes (Sample.sample_env []) ModuleSample.lowered
              true (g_block (g ModuleSample.lowered)) Sample.no_tables)
    as [[[nodes t'] ws]|e] eqn:E; [|vm_compute in E; discriminate].
  exists nodes, t', ws. split; [reflexivity|].
  destruct (parameters_become_initializers _ _ _ _ _ _ _ _ E) as [[_ Hnd] Hall].
  split; [apply Hnd; constructor|].
  destruct (Hall (Sample.node 105 "aten::add" [2; 4]%N [6%N] "M/__module.fc")
              4%N "fc.weight") as (tp & Hin & [Hold|(tens & Ht & ->)]).
  - vm_compute. apply list_elem_of_In. simpl. tauto.
  - reflexivity.
  - apply list_elem_of_In. simpl. tauto.
  - reflexivity.
  - reflexivity.
  - inversion Hold.
  - vm_compute in Ht. injection Ht as <-. exact Hin.
Defined.

(** ** The nodes a lowering function added *)

Lemma pop_last_Some (l : list Value) (x : Value) (r : list Value) :
  Lowering.pop_last l = Some (x, r) -> l = r ++ [x].
Proof.
  unfold Lowering.pop_last. destruct (rev l) as [|y r'] eqn:E; [discriminate|].
  intros [= -> <-]. rewrite <- (rev_involutive l), E. reflexivity.
Qed.

Lemma worklist_spec (root : Block) (start : gset Value) (fuel : nat) :
  forall targets ret ret',
    Lowering.worklist fuel root start targets ret = OK ret' ->
    ret ⊆ ret'
    /\ (forall id, id ∈ ret' ->
          id ∈ ret \/ (exists v, (v ∉ start) /\ id = nid (Torch.value_node root v)))
    /\ (Forall (fun v => v ∈ start) targets -> ret' = ret).
Proof.
  induction fuel as [|fuel IH]; intros targets ret ret' H; simpl in H; [discriminate|].
  destruct (Lowering.pop_last targets) as [[i rest]|] eqn:Ep.
  2:{ injection H as <-. repeat split; auto. }
  apply pop_last_Some in Ep. subst targets.
  destruct (decide (i ∈ start)) as [Hi|Hi].
  - apply IH in H as (H1 & H2 & H3). repeat split; auto.
    intros Hall. apply H3. apply Forall_app in Hall as [Hall _]. exact Hall.
  - apply IH in H as (H1 & H2 & H3). split; [|split].
    + etransitivity; [|exact H1]. apply union_subseteq_r.
    + intros id Hid. destruct (H2 id Hid) as [Hin|Hv]; [|auto].
      apply elem_of_union in Hin as [Hin|Hin]; [|auto].
      apply elem_of_singleton in Hin. right. eauto.
    + intros Hall. apply Forall_app in Hall as [_ Hall].
      inversion Hall; subst. contradiction.
Qed.

Lemma first_pass_spec (root : Block) (start : gset Value) (outs : list Value) :
  forall targets ret targets' ret',
    Lowering.first_pass root start outs targets ret = (targets', ret') ->
    ret ⊆ ret'
    /\ (forall o, o ∈ outs -> o ∉ start -> nid (Torch.value_node root o) ∈ ret')
    /\ (forall id, id ∈ ret' ->
          id ∈ ret \/ (exists v, (v ∉ start) /\ id = nid (Torch.value_node root v)))
    /\ (Forall (fun v => v ∈ start) outs -> ret' = ret /\ targets' = targets).
Proof.
  induction outs as [|o outs IH]; intros targets ret targets' ret' H; simpl in H.
  - injection H as <- <-. repeat split; auto. intros o Ho. inversion Ho.
  - destruct (decide (o ∈ start)) as [Ho|Ho].
    + apply IH in H as (H1 & H2 & H3 & H4). repeat split; auto.
      * intros o' Ho' Hn. apply elem_of_cons in Ho' as [->|Ho']; [contradiction|auto].
      * apply H4. inversion H; auto.
      * apply H4. inversion H; auto.
    + apply IH in H as (H1 & H2 & H3 & H4). split; [|split; [|split]].
      * etransitivity; [|exact H1]. apply union_subseteq_r.
      * intros o' Ho' Hn. apply elem_of_cons in Ho' as [->|Ho']; [|auto].
        apply H1. apply elem_of_union. left. now apply elem_of_singleton.
      * intros id Hid. destruct (H3 id Hid) as [Hin|Hv]; [|auto].
        apply elem_of_union in Hin as [Hin|Hin]; [|auto].
        apply elem_of_singleton in Hin. right. eauto.
      * intros Hall. inversion Hall; subst. contradiction.
Qed.



(** ** What an export writes *)

Lemma check_model_OK_inv (env : TorchEnv) (o : _ExporterOptions) (m m' : ModelProto) :
  Convert.check_model env o m = OK m' ->
  (if onnx_shape_inference o
   then infer_shapes env m (onnx_check_type o) (onnx_strict_mode o) (onnx_data_prop o)
        = OK m'
   else m' = m)
  /\ (enable_onnx_checker o = true -> checker_check_model env m' = OK tt).
Proof.
  unfold Convert.check_model. intros H. inv_bind H. inv_bind H_r.
  injection H_r_r as <-. split.
  - destruct (onnx_shape_inference o); [exact H_l|now injection H_l as <-].
  - intros He. rewrite He in H_r_l. destruct a0. exact H_r_l.
Qed.

(** X15. What a successful [export] has written is the serialization of
    a model that passed [onnx.checker.check_model], when the checker is
    enabled: to a path it is the file's whole content, to a stream it
    follows what the stream held. *)
Theorem exported_model_was_checked (env : TorchEnv) (model : Callable)
    (args : list Tensor) (f : OutputFile) (o : _ExporterOptions) (w : World)
    (outs : list Tensor) :
  snd (Convert.export env model args f o w) = OK outs ->
  exists m bytes,
    SerializeToString env m = OK bytes
    /\ (enable_onnx_checker o = true -> checker_check_model env m = OK tt)
    /\ match f with
       | to_path p =>
           files (fst (Convert.export env model args f o w)) !! p = Some bytes
       | to_stream id =>
           streams (fst (Convert.export env model args f o w)) !! id
           = Some (default [] (streams w !! id) ++ bytes)
       end.
Proof.
  unfold Convert.export. intros H.
  assert (Hw : nothing_written w (fst (Convert._Exporter_init env o model args w))).
  { unfold Convert._Exporter_init, nothing_written.
    destruct (register_version env (opset_version o)); [|auto].
    destruct (Convert._convert env o model args (globals w)); auto. }
  destruct (Convert._Exporter_init env o model args w) as [w1 [[[ex m] ws]|e]] eqn:E;
    [|simpl in H; discriminate].
  destruct Hw as [Hf Hs]. simpl in Hf, Hs.
  destruct (init_OK_inv env model args o w (ex, m, ws)) as (gl & ex0 & Ht & Hg).
  { now rewrite E. }
  apply run_trace_fields in Ht as (traced & _ & Ho & _).
  pose proof (lowered_from_generate_onnx env ex0 ex m ws Hg) as [(Hopts & _) _].
  apply generate_onnx_OK_inv in Hg
    as (ex1 & g1 & ex2 & nodes & tables & ins & os & _ & _ & _ & _ & _ & _ & _ & _ & Hm).
  apply check_model_OK_inv in Hm as [_ Hchk].
  rewrite Hopts, Ho in Hchk.
  pose proof (generate_writes env m f w1) as Hgen. cbv zeta in Hgen.
  destruct (Convert.generate env m f w1) as [w2 [u|e]]; simpl in *; [|discriminate].
  destruct Hgen as (G1 & _ & G3). destruct (G3 eq_refl) as (bytes & Hb & Hfiles).
  exists m, bytes. split; [exact Hb|]. split; [exact Hchk|].
  destruct f as [p|id].
  - rewrite Hfiles. apply lookup_insert_eq.
  - rewrite G1, Hb, Hs. apply lookup_insert_eq.
Qed.

Lemma exported_model_was_checked_witness :
  let env := Sample.sample_env [] in
  let o := Sample.options (Some ["x"; "w"]) (Some ["y"]) ONNX in
  exists m,
    checker_check_model env m = OK tt
    /\ files (fst (Convert.export env 0%N Sample.two_inputs (to_path "model.onnx") o
                     Sample.world0)) !! "model.onnx" = Some [1%N].
Proof.
  cbv zeta.
  destruct (snd (Convert.export (Sample.sample_env []) 0%N Sample.two_inputs
                   (to_path "model.onnx")
                   (Sample.options (Some ["x"; "w"]) (Some ["y"]) ONNX) Sample.world0))
    as [outs|e] eqn:E; [|vm_compute in E; discriminate].
  destruct (exported_model_was_checked _ _ _ _ _ _ _ E) as (m & bytes & Hb & Hc & Hf).
  exists m. split; [apply Hc; reflexivity|].
  rewrite Hf. f_equal.
  assert (Hf' := Hf). vm_compute in Hf'. injection Hf' as <-. reflexivity.
Defined.

(** ** The state of torch while the model is traced *)

(** X16. A conversion that succeeds has traced the model with torch's
    opset version and operator export type set to the exporter's, with
    torch's shape-inference flag off whatever [onnx_shape_inference]
    says, with the class-private flag set and with [is_in_onnx_export()]
    still false.  Whatever the outcome, [_convert] leaves the
    class-private flag false. *)
Theorem conversion_traces_with_export_flags (env : TorchEnv) (o : _ExporterOptions)
    (model : Callable) (inputs_ : list Tensor) (gl : Globals) :
  (forall c,
     snd (Convert._convert env o model inputs_ gl) = OK c ->
     exists gl4 ex,
       snd (Convert._run_trace env o model inputs_ gl4) = OK ex
       /\ Convert.generate_onnx env ex = OK c
       /\ in_onnx_export gl4 = false
       /\ mangled_in_onnx_export gl4 = true
       /\ _export_onnx_opset_version gl4 = opset_version o
       /\ _operator_export_type gl4 = Some (operator_export_type o)
       /\ _onnx_shape_inference gl4 = false
       /\ _params_dict gl4 = _params_dict gl)
  /\ mangled_in_onnx_export (fst (Convert._convert env o model inputs_ gl)) = false.
Proof.
  split.
  - intros c H. apply convert_OK_inv in H. unfold Convert.try_block in H.
    destruct (in_onnx_export gl) eqn:Ein; [simpl in H; discriminate|].
    destruct (select_model_mode_for_export env model (training o));
      [|simpl in H; discriminate].
    unfold Convert._set_opset_version in H.
    destruct (supported_opset env (opset_version o)); [|simpl in H; discriminate].
    match type of H with
    | context [Convert._run_trace env o model inputs_ ?g0] =>
        exists g0; destruct (Convert._run_trace env o model inputs_ g0) as [gl5 r]
    end.
    simpl in *. destruct r as [ex|e]; [|discriminate].
    exists ex. repeat split; auto.
  - unfold Convert._convert.
    destruct (Convert.try_block env o model inputs_ gl) as [[s gl1] r].
    unfold Convert.finally_block, Convert._set_opset_version.
    destruct (Convert.prev_opset_version s) as [v|].
    + destruct (supported_opset env v); [|reflexivity].
      destruct (Convert.prev_shape_inference s); reflexivity.
    + destruct (Convert.prev_shape_inference s); reflexivity.
Qed.

Lemma conversion_traces_with_export_flags_witness :
  let env := Sample.sample_env [] in
  let o := Sample.options (Some ["x"; "w"]) (Some ["y"]) ONNX in
  onnx_shape_inference o = true
  /\ exists c gl4 ex,
       snd (Convert._convert env o 0%N Sample.two_inputs Sample.globals0) = OK c
       /\ snd (Convert._run_trace env o 0%N Sample.two_inputs gl4) = OK ex
       /\ in_onnx_export gl4 = false
       /\ _export_onnx_opset_version gl4 = 12%Z
       /\ _onnx_shape_inference gl4 = false.
Proof.
  cbv zeta. split; [reflexivity|].
  destruct (snd (Convert._convert (Sample.sample_env [])
                   (Sample.options (Some ["x"; "w"]) (Some ["y"]) ONNX) 0%N
                   Sample.two_inputs Sample.globals0)) as [c|e] eqn:E;
    [|vm_compute in E; discriminate].
  destruct (proj1 (conversion_traces_with_export_flags _ _ _ _ _) c E)
    as (gl4 & ex & H1 & _ & H3 & _ & H5 & _ & H7 & _).
  exists c, gl4, ex. repeat split; assumption.
Defined.

(** ** The renaming of the graph inputs in [optimize] *)

Lemma rename_inputs_spec (env : TorchEnv) (sid : option TorchValueID) (ins : list Value) :
  forall names idx sc gr,
    Forall (fun v => Convert.is_self_id sid v = false)
      (take (length names) (drop (idx + sc) ins)) ->
    length names <= length (drop (idx + sc) ins) ->
    Convert.rename_inputs env sid ins names idx sc gr
    = OK (sc, set_debug_names env (drop (idx + sc) ins) names gr).
Proof.
  induction names as [|n names IH]; intros idx sc gr Hns Hlen; simpl.
  - unfold set_debug_names. destruct (drop (idx + sc) ins); reflexivity.
  - simpl in Hlen.
    destruct (ins !! (idx + sc)) as [v|] eqn:Ev.
    2:{ apply lookup_ge_None in Ev. rewrite length_drop in Hlen. lia. }
    rewrite (drop_S _ _ _ Ev) in Hns, Hlen |- *. simpl in Hns, Hlen.
    inversion Hns as [|? ? Hv Hns']; subst. rewrite Hv.
    rewrite IH.
    + reflexivity.
    + exact Hns'.
    + simpl. lia.
Qed.

(** X17. Without a module input, the renaming step of [optimize] gives
    the supplied names to the graph inputs position by position and hands
    them to the dynamic-shape pass.  When the module is the first graph
    input, the loop spends the first supplied name on it: the input that
    follows the module keeps its traced name, and the remaining names go
    to the inputs after it. *)
Theorem renaming_of_graph_inputs (env : TorchEnv) :
  (forall ins names gr,
     length names <= length ins ->
     Convert.rename_inputs env None ins names 0 0 gr
     = OK (0, set_debug_names env ins names gr))
  /\ (forall s rest n0 names gr,
        Forall (fun v => v <> s) (take (length names) (drop 1 rest)) ->
        length names < length rest ->
        Convert.rename_inputs env (Some s) (s :: rest) (n0 :: names) 0 0 gr
        = OK (1, set_debug_names env (drop 1 rest) names gr))
  /\ (forall o names gr,
        input_names o = Some names ->
        length (Torch.graph_inputs gr) = length names ->
        Convert.rename_graph_inputs env o None gr
        = jit_pass env (onnx_set_dynamic_input_shape (dynamic_axes o) names)
            (set_debug_names env (Torch.graph_inputs gr) names gr)).
Proof.
  split; [|split].
  - intros ins names gr Hlen.
    rewrite rename_inputs_spec; simpl; rewrite ?drop_0; auto.
    apply Forall_forall. auto.
  - intros s rest n0 names gr Hns Hlen. simpl.
    unfold _unique_id. rewrite N.eqb_refl.
    rewrite rename_inputs_spec.
    + reflexivity.
    + simpl. eapply Forall_impl; [exact Hns|]. intros v Hv. simpl.
      unfold _unique_id. now apply N.eqb_neq.
    + simpl. rewrite length_drop. unfold Value, TorchValueID in *. lia.
  - intros o names gr Hn Hlen. unfold Convert.rename_graph_inputs.
    rewrite Hn. simpl. rewrite Hlen, Nat.add_0_r, Nat.eqb_refl. simpl.
    rewrite rename_inputs_spec.
    + reflexivity.
    + apply Forall_forall. auto.
    + change (0 + 0) with 0. rewrite drop_0, Hlen. lia.
Qed.

Lemma renaming_of_graph_inputs_witness :
  let env := Sample.sample_env [] in
  Convert.rename_inputs env None [1; 2]%N ["a"; "b"] 0 0 Sample.add_graph
  = OK (0, set_debug_names env [1; 2]%N ["a"; "b"] Sample.add_graph)
  /\ g_names (set_debug_names env [1; 2]%N ["a"; "b"] Sample.add_graph)
     = {[ 1%N := "a"; 2%N := "b" ]}
  /\ (exists gr',
        Convert.rename_inputs env (Some 1%N) [1; 2; 7]%N ["x"; "b"] 0 0 ModuleSample.graph
        = OK (1, gr')
        /\ Torch.debugName gr' 2%N = "x" /\ Torch.debugName gr' 7%N = "b")
  /\ (exists gr',
        Convert.rename_inputs env (Some 1%N) [1; 2; 7]%N ["in"; "b"] 0 0 ModuleSample.graph
        = OK (1, gr')
        /\ Torch.debugName gr' 2%N = "x" /\ Torch.debugName gr' 7%N = "b").
Proof.
  cbv zeta.
  destruct (renaming_of_graph_inputs (Sample.sample_env [])) as (H1 & H2 & _).
  split; [apply H1; simpl; lia|]. split; [vm_compute; reflexivity|]. split.
  - eexists. split.
    + apply (H2 1%N [2; 7]%N "x" ["b"]); [|simpl; lia].
      repeat constructor. discriminate.
    + split; vm_compute; reflexivity.
  - eexists. split.
    + apply (H2 1%N [2; 7]%N "in" ["b"]); [|simpl; lia].
      repeat constructor. discriminate.
    + split; vm_compute; reflexivity.
Defined.

(** ** The type projector on nested types *)

(** X18. [_type_to_proto] returns a descriptor exactly for the lists, to
    any depth, of [NoneType], [IntType] and tensor types with a scalar
    type that is unknown or in torch's table; for every other type it
    raises.  In a descriptor it returns every tensor type has its shape
    field set, so that its closing assertion never fails, and the
    denotation is [repr(t)] unless [t] is [NoneType]. *)
Theorem type_to_proto_domain (repr : JitType -> string)
    (table : string -> option DataType) (t : JitType) :
  is_OK (TypeProjector._type_to_proto repr table t) = projectable table t
  /\ forall p,
       TypeProjector._type_to_proto repr table t = OK p ->
       has_shape p = true
       /\ (t <> NoneType -> tp_denotation p = repr t).
Proof.
  induction t as [|e IH| |st sz|k].
  - split; [reflexivity|]. intros p [= <-]. split; [reflexivity|congruence].
  - destruct IH as [IH1 IH2]. simpl.
    destruct (TypeProjector._type_to_proto repr table e) as [pe|err]; simpl in *.
    + split; [exact IH1|]. intros p [= <-]. simpl.
      split; [exact (proj1 (IH2 pe eq_refl))|reflexivity].
    + split; [exact IH1|]. intros p Hp. discriminate.
  - split; [reflexivity|]. intros p [= <-]. split; reflexivity.
  - simpl. destruct st as [s|]; simpl.
    + destruct (table s) as [d|]; simpl.
      * split; [reflexivity|]. intros p [= <-]. split; reflexivity.
      * split; [reflexivity|]. intros p Hp. discriminate.
    + split; [reflexivity|]. intros p [= <-]. split; reflexivity.
  - split; [reflexivity|]. intros p Hp. discriminate.
Qed.

Lemma type_to_proto_domain_witness :
  let project := TypeProjector._type_to_proto type_kind torch_cast_table in
  (exists p,
     project (ListType (ListType (TensorType (Some "Float") None))) = OK p
     /\ has_shape p = true /\ tp_denotation p = "ListType")
  /\ is_OK (project (ListType (ListType (OtherType FloatType)))) = false
  /\ is_OK (project (ListType (TensorType (Some "QInt8") None))) = false.
Proof.
  cbv zeta. split; [|split].
  - destruct (TypeProjector._type_to_proto type_kind torch_cast_table
                (ListType (ListType (TensorType (Some "Float") None)))) as [p|e] eqn:E;
      [|vm_compute in E; discriminate].
    exists p. split; [reflexivity|].
    destruct (proj2 (type_to_proto_domain type_kind torch_cast_table _) p E) as [H1 H2].
    split; [exact H1|]. apply H2. discriminate.
  - rewrite (proj1 (type_to_proto_domain type_kind torch_cast_table _)). reflexivity.
  - rewrite (proj1 (type_to_proto_domain type_kind torch_cast_table _)). reflexivity.
Defined.

(** ** Prefixes and scopes *)

Lemma prefix_app (pre s : string) : String.prefix pre (pre +:+ s) = true.
Proof.
  induction pre as [|c pre IH]; [destruct s; reflexivity|].
  change (String.prefix (String c pre) (String c (pre +:+ s)) = true). simpl.
  destruct (Ascii.ascii_dec c c); [exact IH|congruence].
Qed.

Lemma string_drop_app (pre s : string) : string_drop (String.length pre) (pre +:+ s) = s.
Proof.
  induction pre as [|c pre IH]; [destruct s; reflexivity|]. exact IH.
Qed.

Lemma prefix_split (pre : string) :
  forall text, String.prefix pre text = true ->
               text = pre +:+ string_drop (String.length pre) text.
Proof.
  induction pre as [|c pre IH]; intros text H.
  - destruct text; reflexivity.
  - destruct text as [|d text]; [discriminate|]. simpl in H.
    destruct (Ascii.ascii_dec c d) as [->|]; [|discriminate].
    change (String d text = String d (pre +:+ string_drop (String.length pre) text)).
    f_equal. now apply IH.
Qed.

(** X19. [_remove_prefix] removes the prefix once from a text that
    starts with it, and returns any other text as it is: the text is
    always the prefix, if it was there, followed by the result. *)
Theorem remove_prefix_spec :
  (forall pre s, _remove_prefix (pre +:+ s) pre = s)
  /\ (forall text pre, startswith text pre = false -> _remove_prefix text pre = text)
  /\ (forall text pre, startswith text pre = true ->
        text = pre +:+ _remove_prefix text pre).
Proof.
  unfold _remove_prefix, startswith. split; [|split].
  - intros pre s. rewrite prefix_app. apply string_drop_app.
  - intros text pre ->. reflexivity.
  - intros text pre H. rewrite H. now apply prefix_split.
Qed.

Lemma remove_prefix_spec_witness :
  _remove_prefix "__module.__module.fc" "__module." = "__module.fc"
  /\ _remove_prefix "fc.__module." "__module." = "fc.__module."
  /\ "__module.fc" = "__module." +:+ _remove_prefix "__module.fc" "__module.".
Proof.
  destruct remove_prefix_spec as (H1 & H2 & H3).
  split; [exact (H1 "__module." "__module.fc")|].
  split; [apply H2; reflexivity|apply H3; reflexivity].
Defined.

Lemma split_go_cons0 (sep : string) (c : Ascii.ascii) (s cur : string) :
  split_go sep 0 (String c s) cur
  = if String.prefix sep (String c s)
    then string_rev cur :: split_go sep (String.length sep - 1) s ""
    else split_go sep 0 s (String c cur).
Proof. reflexivity. Qed.

Lemma prefix_cons (a b : Ascii.ascii) (s1 s2 : string) :
  String.prefix (String a s1) (String b s2)
  = if Ascii.ascii_dec a b then String.prefix s1 s2 else false.
Proof. reflexivity. Qed.

Lemma prefix_nil (s : string) : String.prefix "" s = true.
Proof. destruct s; reflexivity. Qed.

Lemma split_go_nonempty (sep : string) (s : string) :
  forall skip cur, split_go sep skip s cur <> [].
Proof.
  induction s as [|c s IH]; intros skip cur; [discriminate|].
  destruct skip as [|k]; [|apply IH].
  rewrite split_go_cons0.
  destruct (String.prefix sep (String c s)); [discriminate|apply IH].
Qed.

Lemma slash_app (t : string) : "/" +:+ t = String (Ascii.ascii_of_nat 47) t.
Proof. reflexivity. Qed.

Lemma split_go_slash_app (s t : string) :
  forall cur,
    split_go "/" 0 (s +:+ "/" +:+ t) cur = split_go "/" 0 s cur ++ split_go "/" 0 t "".
Proof.
  induction s as [|c s IH]; intros cur.
  - change ("" +:+ "/" +:+ t) with ("/" +:+ t). rewrite slash_app.
    rewrite split_go_cons0, prefix_cons, prefix_nil.
    destruct (Ascii.ascii_dec _ _) as [e|Hne]; [reflexivity|].
    exfalso. apply Hne. reflexivity.
  - change (split_go "/" 0 (String c (s +:+ "/" +:+ t)) cur
            = split_go "/" 0 (String c s) cur ++ split_go "/" 0 t "").
    rewrite !split_go_cons0, !prefix_cons, !prefix_nil.
    destruct (Ascii.ascii_dec _ c) as [e|Hne].
    + change (String.length "/" - 1) with 0. rewrite IH. reflexivity.
    + apply IH.
Qed.

Lemma last_app_nonempty {A} (xs ys : list A) (d : A) :
  ys <> [] -> List.last (xs ++ ys) d = List.last ys d.
Proof.
  intros Hne. induction xs as [|x xs IH]; [reflexivity|]. simpl.
  destruct (xs ++ ys) eqn:E; [|exact IH].
  apply app_eq_nil in E as [_ ->]. congruence.
Qed.

(** X20. The name [value_name] makes for a value is its attribute alias
    when it has one.  Otherwise it is made from the last component of
    the value's scope, components being separated by slashes, with a
    leading [__module.] removed and a dot added unless it is empty, and
    the debug name: what precedes the last slash of the scope plays no
    part. *)
Theorem value_name_uses_innermost_scope (ex : Exporter) (v : Value) :
  (forall a, attrs ex !! _unique_id v = Some a -> Emission.value_name ex v = a)
  /\ (attrs ex !! _unique_id v = None ->
      Emission.value_name ex v
      = scoped_name (last_piece (py_split (scope_of ex v) "/")) (Torch.debugName (g ex) v))
  /\ (forall outer inner,
        attrs ex !! _unique_id v = None ->
        scope_of ex v = outer +:+ "/" +:+ inner ->
        Emission.value_name ex v
        = scoped_name (last_piece (py_split inner "/")) (Torch.debugName (g ex) v)).
Proof.
  assert (H2 : attrs ex !! _unique_id v = None ->
               Emission.value_name ex v
               = scoped_name (last_piece (py_split (scope_of ex v) "/"))
                   (Torch.debugName (g ex) v)).
  { intros Ha. unfold Emission.value_name. rewrite Ha. reflexivity. }
  split; [|split; [exact H2|]].
  - intros a Ha. unfold Emission.value_name. now rewrite Ha.
  - intros outer inner Ha Hs. rewrite (H2 Ha), Hs. f_equal.
    unfold py_split, last_piece. rewrite split_go_slash_app.
    apply last_app_nonempty. apply split_go_nonempty.
Qed.

Lemma value_name_uses_innermost_scope_witness :
  let ex := ModuleSample.lowered in
  scope_of ex 201%N = "M" +:+ "/" +:+ "__module.fc"
  /\ Emission.value_name ex 201%N = "fc.201"
  /\ Emission.value_name ex 4%N = "fc.weight".
Proof.
  cbv zeta.
  destruct (value_name_uses_innermost_scope ModuleSample.lowered 201%N) as (_ & _ & H3).
  destruct (value_name_uses_innermost_scope ModuleSample.lowered 4%N) as (H1 & _).
  split; [vm_compute; reflexivity|]. split.
  - rewrite (H3 "M" "__module.fc"); [vm_compute; reflexivity|reflexivity|].
    vm_compute. reflexivity.
  - apply H1. vm_compute. reflexivity.
Defined.

(** ** Tensor information of value infos *)



(** ** Extensions made from functions *)

Lemma or_name_falsy (dn : option string) (y : string) :
  Extensions.or_name dn "" = "" -> Extensions.or_name dn y = y.
Proof.
  destruct dn as [s|]; simpl; [|reflexivity].
  destruct (String.eqb s "") eqn:Es; [reflexivity|].
  intros ->. discriminate.
Qed.

Lemma or_name_truthy (dn : option string) (y : string) :
  Extensions.or_name dn "" <> "" -> Extensions.or_name dn y = Extensions.or_name dn "".
Proof.
  destruct dn as [s|]; simpl; [|congruence].
  destruct (String.eqb s ""); [congruence|reflexivity].
Qed.



(** X23. [_as_extension] returns an extension as it is, so that applying
    it twice is applying it once.  A callable without any of the
    attributes is wrapped with the class defaults: the trigger
    [(1, 'iteration')], the priority [PRIORITY_READER], the default name
    [_WrappedExtension] whatever its [__name__], and [finalize],
    [initialize] and [on_error] that do nothing; calling the wrapper
    calls the callable. *)
Theorem wrapped_callable_defaults {S M R : Type} :
  (forall x : Extensions.Object S M R,
     Extensions._as_extension (Extensions.an_extension (Extensions._as_extension x))
     = Extensions._as_extension x)
  /\ (forall f : Extensions.Function S M R,
        Extensions.f_trigger S M R f = None -> Extensions.f_priority S M R f = None ->
        Extensions.f_default_name S M R f = None ->
        Extensions.f_finalize S M R f = None -> Extensions.f_initialize S M R f = None ->
        Extensions.f_on_error S M R f = None ->
        let w := Extensions._as_extension (Extensions.a_function f) in
        Extensions.trigger w = Extensions.every 1 "iteration"
        /\ Extensions.priority w = 100%Z
        /\ Extensions.default_name w = "_WrappedExtension"
        /\ Extensions.name w = None
        /\ Extensions.call w = Extensions.f_call S M R f
        /\ (forall s, Extensions.finalize w s = OK s)
        /\ (forall m s, Extensions.initialize w m s = OK s)
        /\ (forall m e tb s, Extensions.on_error w m e tb s = OK s)).
Proof.
  split.
  - intros [e|f]; reflexivity.
  - intros f H1 H2 H3 H4 H5 H6. cbv zeta. simpl.
    rewrite H1, H2, H3, H4, H5, H6. simpl. repeat split.
Qed.

Lemma wrapped_callable_defaults_witness :
  let w := Extensions._as_extension (M := unit)
             (Extensions.a_function Extensions.counter) in
  Extensions.f_name Extensions.counter = Some "count"
  /\ Extensions.default_name w = "_WrappedExtension"
  /\ Extensions.priority w = 100%Z
  /\ Extensions.finalize w 3 = OK 3
  /\ Extensions._as_extension (Extensions.an_extension w) = w.
Proof.
  cbv zeta.
  destruct (@wrapped_callable_defaults nat unit nat) as [Hid Hdef].
  destruct (Hdef Extensions.counter eq_refl eq_refl eq_refl eq_refl eq_refl eq_refl)
    as (_ & H2 & H3 & _ & _ & H6 & _).
  split; [reflexivity|]. split; [exact H3|]. split; [exact H2|].
  split; [apply H6|]. apply (Hid (Extensions.a_function Extensions.counter)).
Defined.

(** ** Constants *)

(** X24. A [prim::Constant] node without [value] attribute, the constant
    [None], is skipped: the exporter stays as it is.  One whose value is
    the empty list makes [gen_const] read the first element of that list:
    the lowering raises IndexError.  [gen_const] takes no keyword argument
    but [value], so a constant node with a second attribute raises
    TypeError. *)
Theorem constant_edge_cases (env : TorchEnv) (depth : nat) (ref : BlockRef) (id : N)
    (ex : Exporter) (n : Node) :
  Lowering.get_node (g ex) id = OK n ->
  kind (info n) = "prim::Constant" ->
  (Lowering.hasAttribute n "value" = false ->
   Lowering.generate_onnx_node env (S depth) ref id ex = OK ex)
  /\ (forall o,
        attributes (info n) = [("value", attr_ival (IVList []))] ->
        inputs (info n) = [] -> outputs (info n) = [o] ->
        Lowering.generate_onnx_node env (S depth) ref id ex = Raise IndexError)
  /\ (forall t k2 a2,
        attributes (info n) = [("value", attr_t t); (k2, a2)] ->
        k2 <> "value" -> k2 <> "inplace" -> inputs (info n) = [] ->
        Lowering.generate_onnx_node env (S depth) ref id ex = Raise TypeError).
Proof.
  intros Hn Hk.
  assert (Hgen : Lowering.generate_onnx_node env (S depth) ref id ex
                 = Lowering.handle_constant env ref id ex).
  { simpl. rewrite Hn. simpl. rewrite Hk. reflexivity. }
  rewrite Hgen. unfold Lowering.handle_constant. rewrite Hn. simpl.
  split; [|split].
  - intros ->. reflexivity.
  - intros o Ha Hi Ho. unfold Lowering.hasAttribute. rewrite Ha. simpl.
    unfold Lowering.run_symbolic_function, Lowering.call_sym_func.
    rewrite Hn. simpl. rewrite Ha, Hi, Hk. simpl.
    unfold Lowering.the_output. rewrite Ho. simpl.
    unfold Lowering.gen_const. simpl. rewrite Ha. simpl.
    unfold Lowering.the_output. rewrite Ho. reflexivity.
  - intros t k2 a2 Ha Hv Hne Hi. unfold Lowering.hasAttribute. rewrite Ha. simpl.
    unfold Lowering.run_symbolic_function, Lowering.call_sym_func.
    rewrite Hn. simpl. rewrite Ha, Hi, Hk. simpl.
    apply String.eqb_neq in Hv, Hne. rewrite Hv. simpl.
    unfold Lowering.del_inplace. simpl. rewrite Hne. reflexivity.
Qed.

Lemma constant_edge_cases_witness :
  let env := Sample.sample_env [] in
  let const a := mkNode (set_attributes (Sample.node_info 101 "prim::Constant" [] [2%N] "") a)
                        [] in
  let on a := Sample.exporter_on (Sample.options (Some ["x"]) None ONNX)
                (Sample.graph_of (mkBlock (Sample.param 100 [1%N]) [const a]
                                          (Sample.ret 102 [2%N])) ∅)
                Sample.one_input Sample.one_input in
  Lowering.generate_onnx_node env 1 root_block 101%N (on []) = OK (on [])
  /\ Lowering.generate_onnx_node env 1 root_block 101%N
       (on [("value", attr_ival (IVList []))]) = Raise IndexError
  /\ Lowering.generate_onnx_node env 1 root_block 101%N
       (on [("value", attr_t (Sample.float_tensor [])); ("dtype", attr_i 1)])
     = Raise TypeError.
Proof.
  cbv zeta. split; [|split].
  - eapply (constant_edge_cases (Sample.sample_env []) 0 root_block 101%N);
      reflexivity.
  - eapply (constant_edge_cases (Sample.sample_env []) 0 root_block 101%N);
      reflexivity.
  - eapply (constant_edge_cases (Sample.sample_env []) 0 root_block 101%N);
      try reflexivity; discriminate.
Defined.

(** ** The module among the graph inputs *)

(** X25. [_run_trace] looks for the module at the first graph input
    only: [self_id] is that input when its type is a class type and
    [None] otherwise.  A traced graph without inputs makes it raise
    IndexError, before torch's parameter dictionary is assigned. *)
Theorem trace_finds_module_at_first_input (env : TorchEnv) (o : _ExporterOptions)
    (model : Callable) (ins : list Tensor) (gl : Globals) :
  (forall gl1 traced,
     jit_trace env model ins o gl = (gl1, OK traced) ->
     Torch.graph_inputs (tr_inlined_graph traced) = [] ->
     Convert._run_trace env o model ins gl = (gl1, Raise IndexError))
  /\ (forall ex,
        snd (Convert._run_trace env o model ins gl) = OK ex ->
        exists traced first rest,
          snd (jit_trace env model ins o gl) = OK traced
          /\ Torch.graph_inputs (tr_inlined_graph traced) = first :: rest
          /\ self_id ex
             = if String.eqb (type_kind (Torch.type_of (tr_inlined_graph traced) first))
                             "ClassType"
               then Some first else None).
Proof.
  split.
  - intros gl1 traced Hj Hi. unfold Convert._run_trace, Convert.self_id_of.
    rewrite Hj, Hi. reflexivity.
  - intros ex H.
    apply run_trace_OK_inv in H as (traced & sid & gr' & Hj & Hs & _ & _ & _ & Hsid & _).
    unfold Convert.self_id_of in Hs.
    destruct (Torch.graph_inputs (tr_inlined_graph traced)) as [|first rest] eqn:Ei;
      [discriminate|].
    injection Hs as <-. exists traced, first, rest. auto.
Qed.

Lemma trace_finds_module_at_first_input_witness :
  let env := Sample.sample_env [] in
  let o := Sample.options (Some ["x"; "w"]) (Some ["y"]) ONNX in
  exists ex traced first rest,
    snd (Convert._run_trace env o 0%N Sample.two_inputs Sample.globals0) = OK ex
    /\ snd (jit_trace env 0%N Sample.two_inputs o Sample.globals0) = OK traced
    /\ Torch.graph_inputs (tr_inlined_graph traced) = first :: rest
    /\ self_id ex = None.
Proof.
  cbv zeta.
  destruct (snd (Convert._run_trace (Sample.sample_env [])
                   (Sample.options (Some ["x"; "w"]) (Some ["y"]) ONNX) 0%N
                   Sample.two_inputs Sample.globals0)) as [ex|e] eqn:E;
    [|vm_compute in E; discriminate].
  destruct (proj2 (trace_finds_module_at_first_input _ _ _ _ _) ex E)
    as (traced & first & rest & H1 & H2 & H3).
  exists ex, traced, first, rest. split; [reflexivity|]. split; [exact H1|].
  split; [exact H2|].
  vm_compute in E. injection E as <-. reflexivity.
Defined.

(** ** Conditionals during lowering *)

Lemma find_nid (id : N) :
  (forall n m, Torch.find_in_node id n = Some m -> nid (info m) = id)
  /\ (forall b m, Torch.find_in_block id b = Some m -> nid (info m) = id).
Proof.
  apply Node_Block_ind.
  - intros i bs IH m H. simpl in H.
    destruct (N.eqb_spec (nid i) id) as [He|Hne]; [now injection H as <-|].
    induction IH as [|b bs Hb _ IHbs]; [discriminate|].
    destruct (Torch.find_in_block id b) as [m'|] eqn:Eb; [|auto].
    injection H as <-. now apply Hb.
  - intros p ns r IH m H. simpl in H.
    induction IH as [|n ns Hn _ IHns]; [discriminate|].
    destruct (Torch.find_in_node id n) as [m'|] eqn:En; [|auto].
    injection H as <-. now apply Hn.
Qed.

Lemma move_to_end_root (id : N) (gr : Graph) (m : Node) :
  Torch.find_node (Torch.move_to_end root_block id gr) id = Some m ->
  exists ns last,
    Torch.graph_nodes (Torch.move_to_end root_block id gr) = ns ++ [last]
    /\ nid (info last) = id.
Proof.
  unfold Torch.move_to_end.
  destruct (Torch.find_node gr id) as [m0|] eqn:Ef; [|congruence].
  intros _. unfold Torch.graph_nodes. simpl.
  destruct (g_block gr) as [p ns r] eqn:Eb. simpl.
  eexists _, m0. split; [reflexivity|].
  unfold Torch.find_node in Ef. exact (proj2 (find_nid id) _ _ Ef).
Qed.

(** X26. Lowering a [prim::If] node of the graph's top level lowers
    the nodes of its blocks and then moves the node before the return
    node: when it is done the node, if the graph still has it, is the last
    node of the graph.  Unless doc strings are stripped, the doc string
    recorded for it describes the node as it was before its blocks were
    lowered. *)
Theorem lowered_if_moves_to_end (env : TorchEnv) (depth : nat) (id : N)
    (ex ex' : Exporter) (n : Node) :
  Lowering.get_node (g ex) id = OK n ->
  kind (info n) = "prim::If" ->
  Lowering.generate_onnx_node env (S depth) root_block id ex = OK ex' ->
  (strip_doc_string (opts ex) = false ->
   node_doc_string ex' !! id = Some (Lowering.if_doc_str env id n (g ex)))
  /\ (forall m,
        Torch.find_node (g ex') id = Some m ->
        exists ns last,
          Torch.graph_nodes (g ex') = ns ++ [last] /\ nid (info last) = id).
Proof.
  intros Hn Hk H. simpl in H. rewrite Hn in H. simpl in H. rewrite Hk in H. simpl in H.
  unfold Lowering.handle_if in H. rewrite Hn in H. simpl in H.
  inv_bind H. rename a into ex1. injection H_r as <-.
  assert (L : lowered_from ex ex1).
  { eapply (foldM_invariant (lowered_from ex)); [| |exact H_l];
      [|apply lowered_from_refl].
    intros st k st' Hst Hb. inv_bind Hb.
    destruct (blocks a !! k) as [b|]; [|discriminate].
    eapply (foldM_invariant (lowered_from ex)); [| |exact Hb_r]; [|exact Hst].
    intros st1 x st1' Hst1 Hb1. apply lowered_from_generate_onnx_node in Hb1.
    eapply lowered_from_trans; eassumption. }
  destruct L as ((Ho & _) & _). split.
  - intros Hs. rewrite Ho, Hs. simpl. apply lookup_insert_eq.
  - intros m Hm. simpl in Hm |- *.
    destruct (negb (strip_doc_string (opts ex1))); simpl in *;
      eapply move_to_end_root; exact Hm.
Qed.

Lemma lowered_if_moves_to_end_witness :
  let env := Sample.sample_env [] in
  let gr :=
    Sample.graph_of
      (mkBlock (Sample.param 100 [1; 2]%N)
         [Sample.if_node; Sample.node 103 "aten::relu" [2%N] [6%N] ""]
         (Sample.ret 102 [5%N])) {[ 1%N := "c"; 2%N := "x" ]} in
  let ex := Sample.exporter_on (Sample.options (Some ["c"; "x"]) None ONNX) gr
              Sample.two_inputs Sample.one_input in
  exists ex' ns last,
    Lowering.generate_onnx_node env 2 root_block 101%N ex = OK ex'
    /\ Torch.graph_nodes (g ex') = ns ++ [last] /\ nid (info last) = 101%N
    /\ map (fun m => nid (info m)) (Torch.graph_nodes (g ex')) = [103%N; 101%N].
Proof.
  cbv zeta.
  match goal with
  | |- exists ex' ns last, ?gen = _ /\ _ =>
      destruct gen as [ex'|e] eqn:E; [|vm_compute in E; discriminate]
  end.
  destruct (Torch.find_node (g ex') 101%N) as [m|] eqn:Ef;
    [|vm_compute in E; injection E as <-; vm_compute in Ef; discriminate].
  assert (H := fun a b =>
            proj2 (lowered_if_moves_to_end _ 1 101%N _ ex' Sample.if_node a b E)).
  specialize (H eq_refl eq_refl).
  destruct (H m Ef) as (ns & last & H1 & H2).
  exists ex', ns, last. split; [reflexivity|]. split; [exact H1|]. split; [exact H2|].
  vm_compute in E. injection E as <-. reflexivity.
Defined.

(** ** Examples *)

Example py_split_kind : py_split "aten::add_" "::" = ["aten"; "add_"].
Proof. reflexivity. Qed.

Example py_split_trailing : py_split "a::" "::" = ["a"; ""].
Proof. reflexivity. Qed.

Example py_split_scope : last_piece (py_split "M/__module.fc" "/") = "__module.fc".
Proof. reflexivity. Qed.

Example remove_prefix_module : _remove_prefix "__module.fc" "__module." = "fc".
Proof. reflexivity. Qed.

Example remove_prefix_absent : _remove_prefix "fc" "__module." = "fc".
Proof. reflexivity. Qed.

Example inplace_suffix : endswith "add_" "_" = true /\ drop_last_char "add_" = "add".
Proof. split; reflexivity. Qed.

(** The add sample exports to one [Add] node named after the scope-free
    names it was given. *)
Example export_add_sample :
  exists ex m,
    snd (Convert._Exporter_init (Sample.sample_env [])
           (Sample.options (Some ["x"; "w"]) (Some ["y"]) ONNX) 0%N Sample.two_inputs
           Sample.world0) = OK (ex, m, [])
    /\ gp_node (mp_graph m) = [mkNodeProto "Add_1" "Add" "" [] ["x"; "w"] ["y"]]
    /\ gp_initializer (mp_graph m) = [].
Proof. eexists _, _. split; [vm_compute; reflexivity|]. split; reflexivity. Qed.

(** Without [output_names] the output of the lowered node is named from
    the scope of the node it replaces. *)
Example value_name_from_scope :
  exists ex m,
    snd (Convert._Exporter_init (Sample.sample_env [])
           (Sample.options (Some ["x"; "w"]) None ONNX) 0%N Sample.two_inputs
           Sample.world0) = OK (ex, m, [])
    /\ map np_output (gp_node (mp_graph m)) = [["fc.201"]].
Proof. eexists _, _. split; [vm_compute; reflexivity|]. reflexivity. Qed.

(** One output name for two outputs: the export succeeds with a warning. *)
Example export_with_fewer_output_names :
  exists ex m,
    snd (Convert._Exporter_init (Sample.sample_env [])
           (Sample.options (Some ["x"]) (Some ["out"]) ONNX) 1%N Sample.one_input
           Sample.world0) = OK (ex, m, [Emission.output_names_warning])
    /\ map vi_name (gp_output (mp_graph m)) = ["out"; "x"].
Proof. eexists _, _. split; [vm_compute; reflexivity|]. reflexivity. Qed.

(** A successful export writes the serialized model to the path. *)
Example export_writes_model :
  exists w',
    Convert.export (Sample.sample_env []) 0%N Sample.two_inputs (to_path "model.onnx")
      (Sample.options (Some ["x"; "w"]) (Some ["y"]) ONNX) Sample.world0
    = (w', OK [Sample.float_tensor [2; 3]%Z])
    /\ files w' !! "model.onnx" = Some [1%N].
Proof. eexists. split; [vm_compute; reflexivity|]. reflexivity. Qed.

(** Reached through [export], a conversion whose folding removes a graph
    input stops at the count assertion on [input_names] in
    [generate_proto_nodes]: [optimize] has required as many names as the
    graph had inputs before the folding. *)
Example export_with_folded_input :
  snd (Convert.export (Sample.sample_env Sample.folded_w) 0%N Sample.two_inputs
         (to_path "model.onnx") (Sample.options (Some ["x"; "w"]) (Some ["y"]) ONNX)
         Sample.world0)
  = Raise (AssertionError "input_names").
Proof. vm_compute. reflexivity. Qed.

(** A conditional is lowered inside its blocks and emitted with its two
    subgraphs. *)
Example export_if_sample :
  exists ex m g1 g2,
    snd (Convert._Exporter_init (Sample.sample_env [])
           (Sample.options (Some ["c"; "x"]) (Some ["out"]) ONNX) 3%N Sample.two_inputs
           Sample.world0) = OK (ex, m, [])
    /\ map np_attribute (gp_node (mp_graph m))
       = [[("then_branch", av_graph g1); ("else_branch", av_graph g2)]]
    /\ map np_op_type (gp_node g1) = ["Relu"]
    /\ map np_op_type (gp_node g2) = ["Add"].
Proof.
  eexists _, _, _, _. split; [vm_compute; reflexivity|].
  split; [reflexivity|]. split; reflexivity.
Qed.
